(** * A shallow embedding of the kaniko build planner, RUN executor and cache warmer

    The Go sources modelled here are
    - pkg/config/options.go          (EnvBool, EnvBoolDefault)
    - pkg/dockerfile/dockerfile.go   (extractValFromQuotes, unifyArgs,
                                      MakeKanikoStages and its helpers)
    - pkg/commands/run.go            (runCommandWithFlags, swapDir,
                                      runCommandInExec)
    - pkg/executor/warmer.go         (Warmer.Warm)
    - cmd/runner/main.go             (exit status of the RUN runner)

    Go strings are byte strings; they are modelled by [string], whose
    characters are bytes ([ascii]). Go errors are modelled by the message
    they carry, and a run-time panic (an out-of-range slice index) by a
    separate outcome. *)

From Stdlib Require Import String Ascii List ZArith Bool Arith Lia.
Import ListNotations.
Open Scope string_scope.
Open Scope list_scope.
Open Scope nat_scope.

(** ** Outcomes of Go functions: a value, an error, or a run-time panic *)

Inductive result (A : Type) : Type :=
| Ok : A -> result A
| Err : string -> result A
| Panic : string -> result A.
Arguments Ok {A} _.
Arguments Err {A} _.
Arguments Panic {A} _.

Definition bind {A B} (r : result A) (f : A -> result B) : result B :=
  match r with
  | Ok a => f a
  | Err e => Err e
  | Panic m => Panic m
  end.

Notation "x <- r ;; k" := (bind r (fun x => k))
  (at level 61, r at next level, right associativity).

(** ** Byte-level string helpers (package strings and strconv) *)
Module GoStrings.

(** Characters that are awkward to write as literals. *)
Definition dquote : ascii := ascii_of_nat 34.
Definition squote : ascii := ascii_of_nat 39.
Definition backslash : ascii := ascii_of_nat 92.
Definition equals : ascii := ascii_of_nat 61.
Definition slash : ascii := ascii_of_nat 47.

Definition str1 (c : ascii) : string := String c EmptyString.
Definition str2 (c d : ascii) : string := String c (String d EmptyString).

(** [s[n]] for an index the caller has checked to be in range. *)
Definition byteAt (s : string) (n : nat) : ascii :=
  match String.get n s with Some c => c | None => zero end.

(** strings.ToLower, on the ASCII range (stage names and --from values). *)
Definition lowerAscii (c : ascii) : ascii :=
  let n := nat_of_ascii c in
  if (65 <=? n) && (n <=? 90) then ascii_of_nat (n + 32) else c.

Fixpoint ToLower (s : string) : string :=
  match s with
  | EmptyString => EmptyString
  | String c r => String (lowerAscii c) (ToLower r)
  end.

(** strings.EqualFold on the ASCII range. *)
Definition EqualFold (s t : string) : bool := String.eqb (ToLower s) (ToLower t).

(** strings.Split(s, sep) for a one-byte separator: every occurrence
    splits, and the empty string gives one empty field. *)
Fixpoint Split (sep : ascii) (s : string) : list string :=
  match s with
  | EmptyString => [EmptyString]
  | String c r =>
      let parts := Split sep r in
      if Ascii.eqb c sep then EmptyString :: parts
      else match parts with
           | p :: ps => String c p :: ps
           | [] => [str1 c]
           end
  end.

(** strings.SplitN(s, sep, 2): at most two fields. *)
Fixpoint SplitN2 (sep : ascii) (s : string) : list string :=
  match s with
  | EmptyString => [EmptyString]
  | String c r =>
      if Ascii.eqb c sep then [EmptyString; r]
      else match SplitN2 sep r with
           | p :: ps => String c p :: ps
           | [] => [str1 c]
           end
  end.

(** strconv.Atoi (64-bit int): an optional sign, at least one decimal
    digit, nothing else, and a value in the int64 range. *)
Definition isDigit (c : ascii) : bool :=
  let n := nat_of_ascii c in (48 <=? n) && (n <=? 57).

Fixpoint digitsVal (s : string) (acc : Z) : option Z :=
  match s with
  | EmptyString => Some acc
  | String c r =>
      if isDigit c
      then digitsVal r (acc * 10 + Z.of_nat (nat_of_ascii c - 48))%Z
      else None
  end.

Definition Atoi (s : string) : option Z :=
  let '(neg, body) :=
    match s with
    | String c r =>
        if Ascii.eqb c "+"%char then (false, r)
        else if Ascii.eqb c "-"%char then (true, r)
        else (false, s)
    | EmptyString => (false, s)
    end in
  match body with
  | EmptyString => None
  | _ =>
      match digitsVal body 0 with
      | None => None
      | Some v =>
          let z := if neg then (- v)%Z else v in
          if (- 2 ^ 63 <=? z)%Z && (z <=? 2 ^ 63 - 1)%Z then Some z else None
      end
  end.

(** strconv.ParseBool. *)
Definition ParseBool (s : string) : option bool :=
  if existsb (String.eqb s) ["1"; "t"; "T"; "TRUE"; "true"; "True"] then Some true
  else if existsb (String.eqb s) ["0"; "f"; "F"; "FALSE"; "false"; "False"] then Some false
  else None.

End GoStrings.
Import GoStrings.

(** ** pkg/config: feature flags read from the environment *)
Module Config.

(** The process environment, as seen by os.LookupEnv. *)
Definition Environ := string -> option string.

Definition EnvBoolDefault (env : Environ) (key : string) (def : bool) : bool :=
  match env key with
  | None => def
  | Some val =>
      match ParseBool val with
      | None => def
      | Some ok => ok
      end
  end.

Definition EnvBool (env : Environ) (key : string) : bool := EnvBoolDefault env key false.

End Config.

(** ** pkg/dockerfile: the data model of buildkit's parsed Dockerfile *)
Module Dockerfile.

(** instructions.Command, reduced to the three shapes the planner looks
    at: COPY (its --from value and the rest of the instruction), ONBUILD
    (the wrapped expression) and every other instruction. *)
Inductive Command : Type :=
| CopyCommand (From : string) (rest : string)
| OnbuildCommand (Expression : string)
| OtherCommand (text : string).

(** instructions.Stage *)
Record Stage : Type := mkStage {
  Name : string;
  Commands : list Command;
  BaseName : string;
  Platform : string;
  OrigCmd : string;
  DocComment : string;
  SourceCode : string;
  Location : list (nat * nat);
  Comments : list string
}.

Definition zeroStage : Stage := mkStage EmptyString [] EmptyString EmptyString
  EmptyString EmptyString EmptyString [] [].

Definition withCommands (s : Stage) (cmds : list Command) : Stage :=
  mkStage (Name s) cmds (BaseName s) (Platform s) (OrigCmd s) (DocComment s)
    (SourceCode s) (Location s) (Comments s).

Definition withBaseName (s : Stage) (b : string) : Stage :=
  mkStage (Name s) (Commands s) b (Platform s) (OrigCmd s) (DocComment s)
    (SourceCode s) (Location s) (Comments s).

(** instructions.KeyValuePairOptional and instructions.ArgCommand *)
Record KeyValuePairOptional : Type := mkKV { Key : string; Value : option string }.
Record ArgCommand : Type := mkArg { Args : list KeyValuePairOptional }.

(** config.KanikoStage, which embeds instructions.Stage. *)
Record KanikoStage : Type := mkKStage {
  KStage : Stage;
  BaseImageIndex : Z;
  Final : bool;
  BaseImageStoredLocally : bool;
  SaveStage : bool;
  MetaArgs : list ArgCommand;
  Index : Z
}.

(** The zero value config.KanikoStage{}. *)
Definition zeroKStage : KanikoStage := mkKStage zeroStage 0 false false false [] 0.

Definition withSaveStage (k : KanikoStage) (b : bool) : KanikoStage :=
  mkKStage (KStage k) (BaseImageIndex k) (Final k) (BaseImageStoredLocally k) b
    (MetaArgs k) (Index k).

(** The fields of config.KanikoOptions the planner reads. *)
Record KanikoOptions : Type := mkOpts {
  Target : string;
  BuildArgs : list string;
  SkipUnusedStages : bool
}.

(** constants.NoBaseImage *)
Definition NoBaseImage : string := "scratch".

(** ** extractValFromQuotes *)

Definition isQuote (c : ascii) : bool := Ascii.eqb c squote || Ascii.eqb c dquote.

Definition extractValFromQuotes (val : string) : result string :=
  if String.length val <? 2 then Ok val else
  let leader :=
    let c := byteAt val 0 in
    if isQuote c then str1 c
    else if Ascii.eqb c backslash then
      (let c1 := byteAt val 1 in
       if isQuote c1 then str2 backslash c1 else EmptyString)
    else EmptyString in
  let tail :=
    if String.length leader <? 2 then
      (let c := byteAt val (String.length val - 1) in
       if isQuote c then str1 c else EmptyString)
    else
      (let t := String.substring (String.length val - 2) 2 val in
       if String.eqb t (str2 backslash squote) || String.eqb t (str2 backslash dquote)
       then t else EmptyString) in
  if negb (String.eqb leader tail) then Err "quotes wrapping arg values must be matched"
  else if String.eqb leader EmptyString then Ok val
  else if String.length leader =? 2 then Ok val
  else Ok (String.substring 1 (String.length val - 2) val).

(** ** unifyArgs *)

(** A Go map[string]string as an association list without duplicate keys;
    an assignment replaces the entry of its key. Go iterates a map in an
    unspecified order: the list order below is one of them, and the
    statements about [unifyArgs] only look at membership. *)
Fixpoint amapSet (k v : string) (m : list (string * string)) : list (string * string) :=
  match m with
  | [] => [(k, v)]
  | (k', v') :: m' => if String.eqb k k' then (k, v) :: m' else (k', v') :: amapSet k v m'
  end.

Definition unifyArgs (metaArgs : list ArgCommand) (buildArgs : list string) : list string :=
  let argsMap :=
    fold_left (fun m marg =>
      fold_left (fun m arg =>
        match Value arg with
        | Some v => amapSet (Key arg) v m
        | None => m
        end) (Args marg) m) metaArgs [] in
  let argsMap :=
    fold_left (fun m a =>
      match Split equals a with
      | s0 :: s1 :: _ => if String.eqb s1 EmptyString then m else amapSet s0 s1 m
      | _ => m
      end) buildArgs argsMap in
  map (fun kv => (fst kv ++ str1 equals ++ snd kv)%string) argsMap.

End Dockerfile.

(** ** pkg/dockerfile: MakeKanikoStages *)
Module Planner.
Import Dockerfile.

(** Slice helpers. [setNth l i x] is [l[i] = x] for an index in range. *)
Fixpoint setNth {A} (l : list A) (i : nat) (x : A) : list A :=
  match l, i with
  | [], _ => []
  | _ :: r, O => x :: r
  | y :: r, S j => y :: setNth r j x
  end.

(** [l[k]++] on a []int: a panic when [k] is out of range. *)
Definition incr (l : list nat) (k : Z) : result (list nat) :=
  if (0 <=? k)%Z && (k <? Z.of_nat (length l))%Z
  then Ok (setNth l (Z.to_nat k) (S (nth (Z.to_nat k) l 0)))
  else Panic "index out of range".

Section Planner.

(** The parts of the planner that call into other packages:
    remote.RetrieveRemoteImage followed by ConfigFile, returning the
    image's ONBUILD triggers; parser.Parse with instructions.ParseCommand
    on a newline-separated text; and util.ResolveEnvironmentReplacement. *)
Variable RetrieveRemoteOnBuild : string -> result (list string).
Variable ParseCommandText : string -> result (list Command).
Variable ResolveEnvironmentReplacement : string -> list string -> result string.
(** The process environment, read for FF_KANIKO_SQUASH_STAGES. *)
Variable env : Config.Environ.

(** targetStage; Go's int result, -1 when there is no stage. *)
Fixpoint findStage (stages : list Stage) (target : string) (i : nat) : option nat :=
  match stages with
  | [] => None
  | s :: r => if EqualFold (Name s) target then Some i else findStage r target (S i)
  end.

Definition targetStage (stages : list Stage) (target : string) : result Z :=
  if String.eqb target EmptyString then Ok (Z.of_nat (length stages) - 1)%Z
  else match findStage stages target 0 with
       | Some i => Ok (Z.of_nat i)
       | None => Err "is not a valid target build stage"
       end.

(** resolveStagesArgs *)
Fixpoint resolveStagesArgs (stages : list Stage) (args : list string) : result (list Stage) :=
  match stages with
  | [] => Ok []
  | s :: r =>
      b <- ResolveEnvironmentReplacement (BaseName s) args ;;
      r' <- resolveStagesArgs r args ;;
      Ok ((if String.eqb (BaseName s) b then s else withBaseName s b) :: r')
  end.

(** baseImageIndex: the first stage before [currentStage] whose name is
    the lower-cased base name, or -1. *)
Fixpoint baseIndexFrom (name : string) (stages : list Stage) (i currentStage : nat) : Z :=
  match stages with
  | [] => (-1)%Z
  | s :: r =>
      if currentStage <=? i then (-1)%Z
      else if String.eqb (Name s) name then Z.of_nat i
      else baseIndexFrom name r (S i) currentStage
  end.

Definition baseImageIndex (currentStage : nat) (stages : list Stage) : Z :=
  baseIndexFrom (ToLower (BaseName (nth currentStage stages zeroStage))) stages 0 currentStage.

(** saveStage: some later stage names this one as its base. *)
Definition saveStage (index : nat) (stages : list Stage) : bool :=
  let currentStageName := Name (nth index stages zeroStage) in
  existsb (fun stageIndex =>
    let stage := nth stageIndex stages zeroStage in
    (index <? stageIndex)
    && String.eqb (ToLower (BaseName stage)) currentStageName
    && negb (String.eqb (BaseName stage) EmptyString))
    (seq 0 (length stages)).

(** The stageByName map: each non-empty name to its last index. *)
Fixpoint stageByNameFrom (stages : list Stage) (i : nat) (m : string -> option nat)
  : string -> option nat :=
  match stages with
  | [] => m
  | s :: r =>
      stageByNameFrom r (S i)
        (if String.eqb (Name s) EmptyString then m
         else fun k => if String.eqb k (Name s) then Some i else m k)
  end.

Definition stageByName (stages : list Stage) : string -> option nat :=
  stageByNameFrom stages 0 (fun _ => None).

(** getOnBuild and filterOnBuild *)
Fixpoint getOnBuild (cmds : list Command) : list string :=
  match cmds with
  | [] => []
  | OnbuildCommand e :: r => e :: getOnBuild r
  | _ :: r => getOnBuild r
  end.

Fixpoint filterOnBuild (cmds : list Command) : list Command :=
  match cmds with
  | [] => []
  | OnbuildCommand _ :: r => filterOnBuild r
  | c :: r => c :: filterOnBuild r
  end.

(** ParseCommands *)
Fixpoint joinLines (l : list string) : string :=
  match l with
  | [] => EmptyString
  | [x] => x
  | x :: r => (x ++ str1 (ascii_of_nat 10) ++ joinLines r)%string
  end.

Definition ParseCommands (cmdArray : list string) : result (list Command) :=
  match cmdArray with
  | [] => Ok []
  | _ => ParseCommandText (joinLines cmdArray)
  end.

(** The stage a COPY --from value refers to while counting: a number
    parsed by strconv.Atoi, else a stage name; [None] for an external
    image. A number is not checked against the number of stages. *)
Definition copyFromRef (byName : string -> option nat) (from : string) : option Z :=
  match Atoi from with
  | Some k => Some k
  | None => option_map Z.of_nat (byName (ToLower from))
  end.

Fixpoint countCopyRefs (byName : string -> option nat) (cmds : list Command)
  (copyDeps : list nat) : result (list nat) :=
  match cmds with
  | [] => Ok copyDeps
  | CopyCommand from _ :: r =>
      cd <- match copyFromRef byName from with
            | Some k => incr copyDeps k
            | None => Ok copyDeps
            end ;;
      countCopyRefs byName r cd
  | _ :: r => countCopyRefs byName r copyDeps
  end.

(** The three slices MakeKanikoStages fills in while it walks from the
    target stage down to stage 0. *)
Record PlanState : Type := mkPlan {
  kanikoStages : list KanikoStage;
  stagesDependencies : list nat;
  copyDependencies : list nat
}.

(** One iteration [i] of the downward loop. *)
Definition planStage (opts : KanikoOptions) (stages : list Stage)
  (metaArgs : list ArgCommand) (target : nat) (byName : string -> option nat)
  (i : nat) (st : PlanState) : result PlanState :=
  let sd := stagesDependencies st in
  let cd := copyDependencies st in
  if (nth i sd 0 =? 0) && (nth i cd 0 =? 0) && SkipUnusedStages opts then Ok st else
  let stage := nth i stages zeroStage in
  let bii := baseImageIndex i stages in
  onBuild <- (if String.eqb (BaseName stage) NoBaseImage then Ok []
              else if negb (bii =? -1)%Z
              then Ok (getOnBuild (Commands (nth (Z.to_nat bii) stages zeroStage)))
              else RetrieveRemoteOnBuild (BaseName stage)) ;;
  cmds <- ParseCommands onBuild ;;
  let stage := withCommands stage (cmds ++ Commands stage) in
  sd <- (if SkipUnusedStages opts && negb (bii =? -1)%Z then incr sd bii else Ok sd) ;;
  cd <- (if SkipUnusedStages opts then countCopyRefs byName (Commands stage) cd else Ok cd) ;;
  Ok (mkPlan
        (setNth (kanikoStages st) i
           (mkKStage stage bii (i =? target) (negb (bii =? -1)%Z)
              (saveStage i stages) metaArgs (Z.of_nat i)))
        sd cd).

(** for i := targetStage; i >= 0; i-- *)
Fixpoint planLoop (opts : KanikoOptions) (stages : list Stage)
  (metaArgs : list ArgCommand) (target : nat) (byName : string -> option nat)
  (n : nat) (st : PlanState) : result PlanState :=
  match n with
  | O => Ok st
  | S i =>
      st' <- planStage opts stages metaArgs target byName i st ;;
      planLoop opts stages metaArgs target byName i st'
  end.

(** squash: the base stage [a] merged into its single consumer [b]. *)
Definition squash (a b : KanikoStage) : KanikoStage :=
  let acmds := filterOnBuild (Commands (KStage a)) in
  mkKStage
    (mkStage (Name (KStage b)) (acmds ++ Commands (KStage b)) (BaseName (KStage a))
       (Platform (KStage a)) (OrigCmd (KStage a))
       (DocComment (KStage a) ++ DocComment (KStage b))
       (SourceCode (KStage a) ++ str1 (ascii_of_nat 10) ++ SourceCode (KStage b))
       (Location (KStage a) ++ Location (KStage b))
       (Comments (KStage a) ++ Comments (KStage b)))
    (BaseImageIndex a) (Final b) (BaseImageStoredLocally a) (SaveStage b)
    (MetaArgs a ++ MetaArgs b) (Index b).

(** Iteration [i] of the squash pass. The base index is only read when
    [BaseImageStoredLocally] holds, and then it is a stage index (>= 0). *)
Definition squashStep (i : nat) (st : PlanState) : PlanState :=
  let ks := kanikoStages st in
  let sd := stagesDependencies st in
  let cd := copyDependencies st in
  let s := nth i ks zeroKStage in
  let b := Z.to_nat (BaseImageIndex s) in
  if (0 <? nth i sd 0) && BaseImageStoredLocally s
     && (nth b sd 0 =? 1) && (nth b cd 0 =? 0)
  then mkPlan (setNth ks i (squash (nth b ks zeroKStage) s)) (setNth sd b 0) cd
  else st.

(** for i, s := range kanikoStages *)
Fixpoint squashFrom (n i : nat) (st : PlanState) : PlanState :=
  match n with
  | O => st
  | S n' => squashFrom n' (S i) (squashStep i st)
  end.

Definition squashPass (st : PlanState) : PlanState :=
  squashFrom (length (kanikoStages st)) 0 st.

(** The compaction into onlyUsedStages. *)
Fixpoint pruneFrom (i : nat) (ks : list KanikoStage) (sd cd : list nat) : list KanikoStage :=
  match ks with
  | [] => []
  | s :: r =>
      if (0 <? nth i sd 0) || (0 <? nth i cd 0)
      then withSaveStage s (0 <? nth i sd 0) :: pruneFrom (S i) r sd cd
      else pruneFrom (S i) r sd cd
  end.

Definition prune (st : PlanState) : list KanikoStage :=
  pruneFrom 0 (kanikoStages st) (stagesDependencies st) (copyDependencies st).

(** MakeKanikoStages up to the end of the counting loop: the target
    index, the truncated stages and the three slices. *)
Definition planCounts (opts : KanikoOptions) (stages : list Stage)
  (metaArgs : list ArgCommand) : result (nat * list Stage * PlanState) :=
  t <- targetStage stages (Target opts) ;;
  let args := unifyArgs metaArgs (BuildArgs opts) in
  stages <- resolveStagesArgs stages args ;;
  if (t <? 0)%Z then Panic "index out of range" else
  let target := Z.to_nat t in
  let stages := firstn (S target) stages in
  let n := length stages in
  let byName := stageByName stages in
  let st0 := mkPlan (repeat zeroKStage n) (setNth (repeat 0 n) target 1) (repeat 0 n) in
  st <- planLoop opts stages metaArgs target byName (S target) st0 ;;
  Ok (target, stages, st).

(** Whether the squash pass runs. *)
Definition squashEnabled (opts : KanikoOptions) : bool :=
  SkipUnusedStages opts && Config.EnvBoolDefault env "FF_KANIKO_SQUASH_STAGES" true.

Definition MakeKanikoStages (opts : KanikoOptions) (stages : list Stage)
  (metaArgs : list ArgCommand) : result (list KanikoStage) :=
  r <- planCounts opts stages metaArgs ;;
  let st := snd r in
  let st := if squashEnabled opts then squashPass st else st in
  if SkipUnusedStages opts then Ok (prune st) else Ok (kanikoStages st).

End Planner.
End Planner.

(** ** Reference counts read off a list of planned stages

    These are not part of the Go code: they name, for a stage index [b],
    how many planned stages use [b] as their locally stored base, and how
    many COPY --from instructions of planned stages resolve to [b] (with
    the resolution MakeKanikoStages uses while counting). *)
Module Counting.
Import Dockerfile Planner.

Definition refCmd (byName : string -> option nat) (c : Command) (b : nat) : bool :=
  match c with
  | CopyCommand from _ =>
      match copyFromRef byName from with
      | Some k => (k =? Z.of_nat b)%Z
      | None => false
      end
  | _ => false
  end.

Definition refsTo (byName : string -> option nat) (cmds : list Command) (b : nat) : nat :=
  length (filter (fun c => refCmd byName c b) cmds).

Definition usesBase (b : nat) (k : KanikoStage) : bool :=
  BaseImageStoredLocally k && (BaseImageIndex k =? Z.of_nat b)%Z.

Definition localBaseCount (ks : list KanikoStage) (b : nat) : nat :=
  length (filter (usesBase b) ks).

Definition copyRefCount (byName : string -> option nat) (ks : list KanikoStage) (b : nat) : nat :=
  list_sum (map (fun k => refsTo byName (Commands (KStage k)) b) ks).

(** Whether position [j] is kept by the final compaction. *)
Definition keep (st : PlanState) (j : nat) : bool :=
  (0 <? nth j (stagesDependencies st) 0) || (0 <? nth j (copyDependencies st) 0).

(** The condition under which the squash pass merges the base of stage
    [s] into [s], read on the counts before the pass. *)
Definition squashFires (st : PlanState) (s : nat) : bool :=
  let k := nth s (kanikoStages st) zeroKStage in
  let b := Z.to_nat (BaseImageIndex k) in
  (0 <? nth s (stagesDependencies st) 0) && BaseImageStoredLocally k
  && (nth b (stagesDependencies st) 0 =? 1) && (nth b (copyDependencies st) 0 =? 0).

(** The shape of an entry written by iteration [i] of the counting loop. *)
Definition entryOK (stages : list Stage) (i : nat) (k : KanikoStage) : Prop :=
  BaseImageIndex k = baseImageIndex i stages /\
  BaseImageStoredLocally k = negb (BaseImageIndex k =? -1)%Z /\
  SaveStage k = saveStage i stages.

(** The invariant of the counting loop once the iterations for the
    indices [m], [m+1], ..., [length stages - 1] have run. *)
Definition LoopInv (opts : KanikoOptions) (stages : list Stage) (t : nat)
  (byName : string -> option nat) (m : nat) (st : PlanState) : Prop :=
  let n := length stages in
  let ks := kanikoStages st in
  length ks = n /\ length (stagesDependencies st) = n /\ length (copyDependencies st) = n /\
  (forall i, i < m -> nth i ks zeroKStage = zeroKStage) /\
  (forall i, m <= i -> i < n ->
     nth i ks zeroKStage = zeroKStage \/ entryOK stages i (nth i ks zeroKStage)) /\
  (SkipUnusedStages opts = false -> forall i, m <= i -> i < n ->
     entryOK stages i (nth i ks zeroKStage)) /\
  (SkipUnusedStages opts = true -> forall b,
     nth b (stagesDependencies st) 0 = (if b =? t then 1 else 0) + localBaseCount ks b) /\
  (SkipUnusedStages opts = true -> forall b,
     nth b (copyDependencies st) 0 = copyRefCount byName ks b).

(** The base stage index the squash pass reads for a planned stage. *)
Definition baseOf (k : KanikoStage) : nat := Z.to_nat (BaseImageIndex k).

(** Whether, among the indices [l], some stage whose base is squashed
    into it has base [j]. *)
Definition squashedIn (st1 : PlanState) (l : list nat) (j : nat) : bool :=
  existsb (fun i' => squashFires st1 i' &&
             (baseOf (nth i' (kanikoStages st1) zeroKStage) =? j)) l.

(** The invariant of the squash pass after the iterations [0 .. i-1],
    relative to the state [st1] before the pass. *)
Definition PassInv (st1 : PlanState) (n i : nat) (st : PlanState) : Prop :=
  let ks1 := kanikoStages st1 in
  let ks := kanikoStages st in
  length ks = n /\ length (stagesDependencies st) = n /\
  copyDependencies st = copyDependencies st1 /\
  (forall j, i <= j -> nth j ks zeroKStage = nth j ks1 zeroKStage) /\
  (forall j, j < i -> nth j ks zeroKStage =
     if squashFires st1 j
     then squash (nth (baseOf (nth j ks1 zeroKStage)) ks zeroKStage) (nth j ks1 zeroKStage)
     else nth j ks1 zeroKStage) /\
  (forall j, nth j (stagesDependencies st) 0 =
     if squashedIn st1 (seq 0 i) j then 0 else nth j (stagesDependencies st1) 0).

End Counting.

(** ** Concrete inputs used by the witnesses and counterexamples *)
Module Examples.
Import Dockerfile Planner.

(** Stand-ins for the external calls: no registry access is needed for
    stages built FROM scratch or FROM an earlier stage, ONBUILD texts
    parse to nothing, build args are left as they are, and the
    environment is empty (so the squash flag has its default, true). *)
Definition noRemote : string -> result (list string) := fun _ => Err "no registry".
Definition noParse : string -> result (list Command) := fun _ => Ok [].
Definition noResolve : string -> list string -> result string := fun s _ => Ok s.
Definition noEnv : Config.Environ := fun _ => None.

Definition mkSt (name base : string) (cmds : list Command) : Stage :=
  mkStage name cmds base EmptyString EmptyString EmptyString EmptyString [] [].

(** Default options: last stage as target, skip-unused-stages on. *)
Definition defaultOpts : KanikoOptions := mkOpts EmptyString [] true.

Definition makeStages (opts : KanikoOptions) (stages : list Stage) :=
  MakeKanikoStages noRemote noParse noResolve noEnv opts stages [].

Definition counts (opts : KanikoOptions) (stages : list Stage) :=
  planCounts noRemote noParse noResolve opts stages [].

(** FROM scratch AS a / FROM scratch + COPY --from=a *)
Definition dfCopyByName : list Stage :=
  [mkSt "a" NoBaseImage []; mkSt EmptyString NoBaseImage [CopyCommand "a" "/x /x"]].

(** Three stages, the last one with COPY --from=9. *)
Definition dfCopyFrom9 : list Stage :=
  [mkSt "a" NoBaseImage []; mkSt "b" NoBaseImage [];
   mkSt EmptyString NoBaseImage [CopyCommand "9" "/x /x"]].

(** a FROM scratch / b FROM a / FROM scratch + COPY --from=b *)
Definition dfCopyConsumer : list Stage :=
  [mkSt "a" NoBaseImage [OtherCommand "RUN x"];
   mkSt "b" "a" [OtherCommand "RUN y"];
   mkSt EmptyString NoBaseImage [CopyCommand "b" "/x /x"]].

(** a FROM scratch / b FROM a / FROM b: a chain of single consumers. *)
Definition dfChain : list Stage :=
  [mkSt "a" NoBaseImage [OtherCommand "RUN x"];
   mkSt "b" "a" [OtherCommand "RUN y"];
   mkSt EmptyString "b" [OtherCommand "RUN z"]].

Definition chainState : nat * list Stage * PlanState :=
  match counts defaultOpts dfChain with
  | Ok r => r
  | _ => (0, [], mkPlan [] [] [])
  end.

(** A double quote, the letter a, a backslash and a double quote: an
    unescaped leading quote and an escaped trailing one. *)
Definition valQuoteEscapedTail : string :=
  String dquote (String "a"%char (String backslash (String dquote EmptyString))).

End Examples.

(** ** RUN: cache mounts, the directory swap and the exit status
    (pkg/commands/run.go, cmd/runner/main.go) *)
Module RunCmd.

(** Go errors as a chain: fmt.Errorf with %w wraps an error and keeps it
    reachable by errors.As; *exec.ExitError carries the exit code of a
    child process (-1 when it was killed by a signal). *)
Inductive GoError : Type :=
| ExitError (code : Z)
| Wrapped (msg : string) (inner : GoError)
| Plain (msg : string).

(** errors.As(err, &exitErr): the first *exec.ExitError of the chain. *)
Fixpoint errorsAsExitError (e : GoError) : option Z :=
  match e with
  | ExitError c => Some c
  | Wrapped _ inner => errorsAsExitError inner
  | Plain _ => None
  end.

(** The file system, one entry per directory path: [None] when nothing is
    there, else the tree below the path, which a rename moves as a whole.
    The directories a RUN swaps (a mount target, its cache directory and
    the swap directory) are distinct and not nested in one another. *)
Definition Content := list string.
Definition FS := string -> option Content.

Definition upd (fs : FS) (p : string) (v : option Content) : FS :=
  fun q => if String.eqb q p then v else fs q.

(** os.Rename of a directory on Linux: the source must exist, and an
    existing destination is refused (Go returns EEXIST when the new name
    is a directory, also when it is the old name itself). *)
Definition rename (fs : FS) (src dst : string) : option FS :=
  match fs src, fs dst with
  | Some c, None => Some (upd (upd fs dst (Some c)) src None)
  | _, _ => None
  end.

(** The operating-system calls that the model records. *)
Inductive Event : Type :=
| EvMkdirAll (p : string)
| EvRename (src dst : string)
| EvSpawn
| EvRemoveAll (p : string).

Record World : Type := mkWorld { fs : FS; log : list Event }.

Inductive outcome (A : Type) : Type :=
| Done : A -> outcome A
| Fail : GoError -> outcome A.
Arguments Done {A} _.
Arguments Fail {A} _.

(** Functions returning an error, run against the world. *)
Definition M (A : Type) : Type := World -> outcome A * World.

Definition ret {A} (a : A) : M A := fun w => (Done a, w).
Definition fail {A} (e : GoError) : M A := fun w => (Fail e, w).
Definition mbind {A B} (m : M A) (k : A -> M B) : M B :=
  fun w => match m w with
           | (Done a, w1) => k a w1
           | (Fail e, w1) => (Fail e, w1)
           end.
Notation "x <~ m ;; k" := (mbind m (fun x => k))
  (at level 61, m at next level, right associativity).

(** fmt.Errorf(msg + ": %w", err) around a call. *)
Definition wrapErr {A} (msg : string) (m : M A) : M A :=
  fun w => match m w with
           | (Fail e, w1) => (Fail (Wrapped msg e), w1)
           | r => r
           end.

(** defer func() { if err := d(); err != nil { reterr = err } }() around
    the rest [m] of the function. *)
Definition deferM (d : M unit) (m : M unit) : M unit :=
  fun w => let '(r, w1) := m w in
           let '(r2, w2) := d w1 in
           (match r2 with Fail e => Fail e | Done _ => r end, w2).

Section Run.
(** filepath.Dir, filepath.Clean, filepath.Join, and the lower-case hex
    encoding of the SHA-256 sum. *)
Variable dirOf : string -> string.
(** When os.MkdirAll(p) fails on a tree (a permission problem, or a file
    in the way, which the tree of directories does not show): the message
    of its *PathError and the tree it leaves, with the parents it created
    before failing. *)
Variable mkdirAllFails : FS -> string -> option (string * FS).
Variable clean : string -> string.
Variable join : string -> string -> string.
Variable sha256hex : string -> string.
(** config.KanikoCacheDir and config.KanikoSwapDir. *)
Variable KanikoCacheDir KanikoSwapDir : string.
(** The RUN child: what it leaves on the file system, and how it ends. *)
Inductive ChildResult : Type :=
| StartFailed (msg : string)
| Exited (code : Z)
| Signaled.
Variable runChild : FS -> ChildResult * FS.

(** os.MkdirAll: the directory and its missing parents. filepath.Dir
    shortens a path until the root, so the length bounds the walk. *)
Fixpoint mkdirAllFrom (fuel : nat) (fs : FS) (p : string) : FS :=
  match fuel with
  | O => fs
  | S f => match fs p with
           | Some _ => fs
           | None => upd (mkdirAllFrom f fs (dirOf p)) p (Some [])
           end
  end.

Definition mkdirAll (fs : FS) (p : string) : FS := mkdirAllFrom (S (String.length p)) fs p.

Definition osMkdirAll (p : string) : M unit :=
  fun w => let lg := log w ++ [EvMkdirAll p] in
           match mkdirAllFails (fs w) p with
           | Some (msg, fs') => (Fail (Plain msg), mkWorld fs' lg)
           | None => (Done tt, mkWorld (mkdirAll (fs w) p) lg)
           end.

Definition osRename (src dst : string) : M unit :=
  fun w => let w' := log w ++ [EvRename src dst] in
           match rename (fs w) src dst with
           | Some fs' => (Done tt, mkWorld fs' w')
           | None => (Fail (Plain "rename"), mkWorld (fs w) w')
           end.

Definition osRemoveAll (p : string) : M unit :=
  fun w => (Done tt,
            mkWorld (fun q => if String.eqb q p || String.prefix (p ++ "/") q then None
                              else fs w q)
                    (log w ++ [EvRemoveAll p])).

Definition swapDir (pathA pathB : string) : M unit :=
  if String.eqb pathA EmptyString || String.eqb pathB EmptyString
  then fail (Plain "paths must not be empty") else
  let tmp := KanikoSwapDir in
  _ <~ wrapErr "failed to rename (1)" (osRename pathA tmp) ;;
  _ <~ wrapErr "failed to rename (2)" (osRename pathB pathA) ;;
  wrapErr "failed to rename (3)" (osRename tmp pathB).

(** ensureDir: the outermost missing directory on the way up from the
    target (empty when the target exists), which MkdirAll then creates;
    MkdirAll's error is returned (with an empty path, which the caller
    does not read). *)
Fixpoint firstMissing (fuel : nat) (fs : FS) (curr firstCreated : string) : string :=
  match fuel with
  | O => firstCreated
  | S f => match fs curr with
           | Some _ => firstCreated
           | None => firstMissing f fs (dirOf curr) curr
           end
  end.

Definition ensureDir (target : string) : M string :=
  fun w =>
    let firstCreated := firstMissing (S (String.length target)) (fs w) target EmptyString in
    if String.eqb firstCreated EmptyString then (Done EmptyString, w)
    else (_ <~ osMkdirAll target ;; ret firstCreated) w.

(** runCommandInExec from cmd.Start on: a failed start, a failed wait
    (the child exited non-zero or was killed), or success. The model
    leaves out the failures of Getpgid and of the final Kill of the
    process group. *)
Definition execOutcome (c : ChildResult) : outcome unit :=
  match c with
  | StartFailed m => Fail (Wrapped "starting command" (Plain m))
  | Exited 0 => Done tt
  | Exited k => Fail (Wrapped "waiting for process to exit" (ExitError k))
  | Signaled => Fail (Wrapped "waiting for process to exit" (ExitError (-1)))
  end.

Definition runCommandInExec : M unit :=
  fun w => let '(c, fs') := runChild (fs w) in
           (execOutcome c, mkWorld fs' (log w ++ [EvSpawn])).

(** instructions.Mount: its type and its target. *)
Inductive MountType : Type :=
| MountTypeBind
| MountTypeCache
| MountTypeTmpfs
| MountTypeSecret
| MountTypeSSH.

Record Mount : Type := mkMount { MountKind : MountType; MountTarget : string }.

Definition isCacheMount (m : Mount) : bool :=
  match MountKind m with MountTypeCache => true | _ => false end.

(** The targets of the type=cache mounts, in order. *)
Definition cacheTargets (mounts : list Mount) : list string :=
  map MountTarget (filter isCacheMount mounts).

(** The cache directory of a mount target. *)
Definition cacheDirFor (target : string) : string :=
  join KanikoCacheDir (sha256hex (clean target)).

(** The mount loop of runCommandWithFlags, run when the cache-mount
    feature is on and the flags expanded: the targets of the RUN's
    type=cache mounts in order (other mount types are only warned about),
    then runCommandInExec. The deferred calls of every mount run when the
    function returns, the last registered first. *)
Fixpoint cacheMountLoop (targets : list string) : M unit :=
  match targets with
  | [] => runCommandInExec
  | target :: rest =>
      let cacheDir := cacheDirFor target in
      _ <~ osMkdirAll cacheDir ;;
      created <~ ensureDir target ;;
      (if String.eqb created EmptyString then fun m => m else deferM (osRemoveAll created))
        (_ <~ swapDir cacheDir target ;;
         deferM (swapDir target cacheDir) (cacheMountLoop rest))
  end.

(** runCommandWithFlags. [env] is the builder's environment, read by
    config.EnvBoolDefault; [FlagsUsed] the RUN's flags; [expandErr] the
    error of cmdRun.Expand, if any (an error of
    util.ResolveEnvironmentReplacement); [mounts] what
    instructions.GetMounts returns after the expansion. The warnings are
    left out. *)
Definition runCommandWithFlags (env : Config.Environ) (FlagsUsed : list string)
    (expandErr : option string) (mounts : list Mount) : M unit :=
  let ff_cache := Config.EnvBoolDefault env "FF_KANIKO_RUN_MOUNT_CACHE" true in
  if ff_cache && negb (Nat.eqb (length FlagsUsed) 0) then
    match expandErr with
    | Some msg => fail (Plain msg)
    | None => cacheMountLoop (cacheTargets mounts)
    end
  else runCommandInExec.

End Run.





End RunCmd.

(** ** A RUN with one cache mount *)
Module RunExamples.
Import RunCmd.

Definition exDirOf (p : string) : string := "/".
(** os.MkdirAll never fails. *)
Definition exMkdirOk (f : FS) (p : string) : option (string * FS) := None.
Definition exClean (p : string) : string := p.
Definition exJoin (a b : string) : string := a ++ b.
Definition exSha (p : string) : string := "5f70".
Definition exCacheRoot : string := "/kaniko/caches/".
Definition exSwap : string := "/kaniko/swap/".
Definition exTarget : string := "/cache".
Definition exCacheDir : string := cacheDirFor exClean exJoin exSha exCacheRoot exTarget.
(** RUN --mount=type=cache,target=/cache, in an environment that leaves
    FF_KANIKO_RUN_MOUNT_CACHE unset (so on), or sets it to false. *)
Definition exMounts : list Mount := [mkMount MountTypeCache exTarget].
Definition exEnv : Config.Environ := fun _ => None.

(** The root and the target exist; the target holds an old file. *)
Definition exFS : FS :=
  fun q => if String.eqb q "/" then Some [] else
           if String.eqb q exTarget then Some ["old"] else None.
Definition exWorld : World := mkWorld exFS [].

(** A child that writes into the target and exits with [code]. *)
Definition exChild (code : Z) (f : FS) : ChildResult * FS :=
  (Exited code, upd f exTarget (Some ["built"])).

End RunExamples.

(** ** The cache warmer: Warmer.Warm (pkg/warmer) *)
Module Warmer.

(** name.ParseReference: a reference by digest or by tag. *)
Inductive Ref : Type :=
| RefDigest (digest : string)
| RefTag (tag : string).

(** The result of a local cache lookup (cache.LocalSource): the image, an
    expired entry (cache.IsExpired), or another error, a miss among them. *)
Inductive LocalResult : Type :=
| LHit
| LExpired
| LNotFound
| LOther (msg : string).

(** err == nil || cache.IsExpired(err) *)
Definition isCached (r : LocalResult) : bool :=
  match r with
  | LHit | LExpired => true
  | _ => false
  end.

(** The remote image: its digest and raw manifest, [None] when
    img.Digest() or img.RawManifest() fails. *)
Record RemoteImage : Type := mkRemoteImage {
  imgDigest : option string;
  imgManifest : option string
}.

Inductive WarmResult : Type :=
| AlreadyCached
| WarmErr (msg : string)
| WarmOk (digest : string).

(** The calls Warm makes, in order. *)
Inductive WEvent : Type :=
| LocalLookup (key : string)
| RemoteLookup (image : string)
| TarWrite
| ManifestWrite.

Record WarmerOptions : Type := mkWarmerOptions { Force : bool }.

Section Warm.
Variable parseReference : string -> option Ref.
(** w.Local and w.Remote; [None] from Remote for an error or a nil image. *)
Variable Local : string -> LocalResult.
Variable Remote : string -> option RemoteImage.
(** tarball.Write and w.ManifestWriter.Write: [true] on success. *)
Variable tarWrite : Ref -> RemoteImage -> bool.
Variable manifestWrite : string -> bool.

(** The end of Warm: the image is written out and its digest returned. *)
Definition writeImage (ref : Ref) (img : RemoteImage) (digest : string)
    : WarmResult * list WEvent :=
  if negb (tarWrite ref img) then (WarmErr "failed to write to tar buffer", [TarWrite]) else
  match imgManifest img with
  | None => (WarmErr "failed to retrieve manifest", [TarWrite])
  | Some mfst =>
      if negb (manifestWrite mfst)
      then (WarmErr "failed to save manifest to buffer", [TarWrite; ManifestWrite])
      else (WarmOk digest, [TarWrite; ManifestWrite])
  end.

Definition Warm (image : string) (opts : WarmerOptions) : WarmResult * list WEvent :=
  match parseReference image with
  | None => (WarmErr "failed to verify image name", [])
  | Some cacheRef =>
      (* the lookup by the digest of the reference: an early answer, or
         the key and the error of the miss *)
      let '(early, oldKey, oldErr, tr1) :=
        if negb (Force opts) then
          match cacheRef with
          | RefDigest cacheKey =>
              let r := Local cacheKey in
              if isCached r then (Some AlreadyCached, EmptyString, r, [LocalLookup cacheKey])
              else (None, cacheKey, r, [LocalLookup cacheKey])
          | RefTag _ => (None, EmptyString, LHit, [])
          end
        else (None, EmptyString, LHit, []) in
      match early with
      | Some res => (res, tr1)
      | None =>
          let tr2 := tr1 ++ [RemoteLookup image] in
          match Remote image with
          | None => (WarmErr "failed to retrieve image", tr2)
          | Some img =>
              match imgDigest img with
              | None => (WarmErr "failed to retrieve digest", tr2)
              | Some digest =>
                  let '(err, tr3) :=
                    if negb (Force opts) then
                      if negb (String.eqb oldKey EmptyString) && String.eqb digest oldKey
                      then (oldErr, tr2)
                      else (Local digest, tr2 ++ [LocalLookup digest])
                    else (LNotFound, tr2) in
                  if negb (Force opts) && isCached err then (AlreadyCached, tr3)
                  else let '(res, tr4) := writeImage cacheRef img digest in (res, tr3 ++ tr4)
              end
          end
      end
  end.

End Warm.

End Warmer.

(** ** A warmer example *)
Module WarmExamples.
Import Warmer.

Definition exParse (image : string) : option Ref := Some (RefDigest "sha256:aaaa").
(** Only the manifest digest sha256:aaaa is cached. *)
Definition exLocal (key : string) : LocalResult :=
  if String.eqb key "sha256:aaaa" then LHit else LNotFound.
Definition exRemote (image : string) : option RemoteImage :=
  Some (mkRemoteImage (Some "sha256:aaaa") (Some "{}")).
Definition exTar (r : Ref) (i : RemoteImage) : bool := true.
Definition exManifestWrite (m : string) : bool := true.
Definition exImage : string := "reg.example/app@sha256:aaaa".

End WarmExamples.

(** ** pkg/dockerfile: the helpers around MakeKanikoStages *)
Module DockerfileMore.
Import Dockerfile Planner.

(** strconv.Itoa for a non-negative int (a stage index): the decimal
    digits, most significant first. The fuel [S n] bounds the divisions. *)
Fixpoint itoaAux (fuel n : nat) (acc : string) : string :=
  match fuel with
  | O => acc
  | S f =>
      let acc' := String (ascii_of_nat (48 + n mod 10)) acc in
      if n <? 10 then acc' else itoaAux f (n / 10) acc'
  end.

Definition Itoa (n : nat) : string := itoaAux (S n) n EmptyString.

(** ResolveCrossStageCommands: a COPY --from naming a stage of the map
    (case-insensitively) gets the stage's index instead. Go updates the
    commands in place; the list returned here holds the updated ones. *)
Definition resolveCrossStageCmd (stageNameToIdx : string -> option nat) (c : Command) : Command :=
  match c with
  | CopyCommand from rest =>
      if String.eqb from EmptyString then c
      else match stageNameToIdx (ToLower from) with
           | Some v => CopyCommand (Itoa v) rest
           | None => c
           end
  | _ => c
  end.

Definition ResolveCrossStageCommands (cmds : list Command)
    (stageNameToIdx : string -> option nat) : list Command :=
  map (resolveCrossStageCmd stageNameToIdx) cmds.

(** stripEnclosingQuotes: extractValFromQuotes on every value that is
    set, stopping at the first error. *)
Fixpoint stripArgs (args : list KeyValuePairOptional) : result (list KeyValuePairOptional) :=
  match args with
  | [] => Ok []
  | arg :: r =>
      arg' <- match Value arg with
              | Some v => val <- extractValFromQuotes v ;; Ok (mkKV (Key arg) (Some val))
              | None => Ok arg
              end ;;
      r' <- stripArgs r ;;
      Ok (arg' :: r')
  end.

Fixpoint stripEnclosingQuotes (metaArgs : list ArgCommand) : result (list ArgCommand) :=
  match metaArgs with
  | [] => Ok []
  | marg :: r =>
      args <- stripArgs (Args marg) ;;
      r' <- stripEnclosingQuotes r ;;
      Ok (mkArg args :: r')
  end.

Definition isOnbuild (c : Command) : bool :=
  match c with OnbuildCommand _ => true | _ => false end.

End DockerfileMore.

(** ** pkg/executor/fakes.go: the base image of a stage *)
Module Sources.
Import Config Dockerfile Warmer.

(** The image a lookup hands back: the empty image (FROM scratch), the
    tarball or OCI layout saved by an earlier stage, an image of the local
    cache under its key, or the image fetched from the registry. *)
Inductive Image : Type :=
| EmptyImage
| TarballImage (index : Z)
| OciImage (index : Z)
| CachedImage (key : string)
| RemoteImg (image : string) (img : RemoteImage).

(** Why cachedImage returned no image: name.ParseReference failed, a local
    lookup failed (a miss, an expired entry or another error), the remote
    lookup failed, or img.Digest() failed. *)
Inductive CacheErr : Type :=
| ParseErr
| LocalErr (r : LocalResult)
| RemoteErr
| DigestErr.

(** The fields of config.KanikoOptions that RetrieveSourceImage reads
    (opts.BuildArgs is called SrcBuildArgs here). *)
Record SourceOptions : Type := mkSourceOptions {
  Cache : bool;
  CacheDir : string;
  SrcBuildArgs : list string
}.

(** KeyValuePairOptional.ValueString: the value, or the empty string. *)
Definition ValueString (arg : KeyValuePairOptional) : string :=
  match Value arg with Some v => v | None => EmptyString end.

Section Sources.
Variable parseReference : string -> option Ref.
(** cache.LocalSource and remote.RetrieveRemoteImage ([None]: an error). *)
Variable Local : string -> LocalResult.
Variable Remote : string -> option RemoteImage.
(** util.ResolveEnvironmentReplacement(value, envs, false). *)
Variable resolveEnv : string -> list string -> result string.
Variable env : Environ.
(** tarballImage and ociImage: the image saved by the stage of an index. *)
Variable tarballImage : Z -> result Image.
Variable ociImage : Z -> result Image.

Definition cachedImage (image : string) : (Image + CacheErr) * list WEvent :=
  match parseReference image with
  | None => (inr ParseErr, [])
  | Some ref =>
      (* the lookup by the digest of the reference: an early answer, or
         the key and the error of the miss *)
      let '(early, oldKey, oldErr, tr1) :=
        match ref with
        | RefDigest cacheKey =>
            match Local cacheKey with
            | LHit => (Some (inl (CachedImage cacheKey)), EmptyString, LHit, [LocalLookup cacheKey])
            | LNotFound => (None, cacheKey, LNotFound, [LocalLookup cacheKey])
            | r => (Some (inr (LocalErr r)), EmptyString, LHit, [LocalLookup cacheKey])
            end
        | RefTag _ => (None, EmptyString, LHit, [])
        end in
      match early with
      | Some res => (res, tr1)
      | None =>
          let tr2 := tr1 ++ [RemoteLookup image] in
          match Remote image with
          | None => (inr RemoteErr, tr2)
          | Some img =>
              match imgDigest img with
              | None => (inr DigestErr, tr2)
              | Some cacheKey =>
                  if negb (String.eqb oldKey EmptyString) && String.eqb cacheKey oldKey
                  then (inr (LocalErr oldErr), tr2)
                  else (match Local cacheKey with
                        | LHit => inl (CachedImage cacheKey)
                        | r => inr (LocalErr r)
                        end, tr2 ++ [LocalLookup cacheKey])
              end
          end
      end
  end.

(** The KEY=VALUE build args made of the stage's meta args. *)
Definition metaBuildArgs (metaArgs : list ArgCommand) : list string :=
  flat_map (fun marg =>
    map (fun arg => (Key arg ++ str1 equals ++ ValueString arg)%string) (Args marg)) metaArgs.

Definition RetrieveSourceImage (stage : KanikoStage) (opts : SourceOptions)
    : result Image * list WEvent :=
  let buildArgs := metaBuildArgs (MetaArgs stage) ++ SrcBuildArgs opts in
  match resolveEnv (BaseName (KStage stage)) buildArgs with
  | Err e => (Err e, [])
  | Panic m => (Panic m, [])
  | Ok currentBaseName =>
      if String.eqb currentBaseName NoBaseImage then (Ok EmptyImage, [])
      else if BaseImageStoredLocally stage then
        (if EnvBool env "FF_KANIKO_OCI_STAGES"
         then ociImage (BaseImageIndex stage)
         else tarballImage (BaseImageIndex stage), [])
      else
        (* a cache error is only logged *)
        let '(hit, tr) :=
          if Cache opts && negb (String.eqb (CacheDir opts) EmptyString) then
            match cachedImage currentBaseName with
            | (inl img, tr) => (Some img, tr)
            | (inr _, tr) => (None, tr)
            end
          else (None, []) in
        match hit with
        | Some img => (Ok img, tr)
        | None =>
            (match Remote currentBaseName with
             | Some img => Ok (RemoteImg currentBaseName img)
             | None => Err "failed to retrieve remote image"
             end, tr ++ [RemoteLookup currentBaseName])
        end
  end.

End Sources.

End Sources.

(** ** The environment of a RUN child: addDefaultHOME *)
Module RunMore.
Import GoStrings.

Section Home.
(** constants.HOME, constants.RootUser and constants.DefaultHOMEValue. *)
Variable HOME RootUser DefaultHOMEValue : string.
(** userLookup (util.LookupUser): the user's home directory, [None] on
    an error. *)
Variable userLookup : string -> option string.

(** The key of a KEY=VALUE entry: strings.SplitN(env, "=", 2)[0]. *)
Definition envKey (env : string) : string := hd EmptyString (SplitN2 equals env).

Definition addDefaultHOME (u : string) (envs : list string) : result (list string) :=
  if existsb (fun env => String.eqb (envKey env) HOME) envs then Ok envs
  else if String.eqb u EmptyString || String.eqb u RootUser
  then Ok (envs ++ [(HOME ++ str1 equals ++ DefaultHOMEValue)%string])
  else match userLookup u with
       | None => Err ("lookup user " ++ u)
       | Some home => Ok (envs ++ [(HOME ++ str1 equals ++ home)%string])
       end.

End Home.

End RunMore.

(** ** More RUN examples *)
Module RunMoreExamples.
Import RunCmd RunExamples.

(** The swap directory still holds what an earlier failed swap left. *)
Definition exWorldBusy : World := mkWorld (upd exFS exSwap (Some ["stale"])) [].
(** A child that removes the mount target and exits with [code]. *)
Definition exChildRm (code : Z) (f : FS) : ChildResult * FS := (Exited code, upd f exTarget None).
(** A user with a home directory. *)
Definition exUserLookup (u : string) : option string :=
  if String.eqb u "app" then Some "/home/app" else None.

End RunMoreExamples.

(** ** Base image examples *)
Module SourceExamples.
Import Config Dockerfile Warmer Sources WarmExamples.

(** The expired-entry example: every local lookup finds an expired entry. *)
Definition exLocalExpired (key : string) : LocalResult := LExpired.
Definition exResolve (s : string) (args : list string) : result string := Ok s.
Definition exEnv : Environ := fun _ => None.
Definition exTarball (i : Z) : result Image := Ok (TarballImage i).
Definition exOci (i : Z) : result Image := Ok (OciImage i).
Definition exStage : KanikoStage :=
  mkKStage (withBaseName zeroStage exImage) (-1) false false false [] 0.
Definition exSourceOpts : SourceOptions := mkSourceOptions true "/cache" [].

End SourceExamples.

(** ** pkg/warmer: WarmCache, OciWarmer.Warm and ParseDockerfile *)
Module WarmerMore.
Import Config Dockerfile Warmer Sources.

(** The calls OciWarmer.Warm makes: the lookups, then layout.Write and
    AppendImage. *)
Inductive OciStep : Type :=
| OciLookup (e : WEvent)
| LayoutWrite
| AppendImage.

Section OciWarm.
Variable parseReference : string -> option Ref.
Variable Local : string -> LocalResult.
Variable Remote : string -> option RemoteImage.
(** layout.Write(w.TmpDir, empty.Index) and p.AppendImage: [true] on
    success. *)
Variable layoutWrite : bool.
Variable appendImage : Ref -> RemoteImage -> bool.

Definition ociWriteImage (ref : Ref) (img : RemoteImage) (digest : string)
    : WarmResult * list OciStep :=
  if negb layoutWrite then (WarmErr "failed to create ocilayout", [LayoutWrite]) else
  if negb (appendImage ref img)
  then (WarmErr "failed to append image to ocilayout", [LayoutWrite; AppendImage])
  else (WarmOk digest, [LayoutWrite; AppendImage]).

Definition OciWarm (image : string) (opts : WarmerOptions) : WarmResult * list OciStep :=
  match parseReference image with
  | None => (WarmErr "failed to verify image name", [])
  | Some cacheRef =>
      let '(early, oldKey, oldErr, tr1) :=
        if negb (Force opts) then
          match cacheRef with
          | RefDigest cacheKey =>
              let r := Local cacheKey in
              if isCached r then (Some AlreadyCached, EmptyString, r, [OciLookup (LocalLookup cacheKey)])
              else (None, cacheKey, r, [OciLookup (LocalLookup cacheKey)])
          | RefTag _ => (None, EmptyString, LHit, [])
          end
        else (None, EmptyString, LHit, []) in
      match early with
      | Some res => (res, tr1)
      | None =>
          let tr2 := tr1 ++ [OciLookup (RemoteLookup image)] in
          match Remote image with
          | None => (WarmErr "failed to retrieve image", tr2)
          | Some img =>
              match imgDigest img with
              | None => (WarmErr "failed to retrieve digest", tr2)
              | Some digest =>
                  let '(err, tr3) :=
                    if negb (Force opts) then
                      if negb (String.eqb oldKey EmptyString) && String.eqb digest oldKey
                      then (oldErr, tr2)
                      else (Local digest, tr2 ++ [OciLookup (LocalLookup digest)])
                    else (LNotFound, tr2) in
                  if negb (Force opts) && isCached err then (AlreadyCached, tr3)
                  else let '(res, tr4) := ociWriteImage cacheRef img digest in (res, tr3 ++ tr4)
              end
          end
      end
  end.

End OciWarm.

(** WarmCache. [parseDockerfile] is the outcome of ParseDockerfile, and
    [warmToFile] and [ociWarmToFile] tell whether warming an image
    returned nil (an image already in the cache counts as warmed). *)
Definition WarmCache (env : Environ) (DockerfilePath : string)
    (parseDockerfile : result (list string))
    (warmToFile ociWarmToFile : string -> bool) (Images : list string) : result unit :=
  dockerfileImages <-
    (if String.eqb DockerfilePath EmptyString then Ok []
     else match parseDockerfile with
          | Ok l => Ok l
          | Err e => Err ("failed to parse Dockerfile: " ++ e)
          | Panic m => Panic m
          end) ;;
  let images := Images ++ dockerfileImages in
  let warm := if EnvBool env "FF_KANIKO_OCI_WARMER" then ociWarmToFile else warmToFile in
  let errs := length (filter (fun img => negb (warm img)) images) in
  if length images =? errs then Err "failed to warm any of the given images" else Ok tt.

Section ParseDockerfile.
(** util.ResolveEnvironmentReplacement(value, envs, false). *)
Variable resolveEnv : string -> list string -> result string.

(** The loop over the stages: [prev] holds the stages before the current
    one. A base name naming an earlier stage, or already listed, is
    skipped. *)
Fixpoint baseNamesLoop (args : list string) (prev stages : list Stage)
    (baseNames : list string) : result (list string) :=
  match stages with
  | [] => Ok baseNames
  | s :: r =>
      match resolveEnv (BaseName s) args with
      | Err e => Err ("resolving base name " ++ BaseName s ++ ": " ++ e)
      | Panic m => Panic m
      | Ok resolvedBaseName =>
          if existsb (fun t => String.eqb (Name t) resolvedBaseName) prev
          then baseNamesLoop args (prev ++ [s]) r baseNames
          else if existsb (fun x => String.eqb x resolvedBaseName) baseNames
          then baseNamesLoop args (prev ++ [s]) r baseNames
          else baseNamesLoop args (prev ++ [s]) r (baseNames ++ [resolvedBaseName])
      end
  end.

(** ParseDockerfile from the parsed Dockerfile on. [parsed] is the
    outcome of reading the file and of dockerfile.Parse, its error
    already carrying Go's message ("reading dockerfile at path ..." or
    "parsing dockerfile: ..."). *)
Definition ParseDockerfile (parsed : result (list Stage * list ArgCommand))
    (BuildArgs : list string) : result (list string) :=
  match parsed with
  | Err e => Err e
  | Panic m => Panic m
  | Ok (stages, metaArgs) =>
      let args := BuildArgs ++ metaBuildArgs metaArgs in
      baseNamesLoop args [] stages []
  end.

End ParseDockerfile.

End WarmerMore.

(** ** pkg/config: KanikoGitOptions.String and Set *)
Module ConfigMore.
Import DockerfileMore.

(** config.KanikoGitOptions; Depth is a Go int (64 bits). *)
Record KanikoGitOptions : Type := mkGitOptions {
  Branch : string;
  SingleBranch : bool;
  Depth : Z;
  RecurseSubmodules : bool;
  InsecureSkipTLS : bool
}.

(** The errors KanikoGitOptions.Set returns: ErrInvalidGitFlag wrapped
    with the flag, and the strconv errors of ParseBool and ParseInt for
    the value. *)
Inductive GitOptionsError : Type :=
| ErrInvalidGitFlag (s : string)
| ErrParseBool (v : string)
| ErrParseInt (v : string).

(** fmt's %t. *)
Definition FormatBool (b : bool) : string := if b then "true" else "false".

(** fmt's %d for an int. *)
Definition FormatInt (z : Z) : string :=
  if (z <? 0)%Z then "-" ++ Itoa (Z.to_nat (- z)) else Itoa (Z.to_nat z).

(** strconv.ParseInt(s, 10, strconv.IntSize) with a 64-bit int accepts
    the strings strconv.Atoi accepts, with the same value. *)
Definition ParseInt10 (s : string) : option Z := Atoi s.

(** KanikoGitOptions.String. *)
Definition gitOptionsString (k : KanikoGitOptions) : string :=
  "branch=" ++ Branch k ++ ",single-branch=" ++ FormatBool (SingleBranch k) ++
  ",depth=" ++ FormatInt (Depth k) ++
  ",recurse-submodules=" ++ FormatBool (RecurseSubmodules k) ++
  ",insecure-skip-tls=" ++ FormatBool (InsecureSkipTLS k).

(** KanikoGitOptions.Set on the receiver [k]: the error returned and the
    value of [*k] after the call. *)
Definition gitOptionsSet (k : KanikoGitOptions) (s : string)
    : option GitOptionsError * KanikoGitOptions :=
  match SplitN2 equals s with
  | [key; v] =>
      if String.eqb key "branch" then
        (None, mkGitOptions v (SingleBranch k) (Depth k) (RecurseSubmodules k) (InsecureSkipTLS k))
      else if String.eqb key "single-branch" then
        match ParseBool v with
        | None => (Some (ErrParseBool v), k)
        | Some b => (None, mkGitOptions (Branch k) b (Depth k) (RecurseSubmodules k) (InsecureSkipTLS k))
        end
      else if String.eqb key "depth" then
        match ParseInt10 v with
        | None => (Some (ErrParseInt v), k)
        | Some d => (None, mkGitOptions (Branch k) (SingleBranch k) d (RecurseSubmodules k) (InsecureSkipTLS k))
        end
      else if String.eqb key "recurse-submodules" then
        match ParseBool v with
        | None => (Some (ErrParseBool v), k)
        | Some b => (None, mkGitOptions (Branch k) (SingleBranch k) (Depth k) b (InsecureSkipTLS k))
        end
      else if String.eqb key "insecure-skip-tls" then
        match ParseBool v with
        | None => (Some (ErrParseBool v), k)
        | Some b => (None, mkGitOptions (Branch k) (SingleBranch k) (Depth k) (RecurseSubmodules k) b)
        end
      else (None, k)
  | _ => (Some (ErrInvalidGitFlag s), k)
  end.

(** Set called on each value in turn, stopping at the first error. *)
Definition gitOptionsSetAll (k : KanikoGitOptions) (vals : list string)
    : option GitOptionsError * KanikoGitOptions :=
  fold_left (fun acc v => match acc with
                         | (None, k') => gitOptionsSet k' v
                         | e => e
                         end) vals (None, k).

(** ',' and the test that a string has no byte [c]. *)
Definition comma : ascii := ascii_of_nat 44.

Definition noChar (c : ascii) (s : string) : bool :=
  forallb (fun d => negb (Ascii.eqb d c)) (list_ascii_of_string s).

End ConfigMore.

(** ** pkg/dockerfile: expandNestedArgs; cmd/runner: landlock_rootfs *)
Module NestedArgs.
Import Dockerfile.

Section ExpandNestedArgs.
(** util.ResolveEnvironmentReplacement(value, envs, false). *)
Variable resolveEnv : string -> list string -> result string.
Variable buildArgs : list string.

(** The inner loop over one ARG command's pairs; [prevArgs] holds the
    "key=value" entries resolved so far. *)
Fixpoint expandPairs (prevArgs : list string) (args : list KeyValuePairOptional)
    : result (list KeyValuePairOptional * list string) :=
  match args with
  | [] => Ok ([], prevArgs)
  | arg :: r =>
      match Value arg with
      | None =>
          res <- expandPairs prevArgs r ;;
          let '(r', prev') := res in Ok (arg :: r', prev')
      | Some v =>
          val <- resolveEnv v (prevArgs ++ buildArgs) ;;
          res <- expandPairs (prevArgs ++ [(Key arg ++ "=" ++ val)%string]) r ;;
          let '(r', prev') := res in Ok (mkKV (Key arg) (Some val) :: r', prev')
      end
  end.

Fixpoint expandLoop (prevArgs : list string) (metaArgs : list ArgCommand)
    : result (list ArgCommand) :=
  match metaArgs with
  | [] => Ok []
  | marg :: r =>
      res <- expandPairs prevArgs (Args marg) ;;
      let '(args', prev') := res in
      r' <- expandLoop prev' r ;;
      Ok (mkArg args' :: r')
  end.

(** expandNestedArgs: the values are rewritten in place in the slice it
    returns. *)
Definition expandNestedArgs (metaArgs : list ArgCommand) : result (list ArgCommand) :=
  expandLoop [] metaArgs.

End ExpandNestedArgs.

End NestedArgs.

Module Runner.

(** os.DirEntry: its name and IsDir, the type of the entry itself (a
    symbolic link to a directory is not a directory). *)
Record DirEntry : Type := mkDirEntry { EntryName : string; EntryIsDir : bool }.

(** The loop of landlock_rootfs over the entries of "/". *)
Fixpoint landlockPaths (entries : list DirEntry) : list string :=
  match entries with
  | [] => []
  | x :: r =>
      let name := ("/" ++ EntryName x)%string in
      if String.eqb name "/kaniko" || String.eqb name "/workspace" || String.eqb name "/busybox"
      then landlockPaths r
      else if EntryIsDir x then name :: landlockPaths r
      else landlockPaths r
  end.

(** landlock_rootfs: [readDir] is os.ReadDir("/") and [restrictPaths]
    the landlock.V5.BestEffort().RestrictPaths(landlock.RWDirs(...))
    call on the paths it is given. *)
Definition landlock_rootfs (readDir : result (list DirEntry))
    (restrictPaths : list string -> result unit) : result unit :=
  entries <- readDir ;;
  restrictPaths (landlockPaths entries).

End Runner.

(** A resolver that replaces a value "$K" by the value of the first
    "K=..." entry, and two ARG lines, the second using the first. *)
Module NestedArgsExamples.
Import Dockerfile NestedArgs.

Fixpoint exLookup (k : string) (env : list string) : string :=
  match env with
  | [] => EmptyString
  | e :: r =>
      match SplitN2 equals e with
      | [k'; v] => if String.eqb k k' then v else exLookup k r
      | _ => exLookup k r
      end
  end.

Definition exResolveVar (v : string) (env : list string) : result string :=
  match v with
  | String c k => if Ascii.eqb c "$"%char then Ok (exLookup k env) else Ok v
  | EmptyString => Ok v
  end.

Definition exMetaArgs : list ArgCommand :=
  [mkArg [mkKV "A" (Some "1"); mkKV "B" None]; mkArg [mkKV "C" (Some "$A")]].

Definition exExpanded : list ArgCommand :=
  [mkArg [mkKV "A" (Some "1"); mkKV "B" None]; mkArg [mkKV "C" (Some "1")]].

End NestedArgsExamples.

(** ** RUN: the argv of runCommandInExec *)
Module RunExec.

(** strings.Join. *)
Fixpoint Join (sep : string) (l : list string) : string :=
  match l with
  | [] => EmptyString
  | [x] => x
  | x :: r => (x ++ sep ++ Join sep r)%string
  end.

Definition newline : string := str1 (ascii_of_nat 10).

(** instructions.ShellInlineFile: a heredoc. *)
Record ShellInlineFile : Type := mkInlineFile { FileName : string; FileData : string }.

(** The fields of instructions.RunCommand that runCommandInExec reads. *)
Record RunInstr : Type := mkRunInstr {
  PrependShell : bool;
  CmdLine : list string;
  Files : list ShellInlineFile
}.

Definition withCmdLine (r : RunInstr) (l : list string) : RunInstr :=
  mkRunInstr (PrependShell r) l (Files r).

Section RunCommandInExec.
(** exec.LookPath(name) with PATH set to the given value. *)
Variable lookPath : string -> string -> option string.

(** The loop over the replacement envs of the exec form: every PATH
    entry sets PATH and looks the executable up again, writing the path
    found into newCommand[0]. *)
Fixpoint pathLoop (envs : list string) (newCommand : list string) : result (list string) :=
  match envs with
  | [] => Ok newCommand
  | v :: r =>
      match SplitN2 equals v with
      | [] => Panic "index out of range [0] with length 0"
      | key :: rest =>
          if negb (String.eqb key "PATH") then pathLoop r newCommand else
          match rest with
          | [] => Panic "index out of range [1] with length 1"
          | path :: _ =>
              match newCommand with
              | [] => Panic "index out of range [0] with length 0"
              | c0 :: cs =>
                  match lookPath path c0 with
                  | Some p => pathLoop r (p :: cs)
                  | None => pathLoop r newCommand
                  end
              end
          end
      end
  end.

(** runCommandInExec up to exec.Command: the argv it runs and the RUN
    instruction afterwards. In the exec form newCommand is
    cmdRun.CmdLine, so writing newCommand[0] writes the instruction's
    CmdLine. [configShell] is config.Shell, [envs] the replacement
    envs. *)
Definition commandArgv (configShell : list string) (envs : list string) (cmdRun : RunInstr)
    : result (list string * RunInstr) :=
  if PrependShell cmdRun then
    let shell := match configShell with [] => ["/bin/sh"; "-c"] | _ => configShell end in
    let cmd := Join " " (CmdLine cmdRun) in
    let cmd :=
      match Files cmdRun with
      | [f] => if String.eqb cmd ("<<" ++ FileName f) then (cmd ++ " sh")%string else cmd
      | _ => cmd
      end in
    let cmd := fold_left (fun acc h => (acc ++ newline ++ FileData h ++ FileName h)%string)
                 (Files cmdRun) cmd in
    Ok (shell ++ [cmd], cmdRun)
  else
    newCommand <- pathLoop envs (CmdLine cmdRun) ;;
    match newCommand with
    | [] => Panic "index out of range [0] with length 0"
    | _ => Ok (newCommand, withCmdLine cmdRun newCommand)
    end.

End RunCommandInExec.

End RunExec.

(** An exec-form RUN ["ls", "-l"] with a PATH entry, and a shell-form
    RUN <<EOF with its heredoc. *)
Module RunExecExamples.
Import RunExec.

Definition exLookPath (path name : string) : option string :=
  if String.eqb path "/usr/bin" then Some ("/usr/bin/" ++ name)%string else None.
Definition exEnvs : list string := ["HOME=/root"; "PATH=/usr/bin"].
Definition exExecRun : RunInstr := mkRunInstr false ["ls"; "-l"] [].

End RunExecExamples.

(** A Dockerfile with a named build stage, a stage built on it, a second
    stage on the same image and a scratch stage. *)
Module WarmerMoreExamples.
Import Dockerfile Warmer WarmerMore.

Definition exNamed (n b : string) : Stage :=
  mkStage n [] b EmptyString EmptyString EmptyString EmptyString [] [].
Definition exParsed : result (list Stage * list ArgCommand) :=
  Ok ([exNamed "builder" "golang"; exNamed EmptyString "builder"; exNamed EmptyString "golang";
       exNamed EmptyString "scratch"], []).

End WarmerMoreExamples.

(** * Proofs *)

(** ** Feature flags *)
Module ConfigProofs.
Import Config.

Lemma ParseBool_yes : ParseBool "yes" = None.
Proof. reflexivity. Qed.

(** C10: EnvBoolDefault(key, def) is total: it returns [def] when the
    variable is unset and when strconv.ParseBool rejects its value (such
    as yes), the parsed value otherwise; EnvBool(key) is
    EnvBoolDefault(key, false). *)
Theorem EnvBoolDefault_never_fails : forall (env : Environ) (key : string) (def : bool),
  (env key = None -> EnvBoolDefault env key def = def) /\
  (forall v, env key = Some v -> ParseBool v = None -> EnvBoolDefault env key def = def) /\
  (forall v b, env key = Some v -> ParseBool v = Some b -> EnvBoolDefault env key def = b) /\
  (env key = Some "yes" -> EnvBoolDefault env key def = def) /\
  EnvBool env key = EnvBoolDefault env key false.
Proof.
  intros env key def. unfold EnvBoolDefault, EnvBool.
  repeat split.
  - intros H. rewrite H. reflexivity.
  - intros v H Hp. rewrite H, Hp. reflexivity.
  - intros v b H Hp. rewrite H, Hp. reflexivity.
  - intros H. rewrite H. reflexivity.
Qed.

End ConfigProofs.

(** ** Meta-arg quotes and build-arg unification *)
Module ArgProofs.
Import Dockerfile Examples.

Lemma str1_eqb (c d : ascii) : String.eqb (str1 c) (str1 d) = Ascii.eqb c d.
Proof.
  unfold str1. destruct (Ascii.eqb_spec c d) as [->|Hne].
  - apply String.eqb_refl.
  - apply String.eqb_neq. intros H. injection H. auto.
Qed.

Lemma eqb_empty_str1 (c : ascii) : String.eqb (str1 c) EmptyString = false.
Proof. reflexivity. Qed.

Lemma eqb_empty_str2 (c d : ascii) : String.eqb (str2 c d) EmptyString = false.
Proof. reflexivity. Qed.

Lemma eqb_str1_empty (c : ascii) : String.eqb EmptyString (str1 c) = false.
Proof. reflexivity. Qed.

Lemma isQuote_cases (c : ascii) : isQuote c = true -> c = squote \/ c = dquote.
Proof.
  unfold isQuote. intros H. apply orb_true_iff in H.
  destruct H as [H|H]; apply Ascii.eqb_eq in H; auto.
Qed.

Lemma backslash_not_quote : isQuote backslash = false.
Proof. reflexivity. Qed.

(** C8 (amended): quote stripping of a meta-arg value of [n] bytes.
    Under two bytes the value is kept. A value starting with an
    unescaped quote loses its first and last byte when its last byte is
    the same quote (also when a backslash precedes that last quote), and
    is an error otherwise. A value starting with an escaped quote is kept
    when it ends with the same escaped quote, and is an error otherwise.
    Any other value is kept, unless its last byte is a quote, which is an
    error. *)
Theorem extractValFromQuotes_cases : forall val : string,
  let n := String.length val in
  let first := byteAt val 0 in
  let last := byteAt val (n - 1) in
  let tail2 := String.substring (n - 2) 2 val in
  (n < 2 -> extractValFromQuotes val = Ok val) /\
  (2 <= n -> isQuote first = true ->
     (last = first -> extractValFromQuotes val = Ok (String.substring 1 (n - 2) val)) /\
     (last <> first -> exists e, extractValFromQuotes val = Err e)) /\
  (2 <= n -> first = backslash -> isQuote (byteAt val 1) = true ->
     (tail2 = str2 backslash (byteAt val 1) -> extractValFromQuotes val = Ok val) /\
     (tail2 <> str2 backslash (byteAt val 1) -> exists e, extractValFromQuotes val = Err e)) /\
  (2 <= n -> isQuote first = false ->
     (first <> backslash \/ isQuote (byteAt val 1) = false) ->
     (isQuote last = true -> exists e, extractValFromQuotes val = Err e) /\
     (isQuote last = false -> extractValFromQuotes val = Ok val)).
Proof.
  intros val n first last tail2.
  unfold extractValFromQuotes. fold n first last tail2.
  split; [|split; [|split]].
  - intros Hn. apply Nat.ltb_lt in Hn. rewrite Hn. reflexivity.
  - intros Hn Hq. assert (Hn' : (n <? 2) = false) by (apply Nat.ltb_ge; lia).
    rewrite Hn', Hq. simpl String.length. cbn zeta. fold last.
    change (1 <? 2) with true. cbv iota beta.
    split.
    + intros ->. rewrite Hq, String.eqb_refl. simpl. reflexivity.
    + intros Hne. destruct (isQuote last) eqn:Hl.
      * rewrite str1_eqb.
        assert (Hb : Ascii.eqb first last = false)
          by (apply Ascii.eqb_neq; congruence).
        rewrite Hb. simpl. eauto.
      * rewrite eqb_empty_str1. simpl. eauto.
  - intros Hn Hb Hq1. assert (Hn' : (n <? 2) = false) by (apply Nat.ltb_ge; lia).
    rewrite Hn'. rewrite Hb, backslash_not_quote, Ascii.eqb_refl, Hq1.
    simpl String.length. cbn zeta. fold tail2.
    change (2 <? 2) with false. cbv iota beta.
    destruct (isQuote_cases _ Hq1) as [Hc|Hc]; split.
    + intros Ht. rewrite Ht, Hc. simpl. reflexivity.
    + intros Ht. rewrite Hc in Ht.
      destruct (String.eqb_spec tail2 (str2 backslash squote)) as [E|E]; [congruence|].
      destruct (String.eqb_spec tail2 (str2 backslash dquote)) as [E'|E'].
      * rewrite Hc, E'. simpl. eauto.
      * rewrite Hc. simpl. eauto.
    + intros Ht. rewrite Ht, Hc. simpl. reflexivity.
    + intros Ht. rewrite Hc in Ht.
      destruct (String.eqb_spec tail2 (str2 backslash squote)) as [E|E].
      * rewrite Hc, E. simpl. eauto.
      * destruct (String.eqb_spec tail2 (str2 backslash dquote)) as [E'|E']; [congruence|].
        rewrite Hc. simpl. eauto.
  - intros Hn Hq Hnb. assert (Hn' : (n <? 2) = false) by (apply Nat.ltb_ge; lia).
    rewrite Hn', Hq.
    assert (Hlead : (if Ascii.eqb first backslash
                     then if isQuote (byteAt val 1) then str2 backslash (byteAt val 1)
                          else EmptyString
                     else EmptyString) = EmptyString).
    { destruct Hnb as [Hnb|Hnb].
      - apply Ascii.eqb_neq in Hnb. rewrite Hnb. reflexivity.
      - rewrite Hnb. destruct (Ascii.eqb first backslash); reflexivity. }
    rewrite Hlead. simpl String.length. cbn zeta. fold last.
    change (0 <? 2) with true. cbv iota beta.
    split.
    + intros Hl. rewrite Hl. simpl. eauto.
    + intros Hl. rewrite Hl. simpl. reflexivity.
Qed.

(** C8, counterexample: an unescaped leading quote and an escaped
    trailing quote are different markers, yet the value is no error: both
    end bytes are stripped. *)
Lemma extractValFromQuotes_escaped_tail_stripped :
  extractValFromQuotes valQuoteEscapedTail = Ok (String "a"%char (str1 backslash)).
Proof. reflexivity. Qed.

(** C9: unifyArgs splits a --build-arg on every '=' (strings.Split),
    where NewBuildArgs splits on the first one only (strings.SplitN with
    2): the value a=b of K reaches the unified list as K=a, and the
    non-empty value =x of K is dropped in favour of the default d. *)
Theorem unifyArgs_splits_on_every_equals :
  unifyArgs [mkArg [mkKV "K" (Some "d")]] ["K=a=b"] = ["K=a"] /\
  unifyArgs [mkArg [mkKV "K" (Some "d")]] ["K==x"] = ["K=d"] /\
  SplitN2 equals "K=a=b" = ["K"; "a=b"] /\
  SplitN2 equals "K==x" = ["K"; "=x"].
Proof. repeat split; reflexivity. Qed.

End ArgProofs.

(** ** The planner on concrete Dockerfiles *)
Module PlannerExamples.
Import Dockerfile Planner Examples.

(** C4: COPY --from=9 in the last of three stages is parsed by
    strconv.Atoi as the stage index 9 and counted with
    copyDependencies[9]++ without a bounds check: the planner panics
    instead of treating 9 as an external image. *)
Theorem copy_from_out_of_range_panics :
  makeStages defaultOpts dfCopyFrom9 = Panic "index out of range".
Proof. vm_compute. reflexivity. Qed.

(** C1, counterexample: stage a is used by COPY --from=a in the next
    stage, yet it is emitted with save-stage false, and the target, which
    no later stage references, is emitted with save-stage true. *)
Lemma save_stage_not_set_by_copy_from :
  exists out, makeStages defaultOpts dfCopyByName = Ok out /\
    map SaveStage out = [false; true] /\
    map (fun k => Name (KStage k)) out = ["a"; EmptyString].
Proof. eexists. split; [vm_compute; reflexivity | split; reflexivity]. Qed.

(** C3, counterexample: stage b survives (COPY --from=b in the target),
    its base a is local with stage_refs 1 and copy_refs 0, yet b is not
    merged with a, because stage_refs of b is 0. *)
Lemma squash_needs_stage_ref_of_consumer :
  match counts defaultOpts dfCopyConsumer with
  | Ok (t, stages, st) =>
      let st' := squashPass st in
      nth 1 (stagesDependencies st) 0 = 0 /\
      nth 1 (copyDependencies st) 0 = 1 /\
      BaseImageStoredLocally (nth 1 (kanikoStages st) zeroKStage) = true /\
      BaseImageIndex (nth 1 (kanikoStages st) zeroKStage) = 0%Z /\
      nth 0 (stagesDependencies st) 0 = 1 /\
      nth 0 (copyDependencies st) 0 = 0 /\
      nth 1 (kanikoStages st') zeroKStage = nth 1 (kanikoStages st) zeroKStage /\
      length (prune st') = 3
  | _ => False
  end.
Proof. vm_compute. repeat split. Qed.

End PlannerExamples.

(** ** The planner's counting loop *)
Module PlannerProofs.
Import Dockerfile Planner Counting.

(** *** Slices *)

Lemma length_setNth {A} (l : list A) (i : nat) (x : A) :
  length (setNth l i x) = length l.
Proof. revert i; induction l as [|y l IH]; intros [|i]; simpl; auto. Qed.

Lemma nth_setNth_same {A} (l : list A) (i : nat) (x d : A) :
  i < length l -> nth i (setNth l i x) d = x.
Proof.
  revert i; induction l as [|y l IH]; intros [|i] H; simpl in *; try lia; auto.
  apply IH. lia.
Qed.

Lemma nth_setNth_other {A} (l : list A) (i j : nat) (x d : A) :
  i <> j -> nth j (setNth l i x) d = nth j l d.
Proof.
  revert i j; induction l as [|y l IH]; intros [|i] [|j] H; simpl; auto.
  all: try congruence.
  all: apply IH; congruence.
Qed.

Lemma Zofnat_eqb (a b : nat) : (Z.of_nat a =? Z.of_nat b)%Z = (a =? b).
Proof.
  destruct (Nat.eqb_spec a b) as [->|Hne].
  - apply Z.eqb_refl.
  - apply Z.eqb_neq. lia.
Qed.

Lemma incr_spec (l l' : list nat) (k : Z) :
  incr l k = Ok l' ->
  length l' = length l /\
  exists kn, k = Z.of_nat kn /\ kn < length l /\
    forall b, nth b l' 0 = nth b l 0 + (if kn =? b then 1 else 0).
Proof.
  unfold incr. destruct ((0 <=? k)%Z && (k <? Z.of_nat (length l))%Z) eqn:Hr;
    intros H; inversion H; subst; clear H.
  apply andb_true_iff in Hr as [H0 H1]. apply Z.leb_le in H0. apply Z.ltb_lt in H1.
  split; [apply length_setNth|].
  exists (Z.to_nat k). split; [lia|]. split; [lia|].
  intros b. destruct (Nat.eqb_spec (Z.to_nat k) b) as [<-|Hne].
  - rewrite nth_setNth_same by lia. lia.
  - rewrite nth_setNth_other by exact Hne. lia.
Qed.

Lemma countCopyRefs_spec byName cmds (cd cd' : list nat) :
  countCopyRefs byName cmds cd = Ok cd' ->
  length cd' = length cd /\
  forall b, nth b cd' 0 = nth b cd 0 + refsTo byName cmds b.
Proof.
  unfold refsTo. revert cd; induction cmds as [|c cmds IH]; intros cd H.
  - simpl in H. inversion H; subst. split; auto.
  - destruct c as [from rest|e|txt]; cbn [countCopyRefs] in H.
    + destruct (copyFromRef byName from) as [k|] eqn:Hk; cbn [bind] in H.
      * destruct (incr cd k) as [cd1| |] eqn:Hi; simpl in H; try discriminate.
        destruct (incr_spec _ _ _ Hi) as [Hl [kn [-> [_ Hn]]]].
        destruct (IH _ H) as [Hl' Hn'].
        split; [congruence|]. intros b. rewrite Hn', Hn.
        cbn [filter refCmd]. rewrite Hk, Zofnat_eqb.
        destruct (kn =? b); simpl; lia.
      * destruct (IH _ H) as [Hl' Hn']. split; auto. intros b.
        rewrite Hn'. cbn [filter refCmd]. rewrite Hk. reflexivity.
    + exact (IH _ H).
    + exact (IH _ H).
Qed.

Lemma filter_length_setNth {A} (f : A -> bool) (l : list A) (i : nat) (x d : A) :
  i < length l -> f (nth i l d) = false ->
  length (filter f (setNth l i x)) = length (filter f l) + (if f x then 1 else 0).
Proof.
  revert i; induction l as [|y l IH]; intros [|i] Hi Hf; simpl in *; try lia.
  - rewrite Hf. destruct (f x); simpl; lia.
  - destruct (f y); simpl; rewrite IH by (auto; lia); lia.
Qed.

Lemma list_sum_map_setNth {A} (g : A -> nat) (l : list A) (i : nat) (x d : A) :
  i < length l -> g (nth i l d) = 0 ->
  list_sum (map g (setNth l i x)) = list_sum (map g l) + g x.
Proof.
  revert i; induction l as [|y l IH]; intros [|i] Hi Hg; simpl in *; try lia.
  rewrite IH by (auto; lia). lia.
Qed.

(** *** baseImageIndex *)

Lemma baseIndexFrom_range name stages i cur :
  baseIndexFrom name stages i cur = (-1)%Z \/
  exists j, baseIndexFrom name stages i cur = Z.of_nat j /\ i <= j < cur.
Proof.
  revert i; induction stages as [|s r IH]; intros i; simpl; auto.
  destruct (cur <=? i) eqn:Hc; auto.
  destruct (String.eqb (Name s) name).
  - right. exists i. apply Nat.leb_gt in Hc. split; auto; lia.
  - destruct (IH (S i)) as [H|[j [H1 H2]]]; auto. right. exists j. split; auto; lia.
Qed.

Lemma baseImageIndex_range i stages :
  baseImageIndex i stages = (-1)%Z \/
  exists j, baseImageIndex i stages = Z.of_nat j /\ j < i.
Proof.
  unfold baseImageIndex.
  destruct (baseIndexFrom_range (ToLower (BaseName (nth i stages zeroStage))) stages 0 i)
    as [H|[j [H1 H2]]]; auto. right. exists j. split; auto; lia.
Qed.

Lemma entryOK_local stages i k :
  entryOK stages i k -> BaseImageStoredLocally k = true ->
  exists j, BaseImageIndex k = Z.of_nat j /\ j < i.
Proof.
  intros [Hb [Hl _]] Hloc. rewrite Hb in *.
  destruct (baseImageIndex_range i stages) as [H|H]; auto.
  rewrite Hl, H in Hloc. discriminate.
Qed.

Lemma zero_not_local : BaseImageStoredLocally zeroKStage = false.
Proof. reflexivity. Qed.

Lemma bind_Ok {A B} (r : result A) (f : A -> result B) (b : B) :
  bind r f = Ok b -> exists a, r = Ok a /\ f a = Ok b.
Proof. destruct r; simpl; intros H; try discriminate. eauto. Qed.

Lemma usesBase_zero b : usesBase b zeroKStage = false.
Proof. reflexivity. Qed.

Lemma refsTo_zero byName b : refsTo byName (Commands (KStage zeroKStage)) b = 0.
Proof. reflexivity. Qed.

Lemma localBaseCount_setNth ks i x b :
  i < length ks -> nth i ks zeroKStage = zeroKStage ->
  localBaseCount (setNth ks i x) b = localBaseCount ks b + (if usesBase b x then 1 else 0).
Proof.
  intros Hi Hz. unfold localBaseCount.
  apply (filter_length_setNth _ _ _ _ zeroKStage); auto. rewrite Hz. reflexivity.
Qed.

Lemma copyRefCount_setNth byName ks i x b :
  i < length ks -> nth i ks zeroKStage = zeroKStage ->
  copyRefCount byName (setNth ks i x) b =
  copyRefCount byName ks b + refsTo byName (Commands (KStage x)) b.
Proof.
  intros Hi Hz. unfold copyRefCount.
  apply (list_sum_map_setNth (fun k => refsTo byName (Commands (KStage k)) b) _ _ _ zeroKStage);
    auto. rewrite Hz. reflexivity.
Qed.

Lemma findStage_range stages target i j :
  findStage stages target i = Some j -> i <= j < i + length stages.
Proof.
  revert i; induction stages as [|s r IH]; intros i H; simpl in H; try discriminate.
  destruct (EqualFold (Name s) target).
  - inversion H; subst. simpl. lia.
  - apply IH in H. simpl. lia.
Qed.

Lemma targetStage_range stages target t :
  targetStage stages target = Ok t -> (t < Z.of_nat (length stages))%Z.
Proof.
  unfold targetStage. destruct (String.eqb target EmptyString).
  - intros H. inversion H. lia.
  - destruct (findStage stages target 0) as [j|] eqn:Hf; intros H; inversion H; subst.
    apply findStage_range in Hf. lia.
Qed.

Lemma localBaseCount_repeat n b : localBaseCount (repeat zeroKStage n) b = 0.
Proof. induction n as [|n IH]; auto. Qed.

Lemma copyRefCount_repeat byName n b : copyRefCount byName (repeat zeroKStage n) b = 0.
Proof. induction n as [|n IH]; auto. Qed.

Lemma LoopInv_init opts stages t byName :
  length stages = S t ->
  LoopInv opts stages t byName (S t)
    (mkPlan (repeat zeroKStage (length stages)) (setNth (repeat 0 (length stages)) t 1)
       (repeat 0 (length stages))).
Proof.
  intros Hn. unfold LoopInv; cbn [kanikoStages stagesDependencies copyDependencies].
  rewrite length_setNth, !repeat_length.
  refine (conj eq_refl (conj eq_refl (conj eq_refl (conj _ (conj _ (conj _ (conj _ _))))))).
  - intros i _. apply nth_repeat.
  - intros i Hi Hi'. lia.
  - intros _ i Hi Hi'. lia.
  - intros _ b. rewrite localBaseCount_repeat. destruct (Nat.eqb_spec b t) as [->|Hne].
    + rewrite nth_setNth_same by (rewrite repeat_length; lia). reflexivity.
    + rewrite nth_setNth_other by congruence. rewrite nth_repeat. reflexivity.
  - intros _ b. rewrite copyRefCount_repeat. apply nth_repeat.
Qed.

Section Loop.
Variable R : string -> result (list string).
Variable P : string -> result (list Command).
Variable Res : string -> list string -> result string.


Lemma planStage_inv opts stages metaArgs t byName i st st' :
  i < length stages -> LoopInv opts stages t byName (S i) st ->
  planStage R P opts stages metaArgs t byName i st = Ok st' ->
  LoopInv opts stages t byName i st'.
Proof.
  intros Hi Inv H. destruct Inv as (Hk & Hs & Hc & Hz & Hent & Hns & Hsd & Hcd).
  unfold planStage in H.
  destruct ((nth i (stagesDependencies st) 0 =? 0) && (nth i (copyDependencies st) 0 =? 0)
            && SkipUnusedStages opts) eqn:Hskip.
  - inversion H; subst. unfold LoopInv.
    refine (conj Hk (conj Hs (conj Hc (conj _ (conj _ (conj _ (conj Hsd Hcd))))))).
    + intros j Hj. apply Hz. lia.
    + intros j Hj Hjn. destruct (Nat.eq_dec j i) as [->|Hne].
      * left. apply Hz. lia.
      * apply Hent; lia.
    + intros Hf. rewrite Hf, andb_false_r in Hskip. discriminate.
  - apply bind_Ok in H as [onb [_ H]].
    apply bind_Ok in H as [cmds [_ H]].
    apply bind_Ok in H as [sd' [Hsd' H]].
    apply bind_Ok in H as [cd' [Hcd' H]].
    inversion H; subst st'; clear H.
    set (stage0 := nth i stages zeroStage) in *.
    set (bii := baseImageIndex i stages) in *.
    set (e := mkKStage (withCommands stage0 (cmds ++ Commands stage0)) bii (i =? t)
                (negb (bii =? -1)%Z) (saveStage i stages) metaArgs (Z.of_nat i)).
    assert (Hzi : nth i (kanikoStages st) zeroKStage = zeroKStage) by (apply Hz; lia).
    assert (He : entryOK stages i e) by (unfold entryOK; simpl; auto).
    assert (Hln : length sd' = length stages /\ length cd' = length stages).
    { split.
      - destruct (SkipUnusedStages opts && negb (bii =? -1)%Z).
        + apply incr_spec in Hsd'. lia.
        + inversion Hsd'. congruence.
      - destruct (SkipUnusedStages opts).
        + apply countCopyRefs_spec in Hcd'. lia.
        + inversion Hcd'. congruence. }
    unfold LoopInv; cbn [kanikoStages stagesDependencies copyDependencies].
    fold e. rewrite length_setNth.
    refine (conj Hk (conj (proj1 Hln) (conj (proj2 Hln) (conj _ (conj _ (conj _ (conj _ _))))))).
    + intros j Hj. rewrite nth_setNth_other by lia. apply Hz. lia.
    + intros j Hj Hjn. destruct (Nat.eq_dec i j) as [<-|Hne].
      * right. rewrite nth_setNth_same by lia. exact He.
      * rewrite nth_setNth_other by exact Hne. apply Hent; lia.
    + intros Hf j Hj Hjn. destruct (Nat.eq_dec i j) as [<-|Hne].
      * rewrite nth_setNth_same by lia. exact He.
      * rewrite nth_setNth_other by exact Hne. apply Hns; auto; lia.
    + intros Ht b. rewrite localBaseCount_setNth by (auto; lia).
      rewrite Ht in Hsd'. cbn [andb] in Hsd'.
      unfold usesBase; cbn [BaseImageStoredLocally BaseImageIndex e].
      destruct (negb (bii =? -1)%Z) eqn:Hb; cbn [andb].
      * destruct (incr_spec _ _ _ Hsd') as [_ [kn [Hkn [_ Hn]]]].
        rewrite Hn, (Hsd Ht b), Hkn, Zofnat_eqb.
        destruct (kn =? b); lia.
      * inversion Hsd'; subst. rewrite (Hsd Ht b). lia.
    + intros Ht b. rewrite copyRefCount_setNth by (auto; lia).
      rewrite Ht in Hcd'. destruct (countCopyRefs_spec _ _ _ _ Hcd') as [_ Hn].
      rewrite Hn, (Hcd Ht b). reflexivity.
Qed.

Lemma planLoop_inv opts stages metaArgs t byName m st st' :
  m <= length stages -> LoopInv opts stages t byName m st ->
  planLoop R P opts stages metaArgs t byName m st = Ok st' ->
  LoopInv opts stages t byName 0 st'.
Proof.
  revert st; induction m as [|m IH]; intros st Hm Inv H.
  - simpl in H. inversion H; subst. exact Inv.
  - cbn [planLoop] in H. apply bind_Ok in H as [st1 [H1 H2]].
    apply (IH st1); [lia| |exact H2].
    apply (planStage_inv opts stages metaArgs t byName m st); auto.
Qed.

Lemma resolveStagesArgs_length stages args stages' :
  resolveStagesArgs Res stages args = Ok stages' -> length stages' = length stages.
Proof.
  revert stages'; induction stages as [|s r IH]; intros stages' H; simpl in H.
  - inversion H; reflexivity.
  - apply bind_Ok in H as [b [_ H]]. apply bind_Ok in H as [r' [Hr H]].
    inversion H; subst. simpl. rewrite (IH _ Hr). reflexivity.
Qed.

(** After the counting loop: the stages are cut after the target, and the
    invariant holds for every index. *)
Lemma planCounts_inv opts stages metaArgs t stages' st :
  planCounts R P Res opts stages metaArgs = Ok (t, stages', st) ->
  length stages' = S t /\ LoopInv opts stages' t (stageByName stages') 0 st.
Proof.
  unfold planCounts. intros H.
  apply bind_Ok in H as [tz [Ht H]]. apply bind_Ok in H as [res [Hres H]].
  destruct (tz <? 0)%Z eqn:Hneg; [discriminate|].
  apply bind_Ok in H as [st1 [Hl H]]. injection H as <- <- <-.
  change (match res with [] => [] | a :: l => a :: firstn (Z.to_nat tz) l end)
    with (firstn (S (Z.to_nat tz)) res) in *.
  apply Z.ltb_ge in Hneg. apply targetStage_range in Ht.
  apply resolveStagesArgs_length in Hres.
  assert (Hlen : length (firstn (S (Z.to_nat tz)) res) = S (Z.to_nat tz)).
  { apply firstn_length_le. lia. }
  split; [exact Hlen|].
  eapply planLoop_inv; [| |exact Hl].
  - rewrite Hlen. lia.
  - rewrite <- Hlen at 2. apply LoopInv_init. exact Hlen.
Qed.

End Loop.

End PlannerProofs.

(** ** The squash pass *)
Module SquashProofs.
Import Dockerfile Planner Counting PlannerProofs.

Lemma filter_one {A} (f : A -> bool) (l : list A) (d : A) (i : nat) :
  i < length l -> f (nth i l d) = true -> 1 <= length (filter f l).
Proof.
  revert i; induction l as [|a l IH]; intros [|i] Hi Hf; simpl in *; try lia.
  - rewrite Hf. simpl. lia.
  - destruct (f a); simpl; [lia|]. apply (IH i); auto; lia.
Qed.

Lemma filter_two {A} (f : A -> bool) (l : list A) (d : A) (i i' : nat) :
  i < i' -> i' < length l -> f (nth i l d) = true -> f (nth i' l d) = true ->
  2 <= length (filter f l).
Proof.
  revert i i'; induction l as [|a l IH]; intros [|i] [|i'] Hlt Hi Hf Hf'; simpl in *; try lia.
  - rewrite Hf. simpl. pose proof (filter_one f l d i' ltac:(lia) Hf'). lia.
  - destruct (f a); simpl; [|apply (IH i i'); auto; lia].
    pose proof (filter_one f l d i' ltac:(lia) Hf'). lia.
Qed.

Lemma existsb_seq_lt (f : nat -> bool) (i : nat) :
  existsb f (seq 0 i) = true -> exists i', i' < i /\ f i' = true.
Proof.
  intros H. apply existsb_exists in H as [x [Hx Hf]].
  apply in_seq in Hx. exists x. split; [lia|exact Hf].
Qed.

Lemma filterOnBuild_incl c cmds : In c (filterOnBuild cmds) -> In c cmds.
Proof.
  induction cmds as [|c' r IH]; simpl; auto.
  destruct c'; simpl; [intros [H|H]|intros H|intros [H|H]]; auto.
Qed.

Lemma refsTo_zero_iff byName cmds b :
  refsTo byName cmds b = 0 <-> forall c, In c cmds -> refCmd byName c b = false.
Proof.
  unfold refsTo. induction cmds as [|c r IH]; simpl.
  - split; auto. intros _ c [].
  - destruct (refCmd byName c b) eqn:Hc; simpl.
    + split; [lia|]. intros H. rewrite H in Hc by auto. discriminate.
    + rewrite IH. split.
      * intros H c' [<-|Hin]; auto.
      * intros H c' Hin. apply H. auto.
Qed.

Lemma list_sum_map_zero {A} (g : A -> nat) (l : list A) (d : A) (r : nat) :
  list_sum (map g l) = 0 -> r < length l -> g (nth r l d) = 0.
Proof.
  revert r; induction l as [|a l IH]; intros [|r] H Hr; simpl in *; try lia.
  apply IH; lia.
Qed.

Lemma squash_fields a b :
  BaseImageStoredLocally (squash a b) = BaseImageStoredLocally a /\
  BaseImageIndex (squash a b) = BaseImageIndex a /\
  Commands (KStage (squash a b)) = filterOnBuild (Commands (KStage a)) ++ Commands (KStage b).
Proof. repeat split. Qed.

Lemma pruneFrom_spec i ks sd cd :
  pruneFrom i ks sd cd =
  map (fun j => withSaveStage (nth (j - i) ks zeroKStage) (0 <? nth j sd 0))
      (filter (fun j => (0 <? nth j sd 0) || (0 <? nth j cd 0)) (seq i (length ks))).
Proof.
  revert i; induction ks as [|s r IH]; intros i; simpl; auto.
  rewrite IH. destruct ((0 <? nth i sd 0) || (0 <? nth i cd 0)); cbn [map];
    [rewrite Nat.sub_diag; f_equal|];
    apply map_ext_in; intros j Hj; apply filter_In in Hj as [Hj _]; apply in_seq in Hj;
    replace (j - i) with (S (j - S i)) by lia; reflexivity.
Qed.

(** The compaction keeps, in order, the positions with a positive count. *)
Lemma prune_spec st :
  prune st =
  map (fun j => withSaveStage (nth j (kanikoStages st) zeroKStage)
                  (0 <? nth j (stagesDependencies st) 0))
      (filter (keep st) (seq 0 (length (kanikoStages st)))).
Proof.
  unfold prune. rewrite pruneFrom_spec. apply map_ext. intros j.
  rewrite Nat.sub_0_r. reflexivity.
Qed.

Section Pass.
Variable st1 : PlanState.
Variable n : nat.
Hypothesis Hks1 : length (kanikoStages st1) = n.
Hypothesis Hsd1 : length (stagesDependencies st1) = n.
Hypothesis Hloc : forall i, i < n ->
  BaseImageStoredLocally (nth i (kanikoStages st1) zeroKStage) = true ->
  exists j, BaseImageIndex (nth i (kanikoStages st1) zeroKStage) = Z.of_nat j /\ j < i.
Hypothesis Hcnt : forall b,
  localBaseCount (kanikoStages st1) b <= nth b (stagesDependencies st1) 0.
#[local] Set Default Proof Using "All".

Lemma fires_base j :
  squashFires st1 j = true ->
  j < n /\ BaseImageStoredLocally (nth j (kanikoStages st1) zeroKStage) = true /\
  BaseImageIndex (nth j (kanikoStages st1) zeroKStage) =
    Z.of_nat (baseOf (nth j (kanikoStages st1) zeroKStage)) /\
  baseOf (nth j (kanikoStages st1) zeroKStage) < j /\
  nth (baseOf (nth j (kanikoStages st1) zeroKStage)) (stagesDependencies st1) 0 = 1 /\
  nth (baseOf (nth j (kanikoStages st1) zeroKStage)) (copyDependencies st1) 0 = 0.
Proof.
  unfold squashFires. intros H.
  apply andb_true_iff in H as [H H4]. apply andb_true_iff in H as [H H3].
  apply andb_true_iff in H as [H1 H2].
  apply Nat.ltb_lt in H1. apply Nat.eqb_eq in H3. apply Nat.eqb_eq in H4.
  assert (Hj : j < n).
  { destruct (Nat.lt_ge_cases j n) as [Hl|Hge]; auto.
    rewrite nth_overflow in H1 by lia. lia. }
  destruct (Hloc j Hj H2) as [b [Hb Hbj]].
  unfold baseOf in *. rewrite Hb, Nat2Z.id in *.
  repeat split; auto.
Qed.

(** Two stages cannot both use the base of a squash as their local base. *)
Lemma fires_unique i i' :
  squashFires st1 i' = true -> i <> i' -> i < n ->
  BaseImageStoredLocally (nth i (kanikoStages st1) zeroKStage) = true ->
  baseOf (nth i (kanikoStages st1) zeroKStage) =
    baseOf (nth i' (kanikoStages st1) zeroKStage) -> False.
Proof.
  intros Hf Hne Hi Hl Hb.
  destruct (fires_base i' Hf) as (Hi' & Hl' & Hb' & _ & H1 & _).
  destruct (Hloc i Hi Hl) as [j [Hj _]].
  set (b := baseOf (nth i' (kanikoStages st1) zeroKStage)) in *.
  assert (Hu : usesBase b (nth i (kanikoStages st1) zeroKStage) = true).
  { unfold usesBase. rewrite Hl, Hj. unfold baseOf in Hb. rewrite Hj, Nat2Z.id in Hb.
    rewrite Hb. apply Z.eqb_refl. }
  assert (Hu' : usesBase b (nth i' (kanikoStages st1) zeroKStage) = true).
  { unfold usesBase. rewrite Hl', Hb'. apply Z.eqb_refl. }
  pose proof (Hcnt b) as Hc. unfold localBaseCount in Hc.
  assert (Hor : i < i' \/ i' < i) by lia. destruct Hor as [Hlt|Hlt].
  - pose proof (filter_two (usesBase b) (kanikoStages st1) zeroKStage i i' Hlt ltac:(lia) Hu Hu'). lia.
  - pose proof (filter_two (usesBase b) (kanikoStages st1) zeroKStage i' i Hlt ltac:(lia) Hu' Hu). lia.
Qed.

Lemma squashStep_inv i st :
  i < n -> PassInv st1 n i st -> PassInv st1 n (S i) (squashStep i st).
Proof.
  intros Hi (Hk & Hs & Hc & Hge & Hlt & Hsd).
  assert (Hki : nth i (kanikoStages st) zeroKStage = nth i (kanikoStages st1) zeroKStage)
    by (apply Hge; lia).
  unfold squashStep. cbv zeta. rewrite Hki.
  set (k := nth i (kanikoStages st1) zeroKStage) in *.
  assert (Hcond : (0 <? nth i (stagesDependencies st) 0) && BaseImageStoredLocally k
     && (nth (baseOf k) (stagesDependencies st) 0 =? 1)
     && (nth (baseOf k) (copyDependencies st) 0 =? 0) = squashFires st1 i).
  { rewrite Hc, (Hsd i).
    destruct (squashedIn st1 (seq 0 i) i) eqn:E1.
    { exfalso. apply existsb_seq_lt in E1 as [i' [Hi' Hf]].
      apply andb_true_iff in Hf as [Hf Heq]. apply Nat.eqb_eq in Heq.
      destruct (fires_base i' Hf) as (_ & _ & _ & Hlt' & _). lia. }
    rewrite (Hsd (baseOf k)).
    destruct (squashedIn st1 (seq 0 i) (baseOf k)) eqn:E2.
    - apply existsb_seq_lt in E2 as [i' [Hi' Hf]].
      apply andb_true_iff in Hf as [Hf Heq]. apply Nat.eqb_eq in Heq.
      unfold squashFires. fold k. destruct (BaseImageStoredLocally k) eqn:Hl.
      + exfalso. apply (fires_unique i i' Hf); auto; lia.
      + rewrite !andb_false_r. reflexivity.
    - reflexivity. }
  unfold baseOf at 1 2 in Hcond. rewrite Hcond.
  destruct (squashFires st1 i) eqn:Hf.
  - destruct (fires_base i Hf) as (_ & Hl & Hb & Hbi & _). fold k in Hl, Hb, Hbi.
    unfold PassInv; cbn [kanikoStages stagesDependencies copyDependencies].
    fold (baseOf k).
    refine (conj _ (conj _ (conj Hc (conj _ (conj _ _))))).
    + rewrite length_setNth. exact Hk.
    + rewrite length_setNth. exact Hs.
    + intros j Hj. rewrite nth_setNth_other by lia. apply Hge. lia.
    + intros j Hj. destruct (Nat.eq_dec i j) as [<-|Hne].
      * rewrite nth_setNth_same by lia. rewrite Hf. fold k.
        rewrite nth_setNth_other by lia. reflexivity.
      * rewrite nth_setNth_other by exact Hne. rewrite (Hlt j) by lia.
        destruct (squashFires st1 j) eqn:Hfj; [|reflexivity].
        destruct (fires_base j Hfj) as (_ & _ & _ & Hbj & _).
        rewrite nth_setNth_other by lia. reflexivity.
    + intros j. unfold squashedIn in *. rewrite seq_S, existsb_app.
      cbn [existsb Nat.add]. rewrite Hf. fold k.
      destruct (Nat.eqb_spec (baseOf k) j) as [<-|Hne].
      * rewrite nth_setNth_same by lia. cbn [andb orb].
        rewrite orb_true_r. reflexivity.
      * rewrite nth_setNth_other by exact Hne. rewrite (Hsd j).
        cbn [andb orb]. rewrite orb_false_r.
        reflexivity.
  - unfold PassInv. refine (conj Hk (conj Hs (conj Hc (conj _ (conj _ _))))).
    + intros j Hj. apply Hge. lia.
    + intros j Hj. destruct (Nat.eq_dec i j) as [<-|Hne].
      * rewrite Hf. exact Hki.
      * apply Hlt. lia.
    + intros j. unfold squashedIn in *. rewrite seq_S, existsb_app.
      cbn [existsb Nat.add]. rewrite Hf. cbn [andb orb]. rewrite orb_false_r.
      apply Hsd.
Qed.

Lemma squashFrom_inv m i st :
  i + m = n -> PassInv st1 n i st -> PassInv st1 n n (squashFrom m i st).
Proof.
  revert i st; induction m as [|m IH]; intros i st Hm Inv.
  - simpl. replace i with n in Inv by lia. exact Inv.
  - cbn [squashFrom]. apply IH; [lia|]. apply squashStep_inv; [lia|exact Inv].
Qed.

Lemma squashPass_inv : PassInv st1 n n (squashPass st1).
Proof.
  unfold squashPass. rewrite Hks1. apply squashFrom_inv; [lia|].
  unfold PassInv. refine (conj Hks1 (conj Hsd1 (conj eq_refl (conj _ (conj _ _))))).
  - reflexivity.
  - intros j Hj. lia.
  - reflexivity.
Qed.

Lemma final_base j :
  j < n -> exists r, r < n /\ squashFires st1 r = false /\
    BaseImageStoredLocally (nth j (kanikoStages (squashPass st1)) zeroKStage) =
      BaseImageStoredLocally (nth r (kanikoStages st1) zeroKStage) /\
    BaseImageIndex (nth j (kanikoStages (squashPass st1)) zeroKStage) =
      BaseImageIndex (nth r (kanikoStages st1) zeroKStage).
Proof.
  induction j as [j IH] using lt_wf_ind. intros Hj.
  destruct squashPass_inv as (_ & _ & _ & _ & Hlt & _).
  rewrite (Hlt j Hj). destruct (squashFires st1 j) eqn:Hf.
  - destruct (fires_base j Hf) as (_ & _ & _ & Hbj & _).
    destruct (IH _ Hbj ltac:(lia)) as [r (Hr & Hfr & Hl & Hb)].
    exists r. destruct (squash_fields (nth (baseOf (nth j (kanikoStages st1) zeroKStage))
      (kanikoStages (squashPass st1)) zeroKStage) (nth j (kanikoStages st1) zeroKStage))
      as (-> & -> & _).
    auto.
  - exists j. auto.
Qed.

Lemma final_cmds j c :
  j < n -> In c (Commands (KStage (nth j (kanikoStages (squashPass st1)) zeroKStage))) ->
  exists r, r < n /\ In c (Commands (KStage (nth r (kanikoStages st1) zeroKStage))).
Proof.
  revert c; induction j as [j IH] using lt_wf_ind. intros c Hj Hin.
  destruct squashPass_inv as (_ & _ & _ & _ & Hlt & _).
  rewrite (Hlt j Hj) in Hin. destruct (squashFires st1 j) eqn:Hf.
  - destruct (fires_base j Hf) as (_ & _ & _ & Hbj & _).
    rewrite (proj2 (proj2 (squash_fields _ _))) in Hin.
    apply in_app_or in Hin as [Hin|Hin].
    + apply filterOnBuild_incl in Hin. apply (IH _ Hbj c); auto; lia.
    + exists j. auto.
  - exists j. auto.
Qed.

(** Squash safety: once the base [b] of [s] is merged into [s], no stage
    of the final list uses [b] as its local base. *)
Lemma squash_no_base_use s j :
  squashFires st1 s = true -> j < n ->
  usesBase (baseOf (nth s (kanikoStages st1) zeroKStage))
    (nth j (kanikoStages (squashPass st1)) zeroKStage) = false.
Proof.
  intros Hf Hj. destruct (final_base j Hj) as [r (Hr & Hfr & Hl & Hb)].
  unfold usesBase. rewrite Hl, Hb.
  destruct (BaseImageStoredLocally (nth r (kanikoStages st1) zeroKStage)) eqn:Hlr; auto.
  destruct (Z.eqb_spec (BaseImageIndex (nth r (kanikoStages st1) zeroKStage))
              (Z.of_nat (baseOf (nth s (kanikoStages st1) zeroKStage)))) as [He|]; auto.
  exfalso. apply (fires_unique r s Hf); auto.
  - intros ->. congruence.
  - unfold baseOf at 1. rewrite He, Nat2Z.id. reflexivity.
Qed.

(** Squash safety for COPY --from: no instruction of the final list
    resolves to the merged base. *)
Lemma squash_no_copy_ref byName s j :
  (forall b, nth b (copyDependencies st1) 0 = copyRefCount byName (kanikoStages st1) b) ->
  squashFires st1 s = true -> j < n ->
  refsTo byName (Commands (KStage (nth j (kanikoStages (squashPass st1)) zeroKStage)))
    (baseOf (nth s (kanikoStages st1) zeroKStage)) = 0.
Proof.
  intros Hcd Hf Hj. destruct (fires_base s Hf) as (_ & _ & _ & _ & _ & H0).
  rewrite Hcd in H0. apply refsTo_zero_iff. intros c Hin.
  destruct (final_cmds j c Hj Hin) as [r [Hr Hinr]].
  assert (Hz : refsTo byName (Commands (KStage (nth r (kanikoStages st1) zeroKStage)))
                 (baseOf (nth s (kanikoStages st1) zeroKStage)) = 0).
  { apply (list_sum_map_zero (fun k => refsTo byName (Commands (KStage k))
             (baseOf (nth s (kanikoStages st1) zeroKStage))) _ _ _ H0). lia. }
  rewrite refsTo_zero_iff in Hz. auto.
Qed.

End Pass.
End SquashProofs.

(** ** MakeKanikoStages: pruning, save-stage and squashing *)
Module PlannerTheorems.
Import Dockerfile Planner Counting PlannerProofs SquashProofs.

Lemma make_skip_on R P Res env opts stages metaArgs out :
  SkipUnusedStages opts = true ->
  MakeKanikoStages R P Res env opts stages metaArgs = Ok out ->
  exists t stages' st, planCounts R P Res opts stages metaArgs = Ok (t, stages', st) /\
    out = prune (if squashEnabled env opts then squashPass st else st).
Proof.
  intros Hs H. unfold MakeKanikoStages in H.
  apply bind_Ok in H as [[[t stages'] st] [Hp H]].
  rewrite Hs in H. cbn [snd] in H. injection H as <-. eauto.
Qed.

Lemma make_skip_off R P Res env opts stages metaArgs out :
  SkipUnusedStages opts = false ->
  MakeKanikoStages R P Res env opts stages metaArgs = Ok out ->
  exists t stages' st, planCounts R P Res opts stages metaArgs = Ok (t, stages', st) /\
    out = kanikoStages st.
Proof.
  intros Hs H. unfold MakeKanikoStages, squashEnabled in H.
  apply bind_Ok in H as [[[t stages'] st] [Hp H]].
  rewrite Hs in H. cbn [snd andb] in H. injection H as <-. eauto.
Qed.

Lemma make_squash_on R P Res env opts stages metaArgs t stages' st :
  planCounts R P Res opts stages metaArgs = Ok (t, stages', st) ->
  squashEnabled env opts = true ->
  MakeKanikoStages R P Res env opts stages metaArgs = Ok (prune (squashPass st)).
Proof.
  intros Hp He. pose proof He as Hs. unfold squashEnabled in Hs.
  apply andb_true_iff in Hs as [Hs _].
  unfold MakeKanikoStages. rewrite Hp. cbn [bind snd]. rewrite He, Hs. reflexivity.
Qed.

(** The hypotheses of the squash-pass lemmas, from the counting loop. *)
Lemma loop_local opts stages' t byName st :
  LoopInv opts stages' t byName 0 st ->
  forall i, i < length stages' ->
  BaseImageStoredLocally (nth i (kanikoStages st) zeroKStage) = true ->
  exists j, BaseImageIndex (nth i (kanikoStages st) zeroKStage) = Z.of_nat j /\ j < i.
Proof.
  intros (_ & _ & _ & _ & Hent & _) i Hi Hl.
  destruct (Hent i ltac:(lia) Hi) as [Hz|He].
  - rewrite Hz in Hl. discriminate.
  - exact (entryOK_local _ _ _ He Hl).
Qed.

Lemma loop_count opts stages' t byName st :
  SkipUnusedStages opts = true -> LoopInv opts stages' t byName 0 st ->
  forall b, localBaseCount (kanikoStages st) b <= nth b (stagesDependencies st) 0.
Proof. intros Hs (_ & _ & _ & _ & _ & _ & Hsd & _) b. rewrite (Hsd Hs b). lia. Qed.

(** With skip-unused-stages on, the state after the optional squash pass
    has [S t] positions and keeps its target count positive. *)
Lemma after_pass opts stages' t st (sq : bool) :
  SkipUnusedStages opts = true -> length stages' = S t ->
  LoopInv opts stages' t (stageByName stages') 0 st ->
  let st' := if sq then squashPass st else st in
  length (kanikoStages st') = S t /\ 0 < nth t (stagesDependencies st') 0.
Proof.
  intros Hs Hn Inv. pose proof Inv as (Hk & Hsdl & _ & _ & _ & _ & Hsd & _).
  assert (Ht : 0 < nth t (stagesDependencies st) 0) by (rewrite (Hsd Hs t), Nat.eqb_refl; lia).
  destruct sq; cbv zeta; [|split; [congruence|exact Ht]].
  assert (Hks1 : length (kanikoStages st) = S t) by congruence.
  assert (Hsd1 : length (stagesDependencies st) = S t) by congruence.
  pose proof (loop_local _ _ _ _ _ Inv) as Hloc. rewrite Hn in Hloc.
  pose proof (loop_count _ _ _ _ _ Hs Inv) as Hcnt.
  destruct (squashPass_inv st (S t) Hks1 Hsd1 Hloc Hcnt) as (Hk' & _ & _ & _ & _ & Hsd').
  split; [exact Hk'|]. rewrite Hsd'.
  destruct (squashedIn st (seq 0 (S t)) t) eqn:E; [|exact Ht].
  apply existsb_seq_lt in E as [i' [Hi' Hf]].
  apply andb_true_iff in Hf as [Hf Heq]. apply Nat.eqb_eq in Heq.
  destruct (fires_base st (S t) Hks1 Hsd1 Hloc Hcnt i' Hf) as (_ & _ & _ & Hb & _). lia.
Qed.

Lemma pass_hyps R P Res opts stages metaArgs t stages' st :
  planCounts R P Res opts stages metaArgs = Ok (t, stages', st) ->
  SkipUnusedStages opts = true ->
  length stages' = S t /\
  length (kanikoStages st) = S t /\ length (stagesDependencies st) = S t /\
  (forall i, i < S t ->
     BaseImageStoredLocally (nth i (kanikoStages st) zeroKStage) = true ->
     exists j, BaseImageIndex (nth i (kanikoStages st) zeroKStage) = Z.of_nat j /\ j < i) /\
  (forall b, localBaseCount (kanikoStages st) b <= nth b (stagesDependencies st) 0) /\
  (forall b, nth b (stagesDependencies st) 0 =
     (if b =? t then 1 else 0) + localBaseCount (kanikoStages st) b) /\
  (forall b, nth b (copyDependencies st) 0 =
     copyRefCount (stageByName stages') (kanikoStages st) b).
Proof.
  intros Hp Hs. destruct (planCounts_inv R P Res _ _ _ _ _ _ Hp) as [Hn Inv].
  pose proof (loop_local _ _ _ _ _ Inv) as Hloc. rewrite Hn in Hloc.
  pose proof (loop_count _ _ _ _ _ Hs Inv) as Hcnt.
  destruct Inv as (Hk & Hsdl & _ & _ & _ & _ & Hsd & Hcd).
  repeat split; auto; congruence.
Qed.

(** C2: with skip-unused-stages on, MakeKanikoStages returns, in index
    order, exactly the positions [j <= t] whose final counts
    stage_refs[j] + copy_refs[j] are positive (the counts after the
    optional squash pass), each with save-stage set to stage_refs[j] > 0;
    positions with both counts zero are absent, and the target keeps a
    positive stage_refs count, so it is always returned. *)
Theorem pruned_stages_have_references R P Res env opts stages metaArgs out :
  SkipUnusedStages opts = true ->
  MakeKanikoStages R P Res env opts stages metaArgs = Ok out ->
  exists t stages' st,
    planCounts R P Res opts stages metaArgs = Ok (t, stages', st) /\
    let st' := if squashEnabled env opts then squashPass st else st in
    out = map (fun j => withSaveStage (nth j (kanikoStages st') zeroKStage)
                          (0 <? nth j (stagesDependencies st') 0))
              (filter (keep st') (seq 0 (S t))) /\
    (forall j, keep st' j = true <->
       0 < nth j (stagesDependencies st') 0 + nth j (copyDependencies st') 0) /\
    0 < nth t (stagesDependencies st') 0.
Proof.
  intros Hs H. destruct (make_skip_on _ _ _ _ _ _ _ _ Hs H) as [t [stages' [st [Hp ->]]]].
  exists t, stages', st. split; [exact Hp|].
  destruct (planCounts_inv R P Res _ _ _ _ _ _ Hp) as [Hn Inv].
  destruct (after_pass opts stages' t st (squashEnabled env opts) Hs Hn Inv) as [Hl Ht].
  cbv zeta in *. split; [|split].
  - rewrite prune_spec, Hl. reflexivity.
  - intros j. unfold keep. rewrite orb_true_iff, !Nat.ltb_lt. lia.
  - exact Ht.
Qed.

(** C1 (amended): save-stage records use as a FROM base, not COPY --from.
    With skip-unused-stages on, stage_refs[b] after the counting loop is
    1 for the target plus the number of planned stages whose locally
    stored base is [b]; the squash pass resets it to 0 for a base merged
    into its consumer; and the returned stages carry save-stage
    stage_refs[j] > 0, so a stage kept only by COPY --from has save-stage
    false. With skip-unused-stages off, every stage up to the target is
    returned, with save-stage true iff a later stage names it
    (lower-cased) as its FROM base. *)
Theorem save_stage_marks_from_bases R P Res env opts stages metaArgs out :
  MakeKanikoStages R P Res env opts stages metaArgs = Ok out ->
  exists t stages' st,
    planCounts R P Res opts stages metaArgs = Ok (t, stages', st) /\
    (SkipUnusedStages opts = true ->
       let st' := if squashEnabled env opts then squashPass st else st in
       (forall b, nth b (stagesDependencies st) 0 =
          (if b =? t then 1 else 0) + localBaseCount (kanikoStages st) b) /\
       (forall b, nth b (stagesDependencies st') 0 =
          if squashEnabled env opts && squashedIn st (seq 0 (S t)) b then 0
          else nth b (stagesDependencies st) 0) /\
       map SaveStage out =
         map (fun j => 0 <? nth j (stagesDependencies st') 0)
             (filter (keep st') (seq 0 (S t)))) /\
    (SkipUnusedStages opts = false ->
       length out = S t /\
       forall i, i < S t -> SaveStage (nth i out zeroKStage) = saveStage i stages').
Proof.
  intros H. pose proof H as H0. unfold MakeKanikoStages in H.
  apply bind_Ok in H as [[[t stages'] st] [Hp H]].
  exists t, stages', st. split; [exact Hp|]. split; intros Hs.
  - destruct (make_skip_on _ _ _ _ _ _ _ _ Hs H0) as [t1 [s1 [st1 [Hp1 ->]]]].
    rewrite Hp in Hp1. injection Hp1 as <- <- <-.
    destruct (pass_hyps _ _ _ _ _ _ _ _ _ Hp Hs)
      as (Hn & Hks1 & Hsd1 & Hloc & Hcnt & Hsdf & _).
    destruct (planCounts_inv R P Res _ _ _ _ _ _ Hp) as [_ Inv].
    destruct (after_pass opts stages' t st (squashEnabled env opts) Hs Hn Inv) as [Hl _].
    cbv zeta in *. split; [exact Hsdf|split].
    + intros b. destruct (squashEnabled env opts); [|reflexivity].
      destruct (squashPass_inv st (S t) Hks1 Hsd1 Hloc Hcnt) as (_ & _ & _ & _ & _ & Hsd').
      apply Hsd'.
    + rewrite prune_spec, Hl, map_map. reflexivity.
  - unfold squashEnabled in H. rewrite Hs in H. cbn [andb snd] in H. injection H as <-.
    destruct (planCounts_inv R P Res _ _ _ _ _ _ Hp) as [Hn Inv].
    destruct Inv as (Hk & _ & _ & _ & _ & Hns & _).
    split; [congruence|]. intros i Hi.
    destruct (Hns Hs i ltac:(lia) ltac:(lia)) as (_ & _ & Hsave). exact Hsave.
Qed.

(** C3 (amended): when the squash flag is on, MakeKanikoStages returns the
    compaction of the squash pass. For a position [s <= t] with planned
    stage [k] and base index [b], the pass merges the stage at [b] into
    [s] exactly when stage_refs[s] > 0 (counts before the pass), [k]'s
    base is stored locally, stage_refs[b] = 1 and copy_refs[b] = 0. Then
    [b < s]; the merged stage takes the base name, platform and base-image
    index of the stage at [b] (already merged itself when its own base was
    squashed) and its instructions without ONBUILD ones followed by [k]'s;
    stage_refs[b] becomes 0, [b] is dropped, and no returned stage uses [b]
    as its local base or names it in COPY --from. Otherwise [s] keeps [k]. *)
Theorem squash_merges_single_use_base R P Res env opts stages metaArgs t stages' st :
  planCounts R P Res opts stages metaArgs = Ok (t, stages', st) ->
  squashEnabled env opts = true ->
  let st' := squashPass st in
  MakeKanikoStages R P Res env opts stages metaArgs = Ok (prune st') /\
  forall s, s < S t ->
    let k := nth s (kanikoStages st) zeroKStage in
    let b := baseOf k in
    (squashFires st s = true ->
       let m := nth s (kanikoStages st') zeroKStage in
       let a := nth b (kanikoStages st') zeroKStage in
       b < s /\ m = squash a k /\
       BaseName (KStage m) = BaseName (KStage a) /\
       Platform (KStage m) = Platform (KStage a) /\
       BaseImageIndex m = BaseImageIndex a /\
       Commands (KStage m) = filterOnBuild (Commands (KStage a)) ++ Commands (KStage k) /\
       nth b (stagesDependencies st') 0 = 0 /\ keep st' b = false /\
       (forall k', In k' (prune st') ->
          usesBase b k' = false /\ refsTo (stageByName stages') (Commands (KStage k')) b = 0)) /\
    (squashFires st s = false -> nth s (kanikoStages st') zeroKStage = k).
Proof.
  intros Hp He. cbv zeta. split; [exact (make_squash_on _ _ _ _ _ _ _ _ _ _ Hp He)|].
  assert (Hs : SkipUnusedStages opts = true)
    by (unfold squashEnabled in He; apply andb_true_iff in He; tauto).
  destruct (pass_hyps _ _ _ _ _ _ _ _ _ Hp Hs)
    as (Hn & Hks1 & Hsd1 & Hloc & Hcnt & _ & Hcd).
  destruct (squashPass_inv st (S t) Hks1 Hsd1 Hloc Hcnt)
    as (Hk' & _ & Hc' & _ & Hlt & Hsd').
  intros s Hsl. split.
  - intros Hf.
    destruct (fires_base st (S t) Hks1 Hsd1 Hloc Hcnt s Hf) as (_ & _ & _ & Hbs & _ & Hcd0).
    assert (Hm : nth s (kanikoStages (squashPass st)) zeroKStage =
      squash (nth (baseOf (nth s (kanikoStages st) zeroKStage)) (kanikoStages (squashPass st))
                zeroKStage) (nth s (kanikoStages st) zeroKStage))
      by (rewrite (Hlt s Hsl), Hf; reflexivity).
    rewrite Hm.
    assert (Hsb : nth (baseOf (nth s (kanikoStages st) zeroKStage))
                    (stagesDependencies (squashPass st)) 0 = 0).
    { rewrite Hsd'. replace (squashedIn st (seq 0 (S t)) _) with true; [reflexivity|].
      symmetry. apply existsb_exists. exists s. split; [apply in_seq; lia|].
      rewrite Hf, Nat.eqb_refl. reflexivity. }
    refine (conj Hbs (conj eq_refl (conj eq_refl (conj eq_refl (conj eq_refl
      (conj eq_refl (conj Hsb (conj _ _)))))))).
    + unfold keep. rewrite Hsb, Hc', Hcd0. reflexivity.
    + intros k' Hin. rewrite prune_spec, Hk' in Hin.
      apply in_map_iff in Hin as [j [<- Hj]].
      apply filter_In in Hj as [Hj _]. apply in_seq in Hj.
      split.
      * exact (squash_no_base_use st (S t) Hks1 Hsd1 Hloc Hcnt s j Hf ltac:(lia)).
      * exact (squash_no_copy_ref st (S t) Hks1 Hsd1 Hloc Hcnt _ s j Hcd Hf ltac:(lia)).
  - intros Hf. rewrite (Hlt s Hsl), Hf. reflexivity.
Qed.

End PlannerTheorems.

(** ** The planner theorems at concrete Dockerfiles *)
Module PlannerWitnesses.
Import Dockerfile Planner Counting Examples PlannerTheorems.

(** C2 at the chain a / b FROM a / FROM b: one stage is returned, and
    the target's stage_refs count is positive. *)
Lemma pruned_stages_have_references_witness :
  SkipUnusedStages defaultOpts = true /\
  exists out, makeStages defaultOpts dfChain = Ok out /\ length out = 1 /\
    exists t stages' st, counts defaultOpts dfChain = Ok (t, stages', st) /\
      0 < nth t (stagesDependencies (squashPass st)) 0.
Proof.
  split; [reflexivity|].
  exists (prune (squashPass (snd chainState))).
  assert (Hm : makeStages defaultOpts dfChain = Ok (prune (squashPass (snd chainState))))
    by (vm_compute; reflexivity).
  split; [exact Hm|]. split; [vm_compute; reflexivity|].
  pose proof (pruned_stages_have_references noRemote noParse noResolve noEnv defaultOpts
                dfChain [] _ eq_refl Hm) as H.
  destruct H as [t [s' [st [Hp HH]]]]. cbv zeta in HH. destruct HH as [_ [_ Ht]].
  exists t, s', st. split; [exact Hp|].
  change (squashEnabled noEnv defaultOpts) with true in Ht. exact Ht.
Defined.

(** C1 at FROM scratch AS a / FROM scratch + COPY --from=a: stage a is
    returned with save-stage false, its stage_refs count being 0. *)
Lemma save_stage_marks_from_bases_witness :
  exists out, makeStages defaultOpts dfCopyByName = Ok out /\
    map SaveStage out = [false; true] /\
    exists t stages' st, counts defaultOpts dfCopyByName = Ok (t, stages', st) /\
      nth 0 (stagesDependencies st) 0 =
        (if 0 =? t then 1 else 0) + localBaseCount (kanikoStages st) 0.
Proof.
  exists (match makeStages defaultOpts dfCopyByName with Ok o => o | _ => [] end).
  assert (Hm : makeStages defaultOpts dfCopyByName =
    Ok (match makeStages defaultOpts dfCopyByName with Ok o => o | _ => [] end))
    by (vm_compute; reflexivity).
  split; [exact Hm|]. split; [vm_compute; reflexivity|].
  pose proof (save_stage_marks_from_bases noRemote noParse noResolve noEnv defaultOpts
                dfCopyByName [] _ Hm) as H.
  destruct H as [t [s' [st [Hp [Hon _]]]]].
  exists t, s', st. split; [exact Hp|].
  destruct (Hon eq_refl) as [Hsd _]. apply Hsd.
Defined.

(** C3 at the chain a / b FROM a / FROM b: the counts exist, the squash
    flag is on, and the planner returns the compaction of the pass. *)
Lemma squash_merges_single_use_base_witness :
  counts defaultOpts dfChain = Ok chainState /\
  squashEnabled noEnv defaultOpts = true /\
  makeStages defaultOpts dfChain = Ok (prune (squashPass (snd chainState))) /\
  squashFires (snd chainState) 2 = true.
Proof.
  assert (Hc : counts defaultOpts dfChain =
    Ok (fst (fst chainState), snd (fst chainState), snd chainState))
    by (vm_compute; reflexivity).
  assert (He : squashEnabled noEnv defaultOpts = true) by (vm_compute; reflexivity).
  split; [vm_compute; reflexivity|]. split; [exact He|]. split; [|vm_compute; reflexivity].
  exact (proj1 (squash_merges_single_use_base noRemote noParse noResolve noEnv defaultOpts
                  dfChain [] _ _ _ Hc He)).
Defined.

End PlannerWitnesses.

(** ** The directory swap and the cache mount *)
Module RunProofs.
Import RunCmd.

Definition swapped (f : FS) (a b : string) : FS :=
  fun q => if String.eqb q a then f b else if String.eqb q b then f a else f q.

Lemma eqb_false (a b : string) : a <> b -> String.eqb a b = false.
Proof. apply String.eqb_neq. Qed.


Lemma swapDir_ok (tmp a b : string) (w : World) (ca cb : Content) :
  a <> EmptyString -> b <> EmptyString -> a <> b -> a <> tmp -> b <> tmp ->
  fs w a = Some ca -> fs w b = Some cb -> fs w tmp = None ->
  exists f', swapDir tmp a b w =
             (Done tt, mkWorld f' (log w ++ [EvRename a tmp; EvRename b a; EvRename tmp b]))
          /\ forall q, f' q = swapped (fs w) a b q.
Proof.
  intros Ha Hb Hab Hat Hbt Hca Hcb Ht.
  assert (Hba : b <> a) by congruence.
  assert (Hta : tmp <> a) by congruence.
  assert (Htb : tmp <> b) by congruence.
  unfold swapDir. rewrite (eqb_false _ _ Ha), (eqb_false _ _ Hb). cbn [orb].
  unfold mbind, wrapErr, osRename at 1, rename.
  rewrite Hca, Ht.
  unfold osRename, rename; cbn [fs log]; unfold upd; cbv beta.
  repeat (cbn [fs log]; cbv beta;
          rewrite ?(eqb_false _ _ Hba), ?(eqb_false _ _ Hbt), ?(eqb_false _ _ Hta),
            ?(eqb_false _ _ Htb), ?(eqb_false _ _ Hab), ?(eqb_false _ _ Hat),
            ?String.eqb_refl, ?Hcb, ?Ht).
  eexists. split.
  - rewrite <- !app_assoc. reflexivity.
  - intros q. unfold swapped, upd.
    destruct (String.eqb_spec q b), (String.eqb_spec q tmp), (String.eqb_spec q a);
      subst; congruence.
Qed.




Lemma mkdirAll_makes (dirOf : string -> string) (f : FS) (p : string) :
  mkdirAll dirOf f p p <> None.
Proof.
  unfold mkdirAll. cbn [mkdirAllFrom].
  destruct (f p) eqn:E; [congruence|].
  unfold upd. rewrite String.eqb_refl. discriminate.
Qed.

Lemma firstMissing_present (dirOf : string -> string) (fuel : nat) (f : FS) (p : string) :
  f p <> None -> firstMissing dirOf (S fuel) f p EmptyString = EmptyString.
Proof. cbn [firstMissing]. destruct (f p); congruence. Qed.



Lemma swapped_at_a (f : FS) (a b : string) : swapped f a b a = f b.
Proof. unfold swapped. rewrite String.eqb_refl. reflexivity. Qed.




(** With the feature flag on, some RUN flag used and the flags expanded,
    runCommandWithFlags is the mount loop over the cache targets. *)
Lemma runCommandWithFlags_on (dirOf : string -> string) (mf : FS -> string -> option (string * FS))
    (clean : string -> string) (join : string -> string -> string)
    (sha256hex : string -> string) (cacheRoot tmp : string)
    (runChild : FS -> ChildResult * FS) (env : Config.Environ) (FlagsUsed : list string)
    (mounts : list Mount) :
  Config.EnvBoolDefault env "FF_KANIKO_RUN_MOUNT_CACHE" true = true -> FlagsUsed <> [] ->
  runCommandWithFlags dirOf mf clean join sha256hex cacheRoot tmp runChild env FlagsUsed None mounts =
  cacheMountLoop dirOf mf clean join sha256hex cacheRoot tmp runChild (cacheTargets mounts).
Proof.
  intros Hff Hfl. unfold runCommandWithFlags. rewrite Hff.
  destruct FlagsUsed; [congruence|]. reflexivity.
Qed.










End RunProofs.

Module RunWitnesses.
Import RunCmd RunExamples RunMoreExamples RunProofs.





End RunWitnesses.

(** ** The cache warmer *)
Module WarmerProofs.
Import Warmer WarmExamples.

(** C7 fails with --force: for a digest reference to an image in the cache,
    Warm does not look in the cache, looks the image up remotely and
    downloads it again. *)
Lemma warm_force_skips_cache :
  exParse exImage = Some (RefDigest "sha256:aaaa") /\
  exLocal "sha256:aaaa" = LHit /\
  Warm exParse exLocal exRemote exTar exManifestWrite exImage (mkWarmerOptions true) =
    (WarmOk "sha256:aaaa", [RemoteLookup exImage; TarWrite; ManifestWrite]).
Proof. refine (conj eq_refl (conj eq_refl _)). vm_compute. reflexivity. Qed.

Lemma writeImage_no_lookup tarWrite manifestWrite ref img digest e :
  In e (snd (writeImage tarWrite manifestWrite ref img digest)) ->
  e = TarWrite \/ e = ManifestWrite.
Proof.
  unfold writeImage.
  destruct (tarWrite ref img); cbn [negb];
    [destruct (imgManifest img); [destruct (manifestWrite s)|]|]; cbn [negb snd In];
    intuition.
Qed.

Lemma writeImage_not_cached tarWrite manifestWrite ref img digest :
  fst (writeImage tarWrite manifestWrite ref img digest) <> AlreadyCached.
Proof.
  unfold writeImage.
  destruct (tarWrite ref img); cbn [negb];
    [destruct (imgManifest img); [destruct (manifestWrite s)|]|]; cbn [negb fst];
    discriminate.
Qed.

(** C7 (amended). Without --force: for a digest reference d, a cached (or
    expired) entry makes Warm answer AlreadyCached after the one local
    lookup and no remote one; on a miss Warm looks the image up remotely
    and, when the resolved digest d' differs from d, looks up d' locally,
    answering AlreadyCached on a hit and downloading the image otherwise;
    when d' equals d it takes the first miss as the answer without a
    second local lookup and downloads the image. Downloading makes no
    lookup. With --force: Warm makes no local lookup and never answers
    AlreadyCached; its first call is the remote lookup, and when that
    gives an image with a digest, the image is downloaded. *)
Theorem warm_digest_lookup parseReference Local Remote tarWrite manifestWrite
    (image d : string) :
  parseReference image = Some (RefDigest d) ->
  let warm := Warm parseReference Local Remote tarWrite manifestWrite image
                (mkWarmerOptions false) in
  (isCached (Local d) = true -> warm = (AlreadyCached, [LocalLookup d])) /\
  (isCached (Local d) = false -> d <> EmptyString ->
   forall img d', Remote image = Some img -> imgDigest img = Some d' ->
     (d' <> d ->
        warm = if isCached (Local d')
               then (AlreadyCached, [LocalLookup d; RemoteLookup image; LocalLookup d'])
               else let '(res, tr) := writeImage tarWrite manifestWrite (RefDigest d) img d' in
                    (res, [LocalLookup d; RemoteLookup image; LocalLookup d'] ++ tr)) /\
     (d' = d ->
        warm = let '(res, tr) := writeImage tarWrite manifestWrite (RefDigest d) img d in
               (res, [LocalLookup d; RemoteLookup image] ++ tr))) /\
  (forall ref img digest e,
     In e (snd (writeImage tarWrite manifestWrite ref img digest)) ->
     e = TarWrite \/ e = ManifestWrite) /\
  (let warmF := Warm parseReference Local Remote tarWrite manifestWrite image
                  (mkWarmerOptions true) in
   (forall key, ~ In (LocalLookup key) (snd warmF)) /\
   fst warmF <> AlreadyCached /\
   hd_error (snd warmF) = Some (RemoteLookup image) /\
   (forall img d', Remote image = Some img -> imgDigest img = Some d' ->
      warmF = let '(res, tr) := writeImage tarWrite manifestWrite (RefDigest d) img d' in
              (res, RemoteLookup image :: tr))).
Proof.
  intros Hp warm.
  refine (conj _ (conj _ (conj (writeImage_no_lookup tarWrite manifestWrite) _))).
  3:{ intros warmF.
      assert (E : warmF =
        match Remote image with
        | None => (WarmErr "failed to retrieve image", [RemoteLookup image])
        | Some img =>
            match imgDigest img with
            | None => (WarmErr "failed to retrieve digest", [RemoteLookup image])
            | Some dg => let '(res, tr) := writeImage tarWrite manifestWrite (RefDigest d) img dg in
                         (res, RemoteLookup image :: tr)
            end
        end).
      { unfold warmF, Warm. rewrite Hp. cbn [Force negb app].
        destruct (Remote image) as [img|]; [|reflexivity].
        destruct (imgDigest img) as [dg|]; [|reflexivity].
        cbn [andb]. destruct (writeImage tarWrite manifestWrite (RefDigest d) img dg).
        reflexivity. }
      rewrite E.
      destruct (Remote image) as [img|].
      2:{ split; [intros key [H|[]]; discriminate|].
          split; [discriminate|]. split; [reflexivity|]. intros img d' H. discriminate. }
      destruct (imgDigest img) as [dg|] eqn:Hdg.
      2:{ split; [intros key [H|[]]; discriminate|].
          split; [discriminate|]. split; [reflexivity|]. intros img' d' H1 H2. congruence. }
      pose proof (writeImage_no_lookup tarWrite manifestWrite (RefDigest d) img dg) as Hno.
      pose proof (writeImage_not_cached tarWrite manifestWrite (RefDigest d) img dg) as Hnc.
      destruct (writeImage tarWrite manifestWrite (RefDigest d) img dg) as [res tr] eqn:Ew.
      cbn [fst snd] in Hno, Hnc |- *.
      split; [intros key [H|H]; [discriminate|destruct (Hno _ H); discriminate]|].
      split; [exact Hnc|]. split; [reflexivity|].
      intros img' d' H1 H2. injection H1 as <-. rewrite Hdg in H2. injection H2 as <-.
      rewrite Ew. reflexivity. }
  - intros Hc. unfold warm, Warm. rewrite Hp. cbn [Force negb]. rewrite Hc. reflexivity.
  - intros Hc Hd img d' Hr Hdg.
    unfold warm, Warm. rewrite Hp. cbn [Force negb]. rewrite Hc, Hr, Hdg.
    rewrite (proj2 (String.eqb_neq d EmptyString) Hd). cbn [negb andb].
    split.
    + intros Hne. rewrite (proj2 (String.eqb_neq d' d) Hne). cbn [app].
      destruct (isCached (Local d')); cbn [negb andb]; [reflexivity|].
      destruct (writeImage tarWrite manifestWrite (RefDigest d) img d'). reflexivity.
    + intros ->. rewrite String.eqb_refl. rewrite Hc. cbn [negb andb app].
      destruct (writeImage tarWrite manifestWrite (RefDigest d) img d). reflexivity.
Qed.

End WarmerProofs.

Module WarmerWitnesses.
Import Warmer WarmExamples WarmerProofs.

(** C7 at a digest reference to the cached manifest sha256:aaaa: one local
    lookup and AlreadyCached. *)
Lemma warm_digest_lookup_witness :
  exParse exImage = Some (RefDigest "sha256:aaaa") /\
  Warm exParse exLocal exRemote exTar exManifestWrite exImage (mkWarmerOptions false) =
    (AlreadyCached, [LocalLookup "sha256:aaaa"]).
Proof.
  split; [reflexivity|].
  exact (proj1 (warm_digest_lookup exParse exLocal exRemote exTar exManifestWrite exImage
                  "sha256:aaaa" eq_refl) eq_refl).
Defined.

End WarmerWitnesses.


(** ** Dockerfile helpers: stage lookup, cross-stage references, ONBUILD and ARG quotes *)
Module DockerfileMoreProofs.
Import GoStrings Dockerfile Planner DockerfileMore.

Lemma itoaAux_digits (f n : nat) (acc : string) (a : Z) :
  n < f ->
  exists k, digitsVal (itoaAux f n acc) a = digitsVal acc (a * 10 ^ Z.of_nat k + Z.of_nat n)%Z
         /\ (1 <= k)%nat.
Proof.
  revert n acc a. induction f as [|f IH]; intros n acc a Hn; [lia|].
  cbn [itoaAux].
  assert (Hd : isDigit (ascii_of_nat (48 + n mod 10)) = true /\
               nat_of_ascii (ascii_of_nat (48 + n mod 10)) - 48 = n mod 10).
  { assert (n mod 10 < 10) by (apply Nat.mod_upper_bound; lia).
    rewrite nat_ascii_embedding by lia. unfold isDigit.
    rewrite nat_ascii_embedding by lia. split; [|lia].
    apply andb_true_intro; split; apply Nat.leb_le; lia. }
  destruct Hd as [Hd1 Hd2].
  destruct (n <? 10) eqn:E.
  - apply Nat.ltb_lt in E. exists 1. split; [|lia].
    cbn [digitsVal]. rewrite Hd1, Hd2. rewrite Nat.mod_small by lia.
    f_equal.
  - apply Nat.ltb_ge in E.
    destruct (IH (n / 10) (String (ascii_of_nat (48 + n mod 10)) acc) a) as [k [Hk Hk1]].
    { assert (n / 10 < n) by (apply Nat.div_lt; lia). lia. }
    exists (S k). split; [|lia].
    rewrite Hk. cbn [digitsVal]. rewrite Hd1, Hd2. f_equal.
    rewrite (Nat.div_mod_eq n 10) at 3.
    rewrite Nat2Z.inj_succ, Z.pow_succ_r by lia.
    rewrite Nat2Z.inj_add, Nat2Z.inj_mul, Nat2Z.inj_mod, Nat2Z.inj_div. lia.
Qed.

Lemma itoaAux_head (f n : nat) (acc : string) :
  n < f -> exists c r, itoaAux f n acc = String c r /\ isDigit c = true.
Proof.
  revert n acc. induction f as [|f IH]; intros n acc Hn; [lia|].
  cbn [itoaAux]. destruct (n <? 10) eqn:E.
  - eexists _, _. split; [reflexivity|].
    assert (n mod 10 < 10) by (apply Nat.mod_upper_bound; lia).
    unfold isDigit. rewrite nat_ascii_embedding by lia.
    apply andb_true_intro; split; apply Nat.leb_le; lia.
  - apply Nat.ltb_ge in E. apply IH.
    assert (n / 10 < n) by (apply Nat.div_lt; lia). lia.
Qed.

Lemma Atoi_Itoa (n : nat) :
  (Z.of_nat n < 2 ^ 63)%Z -> Atoi (Itoa n) = Some (Z.of_nat n).
Proof.
  intros Hb. unfold Itoa.
  destruct (itoaAux_digits (S n) n EmptyString 0 ltac:(lia)) as [k [Hk _]].
  destruct (itoaAux_head (S n) n EmptyString ltac:(lia)) as [c [r [Hs Hc]]].
  unfold Atoi. rewrite Hs.
  assert (Hp : Ascii.eqb c "+"%char = false /\ Ascii.eqb c "-"%char = false).
  { unfold isDigit in Hc. apply andb_true_iff in Hc as [H1 H2].
    apply Nat.leb_le in H1, H2.
    split; apply Ascii.eqb_neq; intros ->; cbv in H1, H2; lia. }
  destruct Hp as [-> ->]. rewrite <- Hs, Hk. cbn [digitsVal].
  rewrite Z.mul_0_l, Z.add_0_l.
  replace ((- 2 ^ 63 <=? Z.of_nat n)%Z && (Z.of_nat n <=? 2 ^ 63 - 1)%Z) with true.
  - reflexivity.
  - symmetry. apply andb_true_intro; split; apply Z.leb_le; lia.
Qed.

Lemma copyFromRef_Itoa byName v :
  (Z.of_nat v < 2 ^ 63)%Z -> copyFromRef byName (Itoa v) = Some (Z.of_nat v).
Proof. intros Hb. unfold copyFromRef. rewrite Atoi_Itoa by exact Hb. reflexivity. Qed.

(** How one command relates to its resolved form under the stage-name map [m]. *)
Definition resolvedCmd (m : string -> option nat) (c c' : Command) : Prop :=
  (c' = c /\ forall from rest, c = CopyCommand from rest ->
               from = EmptyString \/ m (ToLower from) = None) \/
  (exists from rest v, c = CopyCommand from rest /\ from <> EmptyString /\
     m (ToLower from) = Some v /\ c' = CopyCommand (Itoa v) rest /\
     forall byName, copyFromRef byName (Itoa v) = Some (Z.of_nat v)).

Theorem ResolveCrossStageCommands_spec (cmds : list Command) (m : string -> option nat) :
  (forall k v, m k = Some v -> (Z.of_nat v < 2 ^ 63)%Z) ->
  Forall2 (resolvedCmd m) cmds (ResolveCrossStageCommands cmds m).
Proof.
  intros Hm. unfold ResolveCrossStageCommands.
  induction cmds as [|c r IH]; constructor; [|exact IH].
  unfold resolvedCmd.
  destruct c as [from rest|e|t]; cbn [resolveCrossStageCmd].
  - destruct (String.eqb_spec from EmptyString) as [->|Hne].
    + left. split; [reflexivity|]. intros f r' H. injection H as <- <-. left; reflexivity.
    + destruct (m (ToLower from)) as [v|] eqn:E.
      * right. exists from, rest, v. refine (conj eq_refl (conj Hne (conj E (conj eq_refl _)))).
        intros byName. apply copyFromRef_Itoa. exact (Hm _ _ E).
      * left. split; [reflexivity|]. intros f r' H. injection H as <- <-. right; exact E.
  - left. split; [reflexivity|]. discriminate.
  - left. split; [reflexivity|]. discriminate.
Qed.

Lemma findStage_spec stages target k :
  match findStage stages target k with
  | Some j => k <= j < k + length stages /\
              EqualFold (Name (nth (j - k) stages zeroStage)) target = true /\
              forall j', j' < j - k -> EqualFold (Name (nth j' stages zeroStage)) target = false
  | None => forall s, In s stages -> EqualFold (Name s) target = false
  end.
Proof.
  revert k. induction stages as [|s r IH]; intros k; cbn [findStage].
  - intros s []. 
  - destruct (EqualFold (Name s) target) eqn:E.
    + rewrite Nat.sub_diag. cbn [length nth]. split; [lia|]. split; [exact E|]. lia.
    + specialize (IH (S k)). destruct (findStage r target (S k)) as [j|].
      * destruct IH as (H1 & H2 & H3). cbn [length].
        split; [lia|].
        replace (j - k) with (S (j - S k)) by lia. cbn [nth]. split; [exact H2|].
        intros [|j'] Hj; cbn [nth]; [exact E|]. apply H3. lia.
      * intros s' [<-|Hin]; [exact E|]. exact (IH s' Hin).
Qed.

Theorem targetStage_spec (stages : list Stage) (target : string) :
  (target = EmptyString -> targetStage stages target = Ok (Z.of_nat (length stages) - 1)%Z) /\
  (target <> EmptyString ->
   match targetStage stages target with
   | Ok t => exists i, t = Z.of_nat i /\ i < length stages /\
               EqualFold (Name (nth i stages zeroStage)) target = true /\
               forall j, j < i -> EqualFold (Name (nth j stages zeroStage)) target = false
   | Err _ => forall s, In s stages -> EqualFold (Name s) target = false
   | Panic _ => False
   end).
Proof.
  split.
  - intros ->. reflexivity.
  - intros Hne. unfold targetStage.
    rewrite (proj2 (String.eqb_neq target EmptyString) Hne).
    pose proof (findStage_spec stages target 0) as H.
    destruct (findStage stages target 0) as [j|].
    + destruct H as (H1 & H2 & H3). rewrite Nat.sub_0_r in H2, H3.
      exists j. split; [reflexivity|]. split; [lia|]. split; [exact H2|]. exact H3.
    + exact H.
Qed.

Lemma baseIndexFrom_spec name stages k cur :
  let r := baseIndexFrom name stages k cur in
  (r = (-1)%Z /\ forall j, k + j < cur -> j < length stages ->
                 Name (nth j stages zeroStage) <> name) \/
  (exists j, r = Z.of_nat (k + j) /\ k + j < cur /\ j < length stages /\
     Name (nth j stages zeroStage) = name /\
     forall j', j' < j -> Name (nth j' stages zeroStage) <> name).
Proof.
  revert k. induction stages as [|s rest IH]; intros k; cbn [baseIndexFrom].
  - left. split; [reflexivity|]. cbn [length]. lia.
  - destruct (cur <=? k) eqn:Ec.
    + left. split; [reflexivity|]. apply Nat.leb_le in Ec. lia.
    + apply Nat.leb_gt in Ec.
      destruct (String.eqb_spec (Name s) name) as [Hn|Hn].
      * right. exists 0. rewrite Nat.add_0_r. cbn [length nth].
        split; [reflexivity|]. split; [exact Ec|]. split; [lia|]. split; [exact Hn|]. lia.
      * destruct (IH (S k)) as [[H1 H2]|(j & H1 & H2 & H3 & H4 & H5)].
        -- left. split; [exact H1|]. intros [|j] Hj Hl; cbn [nth]; [exact Hn|].
           apply H2; cbn [length] in Hl; lia.
        -- right. exists (S j). replace (k + S j) with (S k + j) by lia.
           rewrite H1. cbn [length nth].
           split; [reflexivity|]. split; [lia|]. split; [lia|]. split; [exact H4|].
           intros [|j'] Hj'; cbn [nth]; [exact Hn|]. apply H5. lia.
Qed.

Theorem baseImageIndex_spec (cur : nat) (stages : list Stage) :
  cur < length stages ->
  let name := ToLower (BaseName (nth cur stages zeroStage)) in
  (baseImageIndex cur stages = (-1)%Z /\
     forall j, j < cur -> Name (nth j stages zeroStage) <> name) \/
  (exists j, baseImageIndex cur stages = Z.of_nat j /\ j < cur /\
     Name (nth j stages zeroStage) = name /\
     forall j', j' < j -> Name (nth j' stages zeroStage) <> name).
Proof.
  intros Hc name. unfold baseImageIndex. fold name.
  destruct (baseIndexFrom_spec name stages 0 cur) as [[H1 H2]|(j & H1 & H2 & H3 & H4 & H5)].
  - left. split; [exact H1|]. intros j Hj. apply H2; lia.
  - right. exists j. rewrite H1. split; [reflexivity|]. split; [lia|]. split; assumption.
Qed.

Fixpoint findLast (l : list Stage) (k : string) : option nat :=
  match l with
  | [] => None
  | s :: r => match findLast r k with
              | Some j => Some (S j)
              | None => if negb (String.eqb k EmptyString) && String.eqb (Name s) k
                        then Some 0 else None
              end
  end.

Lemma stageByNameFrom_findLast stages o m k :
  stageByNameFrom stages o m k =
  match findLast stages k with Some j => Some (o + j) | None => m k end.
Proof.
  revert o m. induction stages as [|s r IH]; intros o m; [reflexivity|].
  cbn [stageByNameFrom findLast]. rewrite IH.
  destruct (findLast r k) as [j|]; [f_equal; lia|].
  repeat match goal with |- context [String.eqb ?a ?b] => destruct (String.eqb_spec a b) end;
    cbn [negb andb]; subst; try congruence; f_equal; lia.
Qed.

Lemma findLast_spec l k :
  match findLast l k with
  | Some j => k <> EmptyString /\ j < length l /\ Name (nth j l zeroStage) = k /\
              forall j', j < j' -> j' < length l -> Name (nth j' l zeroStage) <> k
  | None => forall j, j < length l -> k = EmptyString \/ Name (nth j l zeroStage) <> k
  end.
Proof.
  induction l as [|s r IH]; cbn [findLast].
  - cbn [length]. lia.
  - destruct (findLast r k) as [j|].
    + destruct IH as (H1 & H2 & H3 & H4). cbn [length nth].
      split; [exact H1|]. split; [lia|]. split; [exact H3|].
      intros [|j'] Hj Hl; [lia|]. apply H4; lia.
    + destruct (String.eqb_spec k EmptyString) as [Hk|Hk]; cbn [negb andb].
      * intros j _. left. exact Hk.
      * destruct (String.eqb_spec (Name s) k) as [Hn|Hn].
        -- cbn [length nth]. split; [exact Hk|]. split; [lia|]. split; [exact Hn|].
           intros [|j'] Hj Hl; [lia|]. destruct (IH j' ltac:(lia)); congruence.
        -- intros [|j] Hj; cbn [nth]; [right; exact Hn|]. apply IH. cbn [length] in Hj. lia.
Qed.

Theorem stageByName_spec (stages : list Stage) (k : string) (i : nat) :
  stageByName stages k = Some i <->
  k <> EmptyString /\ i < length stages /\ Name (nth i stages zeroStage) = k /\
  forall j, i < j -> j < length stages -> Name (nth j stages zeroStage) <> k.
Proof.
  unfold stageByName. rewrite stageByNameFrom_findLast.
  pose proof (findLast_spec stages k) as H.
  destruct (findLast stages k) as [j|]; cbn [Nat.add].
  - split.
    + intros E. injection E as <-. exact H.
    + intros (H1 & H2 & H3 & H4). destruct H as (_ & G2 & G3 & G4). f_equal.
      destruct (Nat.lt_trichotomy i j) as [Hl|[He|Hl]]; [|exact (eq_sym He)|].
      * exfalso. exact (H4 j Hl G2 G3).
      * exfalso. exact (G4 i Hl H2 H3).
  - split; [discriminate|].
    intros (H1 & H2 & H3 & _). destruct (H i H2); contradiction.
Qed.

Lemma extractValFromQuotes_no_panic v p : extractValFromQuotes v <> Panic p.
Proof.
  unfold extractValFromQuotes.
  repeat match goal with |- context [if ?c then _ else _] => destruct c end; discriminate.
Qed.

Definition argStripped (a a' : KeyValuePairOptional) : Prop :=
  Key a' = Key a /\
  match Value a with
  | None => Value a' = None
  | Some v => exists v', extractValFromQuotes v = Ok v' /\ Value a' = Some v'
  end.

Definition badArg (a : KeyValuePairOptional) : Prop :=
  exists v e, Value a = Some v /\ extractValFromQuotes v = Err e.

Lemma stripArgs_spec args :
  (forall out, stripArgs args = Ok out -> Forall2 argStripped args out) /\
  ((exists e, stripArgs args = Err e) <-> exists a, In a args /\ badArg a) /\
  (forall p, stripArgs args <> Panic p).
Proof.
  induction args as [|a r (IH1 & IH2 & IH3)]; cbn [stripArgs].
  - split; [intros out E; injection E as <-; constructor|].
    split; [split; [intros [e E]; discriminate | intros (a & [] & _)]|discriminate].
  - destruct (Value a) as [v|] eqn:Hv.
    + destruct (extractValFromQuotes v) as [v'|e|p] eqn:Ex.
      * cbn [bind]. destruct (stripArgs r) as [r'|e|p] eqn:Er; cbn [bind].
        -- split; [|split; [split; [intros [e E]; discriminate|]|discriminate]].
           ++ intros out E. injection E as <-. constructor; [|exact (IH1 _ eq_refl)].
              split; [reflexivity|]. rewrite Hv. exists v'. split; [exact Ex|reflexivity].
           ++ intros (a0 & [<-|Hin] & bad).
              ** destruct bad as (v0 & e & Hv0 & He). congruence.
              ** destruct (proj2 IH2 ltac:(exists a0; split; assumption)) as [e He]. discriminate.
        -- split; [discriminate|]. split; [|discriminate].
           split; [intros _|intros _; exists e; reflexivity].
           destruct (proj1 IH2 ltac:(exists e; reflexivity)) as (a0 & Hin & bad).
           exists a0. split; [right; exact Hin|exact bad].
        -- exfalso. exact (IH3 p eq_refl).
      * cbn [bind]. split; [discriminate|]. split; [|discriminate].
        split; [intros _|intros _; exists e; reflexivity].
        exists a. split; [left; reflexivity|]. exists v, e. split; assumption.
      * exfalso. exact (extractValFromQuotes_no_panic v p Ex).
    + cbn [bind]. destruct (stripArgs r) as [r'|e|p] eqn:Er; cbn [bind].
      * split; [|split; [split; [intros [e E]; discriminate|]|discriminate]].
        -- intros out E. injection E as <-. constructor; [|exact (IH1 _ eq_refl)].
           split; [reflexivity|]. rewrite Hv. reflexivity.
        -- intros (a0 & [<-|Hin] & bad).
           ++ destruct bad as (v0 & e & Hv0 & He). congruence.
           ++ destruct (proj2 IH2 ltac:(exists a0; split; assumption)) as [e He]. discriminate.
      * split; [discriminate|]. split; [|discriminate].
        split; [intros _|intros _; exists e; reflexivity].
        destruct (proj1 IH2 ltac:(exists e; reflexivity)) as (a0 & Hin & bad).
        exists a0. split; [right; exact Hin|exact bad].
      * exfalso. exact (IH3 p eq_refl).
Qed.

Theorem stripEnclosingQuotes_spec (metaArgs : list ArgCommand) :
  (forall out, stripEnclosingQuotes metaArgs = Ok out ->
     Forall2 (fun m m' => Forall2 argStripped (Args m) (Args m')) metaArgs out) /\
  ((exists e, stripEnclosingQuotes metaArgs = Err e) <->
     exists m a, In m metaArgs /\ In a (Args m) /\ badArg a) /\
  (forall p, stripEnclosingQuotes metaArgs <> Panic p).
Proof.
  induction metaArgs as [|m r (IH1 & IH2 & IH3)]; cbn [stripEnclosingQuotes].
  - split; [intros out E; injection E as <-; constructor|].
    split; [split; [intros [e E]; discriminate | intros (m & a & [] & _)]|discriminate].
  - destruct (stripArgs_spec (Args m)) as (S1 & S2 & S3).
    destruct (stripArgs (Args m)) as [args|e|p] eqn:Ea; cbn [bind].
    + destruct (stripEnclosingQuotes r) as [r'|e|p] eqn:Er; cbn [bind].
      * split; [|split; [split; [intros [e E]; discriminate|]|discriminate]].
        -- intros out E. injection E as <-.
           constructor; [exact (S1 _ eq_refl)|exact (IH1 _ eq_refl)].
        -- intros (m0 & a & [<-|Hin] & Ha & bad).
           ++ destruct (proj2 S2 ltac:(exists a; split; assumption)) as [e He]. discriminate.
           ++ destruct (proj2 IH2 ltac:(exists m0, a; split; [|split]; assumption)) as [e He].
              discriminate.
      * split; [discriminate|]. split; [|discriminate].
        split; [intros _|intros _; exists e; reflexivity].
        destruct (proj1 IH2 ltac:(exists e; reflexivity)) as (m0 & a & Hin & Ha & bad).
        exists m0, a. split; [right; exact Hin|split; assumption].
      * exfalso. exact (IH3 p eq_refl).
    + split; [discriminate|]. split; [|discriminate].
      split; [intros _|intros _; exists e; reflexivity].
      destruct (proj1 S2 ltac:(exists e; reflexivity)) as (a & Ha & bad).
      exists m, a. split; [left; reflexivity|split; assumption].
    + exfalso. exact (S3 p eq_refl).
Qed.

End DockerfileMoreProofs.

Module DockerfileMoreWitnesses.
Import GoStrings Dockerfile Planner DockerfileMore Examples DockerfileMoreProofs.
Lemma ResolveCrossStageCommands_spec_witness :
  (forall k v, stageByName dfCopyByName k = Some v -> (Z.of_nat v < 2 ^ 63)%Z) /\
  Forall2 (resolvedCmd (stageByName dfCopyByName)) [CopyCommand "A" "/x /x"]
    (ResolveCrossStageCommands [CopyCommand "A" "/x /x"] (stageByName dfCopyByName)).
Proof.
  assert (Hm : forall k v, stageByName dfCopyByName k = Some v -> (Z.of_nat v < 2 ^ 63)%Z).
  { intros k v H. unfold stageByName in H. cbn [dfCopyByName mkSt stageByNameFrom Name] in H.
    repeat match type of H with context [if ?c then _ else _] => destruct c end;
      try discriminate; injection H as <-; cbn; reflexivity. }
  split; [exact Hm|]. exact (ResolveCrossStageCommands_spec _ _ Hm).
Defined.

Lemma baseImageIndex_spec_witness :
  1 < length dfChain /\
  let name := ToLower (BaseName (nth 1 dfChain zeroStage)) in
  (baseImageIndex 1 dfChain = (-1)%Z /\
     forall j, j < 1 -> Name (nth j dfChain zeroStage) <> name) \/
  (exists j, baseImageIndex 1 dfChain = Z.of_nat j /\ j < 1 /\
     Name (nth j dfChain zeroStage) = name /\
     forall j', j' < j -> Name (nth j' dfChain zeroStage) <> name).
Proof.
  split; [cbn; lia|]. apply baseImageIndex_spec. cbn; lia.
Defined.

End DockerfileMoreWitnesses.


(** ** The base image of a stage: cachedImage and RetrieveSourceImage *)
Module SourcesProofs.
Import GoStrings Config Dockerfile Warmer Sources.

Section Lookups.
Variable parseReference : string -> option Ref.
Variable Local : string -> LocalResult.
Variable Remote : string -> option RemoteImage.

Lemma cachedImage_inl (image : string) (img : Image) (tr : list WEvent) :
  cachedImage parseReference Local Remote image = (inl img, tr) ->
  exists k, img = CachedImage k /\ Local k = LHit /\ In (LocalLookup k) tr.
Proof.
  unfold cachedImage.
  destruct (parseReference image) as [[k|t]|]; [| |discriminate].
  - destruct (Local k) eqn:Ek; cbn.
    + intros E. injection E as <- <-. exists k. split; [reflexivity|]. split; [exact Ek|left; reflexivity].
    + discriminate.
    + destruct (Remote image) as [ri|]; [|discriminate].
      destruct (imgDigest ri) as [d|]; [|discriminate].
      destruct (negb (String.eqb k EmptyString) && String.eqb d k); [discriminate|].
      destruct (Local d) eqn:Ed; try discriminate.
      intros E. injection E as <- <-. exists d. split; [reflexivity|]. split; [exact Ed|].
      right; right; left; reflexivity.
    + discriminate.
  - cbn. destruct (Remote image) as [ri|]; [|discriminate].
    destruct (imgDigest ri) as [d|]; [|discriminate].
    destruct (Local d) eqn:Ed; try discriminate.
    intros E. injection E as <- <-. exists d. split; [reflexivity|]. split; [exact Ed|].
    right; left; reflexivity.
Qed.

Ltac nodup_tac :=
  cbn [app snd]; repeat match goal with
  | |- NoDup [] => constructor
  | |- NoDup (_ :: _) =>
      constructor; [cbn [In]; let H := fresh in intros H;
                    repeat (destruct H as [H|H]); try discriminate; try contradiction|]
  end.

Theorem cachedImage_lookups_once (image : string) :
  (forall k, parseReference image = Some (RefDigest k) -> k <> EmptyString) ->
  NoDup (snd (cachedImage parseReference Local Remote image)).
Proof.
  intros Hne. unfold cachedImage.
  destruct (parseReference image) as [[k|t]|]; [| |constructor].
  - specialize (Hne k eq_refl).
    destruct (Local k) eqn:Ek; cbn; try nodup_tac.
    destruct (Remote image) as [ri|]; cbn; [|nodup_tac].
    destruct (imgDigest ri) as [d|]; cbn; [|nodup_tac].
    destruct (String.eqb_spec k EmptyString) as [Hk|Hk]; cbn [negb andb].
    + contradiction.
    + destruct (String.eqb_spec d k) as [Hd|Hd]; cbn; nodup_tac.
      match goal with H : LocalLookup _ = LocalLookup _ |- _ => injection H as -> end. congruence.
  - cbn. destruct (Remote image) as [ri|]; cbn; [|nodup_tac].
    destruct (imgDigest ri) as [d|]; cbn; nodup_tac.
Qed.

Theorem cachedImage_remote_lookup (image : string) :
  In (RemoteLookup image) (snd (cachedImage parseReference Local Remote image)) <->
  exists ref, parseReference image = Some ref /\
    forall k, ref = RefDigest k -> Local k = LNotFound.
Proof.
  unfold cachedImage.
  destruct (parseReference image) as [[k|t]|].
  - destruct (Local k) eqn:Ek; cbn.
    1,2,4: split; [intros [H|[]]; discriminate|];
           intros (ref & E & H); injection E as <-; rewrite (H k eq_refl) in Ek; discriminate.
    split; [intros _|intros _]; [exists (RefDigest k); split; [reflexivity|];
                                 intros k' E; injection E as <-; exact Ek|].
    destruct (Remote image) as [ri|]; cbn; [|right; left; reflexivity].
    destruct (imgDigest ri) as [d|]; cbn; [|right; left; reflexivity].
    destruct (negb (String.eqb k EmptyString) && String.eqb d k); cbn; right; left; reflexivity.
  - cbn. split; [intros _; exists (RefTag t); split; [reflexivity|discriminate]|intros _].
    destruct (Remote image) as [ri|]; cbn; [|left; reflexivity].
    destruct (imgDigest ri) as [d|]; cbn; left; reflexivity.
  - cbn. split; [intros []|intros (ref & E & _); discriminate].
Qed.

Theorem cachedImage_hit_sound (image : string) (img : Image) (tr : list WEvent) :
  cachedImage parseReference Local Remote image = (inl img, tr) ->
  exists k, img = CachedImage k /\ Local k = LHit /\ In (LocalLookup k) tr.
Proof. apply cachedImage_inl. Qed.

Variable resolveEnv : string -> list string -> result string.
Variable env : Environ.
Variable tarballImage : Z -> result Image.
Variable ociImage : Z -> result Image.

Abbreviation RSI := (RetrieveSourceImage parseReference Local Remote resolveEnv env tarballImage ociImage).

Theorem RetrieveSourceImage_cache_fallback (stage : KanikoStage) (opts : SourceOptions) :
  let noCache := mkSourceOptions false (CacheDir opts) (SrcBuildArgs opts) in
  fst (RSI stage opts) = fst (RSI stage noCache) \/
  exists k, fst (RSI stage opts) = Ok (CachedImage k) /\ Local k = LHit.
Proof.
  intros noCache. unfold RetrieveSourceImage. cbn [SrcBuildArgs Cache CacheDir noCache].
  destruct (resolveEnv _ _) as [b|e|m]; [|left; reflexivity|left; reflexivity].
  destruct (String.eqb b NoBaseImage); [left; reflexivity|].
  destruct (BaseImageStoredLocally stage); [left; reflexivity|].
  cbn [andb].
  destruct (Cache opts && negb (String.eqb (CacheDir opts) EmptyString)); [|left; reflexivity].
  destruct (cachedImage parseReference Local Remote b) as [[img|e] tr] eqn:Ec.
  - right. destruct (cachedImage_inl _ _ _ Ec) as (k & -> & Hk & _).
    exists k. split; [reflexivity|exact Hk].
  - left. reflexivity.
Qed.

Theorem expired_entry_not_refreshed (image k : string)
    (tarWrite : Ref -> RemoteImage -> bool) (manifestWrite : string -> bool)
    (stage : KanikoStage) (opts : SourceOptions) :
  parseReference image = Some (RefDigest k) -> Local k = LExpired ->
  Warm parseReference Local Remote tarWrite manifestWrite image (mkWarmerOptions false) =
    (AlreadyCached, [LocalLookup k]) /\
  cachedImage parseReference Local Remote image = (inr (LocalErr LExpired), [LocalLookup k]) /\
  (resolveEnv (BaseName (KStage stage)) (metaBuildArgs (MetaArgs stage) ++ SrcBuildArgs opts)
     = Ok image ->
   image <> NoBaseImage -> BaseImageStoredLocally stage = false ->
   Cache opts = true -> CacheDir opts <> EmptyString ->
   snd (RSI stage opts) = [LocalLookup k; RemoteLookup image]).
Proof.
  intros Hp Hk.
  assert (Hc : cachedImage parseReference Local Remote image = (inr (LocalErr LExpired), [LocalLookup k])).
  { unfold cachedImage. rewrite Hp, Hk. reflexivity. }
  split; [unfold Warm; rewrite Hp; cbn; rewrite Hk; reflexivity|].
  split; [exact Hc|].
  intros Hr Hn Hs Hca Hd. unfold RetrieveSourceImage. rewrite Hr.
  rewrite (proj2 (String.eqb_neq image NoBaseImage) Hn), Hs, Hca.
  rewrite (proj2 (String.eqb_neq (CacheDir opts) EmptyString) Hd). cbn [andb negb].
  rewrite Hc. reflexivity.
Qed.

End Lookups.

End SourcesProofs.

Module SourcesWitnesses.
Import GoStrings Config Dockerfile Warmer Sources WarmExamples SourceExamples SourcesProofs.

Lemma cachedImage_hit_sound_witness :
  cachedImage exParse exLocal exRemote exImage =
    (inl (CachedImage "sha256:aaaa"), [LocalLookup "sha256:aaaa"]) /\
  exists k, CachedImage "sha256:aaaa" = CachedImage k /\ exLocal k = LHit /\
    In (LocalLookup k) [LocalLookup "sha256:aaaa"].
Proof.
  assert (H : cachedImage exParse exLocal exRemote exImage =
    (inl (CachedImage "sha256:aaaa"), [LocalLookup "sha256:aaaa"])) by reflexivity.
  split; [exact H|]. exact (cachedImage_hit_sound _ _ _ _ _ _ H).
Defined.

Lemma cachedImage_lookups_once_witness :
  (forall k, exParse exImage = Some (RefDigest k) -> k <> EmptyString) /\
  NoDup (snd (cachedImage exParse exLocalExpired exRemote exImage)).
Proof.
  assert (H : forall k, exParse exImage = Some (RefDigest k) -> k <> EmptyString).
  { intros k E. injection E as <-. discriminate. }
  split; [exact H|]. exact (cachedImage_lookups_once _ _ _ _ H).
Defined.

Lemma expired_entry_not_refreshed_witness :
  exParse exImage = Some (RefDigest "sha256:aaaa") /\ exLocalExpired "sha256:aaaa" = LExpired /\
  Warm exParse exLocalExpired exRemote exTar exManifestWrite exImage (mkWarmerOptions false) =
    (AlreadyCached, [LocalLookup "sha256:aaaa"]) /\
  cachedImage exParse exLocalExpired exRemote exImage =
    (inr (LocalErr LExpired), [LocalLookup "sha256:aaaa"]) /\
  snd (RetrieveSourceImage exParse exLocalExpired exRemote exResolve exEnv exTarball exOci
         exStage exSourceOpts) = [LocalLookup "sha256:aaaa"; RemoteLookup exImage].
Proof.
  destruct (expired_entry_not_refreshed exParse exLocalExpired exRemote exResolve exEnv
              exTarball exOci exImage "sha256:aaaa" exTar exManifestWrite exStage exSourceOpts
              eq_refl eq_refl) as (H1 & H2 & H3).
  split; [reflexivity|]. split; [reflexivity|]. split; [exact H1|]. split; [exact H2|].
  apply H3; [reflexivity|discriminate|reflexivity|reflexivity|discriminate].
Defined.

End SourcesWitnesses.


(** ** Failures of the cache-mount swap, ensureDir and addDefaultHOME *)
Module RunMoreProofs.
Import GoStrings RunCmd RunProofs RunMore.

Theorem swapDir_failures (tmp a b : string) (w : World) :
  a <> EmptyString -> b <> EmptyString -> a <> b -> a <> tmp -> b <> tmp ->
  (fs w tmp <> None ->
     swapDir tmp a b w = (Fail (Wrapped "failed to rename (1)" (Plain "rename")),
                          mkWorld (fs w) (log w ++ [EvRename a tmp]))) /\
  (forall ca, fs w a = Some ca -> fs w tmp = None -> fs w b = None ->
     exists w1,
       swapDir tmp a b w = (Fail (Wrapped "failed to rename (2)" (Plain "rename")), w1) /\
       log w1 = log w ++ [EvRename a tmp; EvRename b a] /\
       fs w1 tmp = Some ca /\ fs w1 a = None /\ fs w1 b = None /\
       forall q, q <> a -> q <> b -> q <> tmp -> fs w1 q = fs w q).
Proof.
  intros Ha Hb Hab Hat Hbt.
  assert (Hba : b <> a) by congruence.
  assert (Hta : tmp <> a) by congruence.
  assert (Htb : tmp <> b) by congruence.
  unfold swapDir. rewrite (eqb_false _ _ Ha), (eqb_false _ _ Hb). cbn [orb].
  split.
  - intros Ht. unfold mbind, wrapErr, osRename at 1, rename.
    destruct (fs w tmp) as [ct|]; [|congruence].
    destruct (fs w a); reflexivity.
  - intros ca Hca Ht Hbn.
    unfold mbind, wrapErr, osRename at 1, rename. rewrite Hca, Ht.
    unfold osRename, rename. cbn [fs log]. unfold upd at 1 2 3 4.
    rewrite (eqb_false _ _ Hba), (eqb_false _ _ Hbt), Hbn.
    eexists. split; [reflexivity|]. cbn [fs log].
    split; [rewrite <- app_assoc; reflexivity|].
    unfold upd. rewrite String.eqb_refl, (eqb_false _ _ Hta).
    split; [reflexivity|]. rewrite String.eqb_refl. split; [reflexivity|].
    rewrite (eqb_false _ _ Hba), (eqb_false _ _ Hbt). split; [exact Hbn|].
    intros q Hqa Hqb Hqt. rewrite (eqb_false _ _ Hqa), (eqb_false _ _ Hqt). reflexivity.
Qed.

Lemma mkdirAllFrom_keep (dirOf : string -> string) (fuel : nat) (f : FS) (p q : string) (c : Content) :
  f q = Some c -> mkdirAllFrom dirOf fuel f p q = Some c.
Proof.
  revert p. induction fuel as [|n IH]; intros p Hq; [exact Hq|].
  cbn [mkdirAllFrom]. destruct (f p) eqn:Ep; [exact Hq|].
  unfold upd. destruct (String.eqb_spec q p) as [->|]; [congruence|]. apply IH. exact Hq.
Qed.

Lemma osMkdirAll_keep (dirOf : string -> string) (mf : FS -> string -> option (string * FS))
    (p : string) (w : World) (q : string) (c : Content) :
  fs w q = Some c ->
  (exists msg w', osMkdirAll dirOf mf p w = (Fail (Plain msg), w') /\
     log w' = log w ++ [EvMkdirAll p]) \/
  (exists w', osMkdirAll dirOf mf p w = (Done tt, w') /\
     log w' = log w ++ [EvMkdirAll p] /\ fs w' q = Some c).
Proof.
  intros Hq. unfold osMkdirAll.
  destruct (mf (fs w) p) as [[msg f']|].
  - left. eexists msg, _. split; reflexivity.
  - right. eexists. split; [reflexivity|]. split; [reflexivity|].
    cbn [fs]. apply mkdirAllFrom_keep. exact Hq.
Qed.

Lemma ensureDir_keep (dirOf : string -> string) (mf : FS -> string -> option (string * FS))
    (target : string) (w : World) (q : string) (c : Content) :
  fs w q = Some c ->
  (exists e w', ensureDir dirOf mf target w = (Fail e, w') /\ errorsAsExitError e = None /\
     exists l, log w' = log w ++ l /\ ~ In EvSpawn l) \/
  (exists created w', ensureDir dirOf mf target w = (Done created, w') /\ fs w' q = Some c /\
     exists l, log w' = log w ++ l /\ ~ In EvSpawn l).
Proof.
  intros Hq. unfold ensureDir.
  destruct (String.eqb _ EmptyString).
  - right. exists EmptyString, w. split; [reflexivity|]. split; [exact Hq|].
    exists []. rewrite app_nil_r. split; [reflexivity|intros []].
  - unfold mbind.
    destruct (osMkdirAll_keep dirOf mf target w q c Hq)
      as [(msg & w1 & E & Hl)|(w1 & E & Hl & H1)]; rewrite E.
    + left. eexists _, w1. split; [reflexivity|]. split; [reflexivity|].
      exists [EvMkdirAll target]. split; [exact Hl|intros [H|[]]; discriminate].
    + right. eexists _, w1. split; [reflexivity|]. split; [exact H1|].
      exists [EvMkdirAll target]. split; [exact Hl|intros [H|[]]; discriminate].
Qed.

Lemma swapDir_tmp_busy (tmp a b : string) (w : World) :
  fs w tmp <> None ->
  exists e l, swapDir tmp a b w = (Fail e, mkWorld (fs w) (log w ++ l)) /\
    errorsAsExitError e = None /\ ~ In EvSpawn l.
Proof.
  intros Ht. unfold swapDir.
  destruct (String.eqb a EmptyString || String.eqb b EmptyString).
  - exists (Plain "paths must not be empty"), []. rewrite app_nil_r. destruct w.
    split; [reflexivity|]. split; [reflexivity|intros []].
  - unfold mbind, wrapErr, osRename at 1, rename.
    exists (Wrapped "failed to rename (1)" (Plain "rename")), [EvRename a tmp].
    split; [|split; [reflexivity|intros [H|[]]; discriminate]].
    destruct (fs w tmp); [|congruence]. destruct (fs w a); reflexivity.
Qed.

Lemma no_spawn_app (l1 l2 : list Event) :
  ~ In EvSpawn l1 -> ~ In EvSpawn l2 -> ~ In EvSpawn (l1 ++ l2).
Proof. intros H1 H2 Hin. apply in_app_or in Hin as [Hin|Hin]; auto. Qed.

(** With the cache-mount feature on and a RUN with at least one cache
    mount, an occupied swap directory makes runCommandWithFlags fail
    before the child is spawned, with an error that carries no exit
    status: the first swap's rename into the swap directory fails, unless
    an earlier step (the expansion of the flags, a MkdirAll) failed. *)
Theorem occupied_swap_dir_blocks_run (dirOf : string -> string)
    (mf : FS -> string -> option (string * FS)) (clean : string -> string)
    (join : string -> string -> string) (sha256hex : string -> string)
    (cacheRoot tmp : string) (runChild : FS -> ChildResult * FS)
    (env : Config.Environ) (FlagsUsed : list string) (expandErr : option string)
    (mounts : list Mount) (target : string) (rest : list string) (w : World) :
  Config.EnvBoolDefault env "FF_KANIKO_RUN_MOUNT_CACHE" true = true ->
  FlagsUsed <> [] -> cacheTargets mounts = target :: rest ->
  fs w tmp <> None ->
  let '(r, w') := runCommandWithFlags dirOf mf clean join sha256hex cacheRoot tmp runChild
                    env FlagsUsed expandErr mounts w in
  (exists e, r = Fail e /\ errorsAsExitError e = None) /\
  exists l, log w' = log w ++ l /\ ~ In EvSpawn l.
Proof.
  intros Hff Hfl Hm Ht. destruct (fs w tmp) as [ct|] eqn:Ect; [clear Ht|congruence].
  unfold runCommandWithFlags. rewrite Hff.
  destruct FlagsUsed as [|fl fls]; [congruence|]. cbn [length Nat.eqb negb andb].
  destruct expandErr as [msg|].
  - split; [exists (Plain msg); split; reflexivity|].
    exists []. rewrite app_nil_r. split; [reflexivity|intros []].
  - rewrite Hm. cbn [cacheMountLoop].
    set (cd := cacheDirFor clean join sha256hex cacheRoot target).
    unfold mbind at 1.
    destruct (osMkdirAll_keep dirOf mf cd w tmp ct Ect)
      as [(msg & w1 & E & Hl)|(w1 & E & Hl & H1)]; rewrite E.
    + split; [eexists; split; reflexivity|].
      exists [EvMkdirAll cd]. split; [exact Hl|intros [H|[]]; discriminate].
    + unfold mbind at 1.
      destruct (ensureDir_keep dirOf mf target w1 tmp ct H1)
        as [(e & w2 & E2 & He & l1 & Hl1 & Hs1)|(created & w2 & E2 & H2 & l1 & Hl1 & Hs1)];
        rewrite E2.
      * split; [exists e; split; [reflexivity|exact He]|].
        exists ([EvMkdirAll cd] ++ l1). rewrite Hl1, Hl, app_assoc.
        split; [reflexivity|]. apply no_spawn_app; [intros [H|[]]; discriminate|exact Hs1].
      * assert (H2' : fs w2 tmp <> None) by congruence.
        destruct (swapDir_tmp_busy tmp cd target w2 H2') as (e & l2 & Es & He & Hl2).
        assert (Hlog : ~ In EvSpawn ([EvMkdirAll cd] ++ l1 ++ l2)).
        { apply no_spawn_app; [intros [H|[]]; discriminate|apply no_spawn_app; assumption]. }
        destruct (String.eqb created EmptyString); cbv beta.
        -- unfold mbind at 1. rewrite Es.
           split; [exists e; split; [reflexivity|exact He]|].
           exists ([EvMkdirAll cd] ++ l1 ++ l2). cbn [log]. rewrite Hl1, Hl, !app_assoc.
           split; [reflexivity|exact Hlog].
        -- unfold deferM. unfold mbind at 1. rewrite Es. cbn [osRemoveAll fs log].
           split; [exists e; split; [reflexivity|exact He]|].
           exists (([EvMkdirAll cd] ++ l1 ++ l2) ++ [EvRemoveAll created]).
           rewrite Hl1, Hl, !app_assoc. split; [reflexivity|].
           apply no_spawn_app; [exact Hlog|intros [H|[]]; discriminate].
Qed.

(** With the cache-mount feature on and the one cache mount [target=T]
    set up without error on an existing T, a child that removes T makes
    the deferred restore fail at its first rename: that error replaces
    the child's result, whatever its exit status; T stays absent and the
    cache directory keeps T's original contents. *)
Theorem deleted_target_masks_exit (dirOf : string -> string)
    (mf : FS -> string -> option (string * FS)) (clean : string -> string)
    (join : string -> string -> string) (sha256hex : string -> string)
    (cacheRoot tmp : string) (runChild : FS -> ChildResult * FS)
    (env : Config.Environ) (FlagsUsed : list string) (mounts : list Mount)
    (target : string) (w : World) (cT : Content) (k : Z) :
  let cd := cacheDirFor clean join sha256hex cacheRoot target in
  Config.EnvBoolDefault env "FF_KANIKO_RUN_MOUNT_CACHE" true = true ->
  FlagsUsed <> [] -> cacheTargets mounts = [target] ->
  target <> EmptyString -> cd <> EmptyString -> cd <> target -> cd <> tmp -> target <> tmp ->
  mf (fs w) cd = None ->
  mkdirAll dirOf (fs w) cd tmp = None ->
  mkdirAll dirOf (fs w) cd target = Some cT ->
  (forall f c f', runChild f = (c, f') -> c = Exited k /\ f' target = None /\ f' cd = f cd) ->
  let '(r, w') := runCommandWithFlags dirOf mf clean join sha256hex cacheRoot tmp runChild
                    env FlagsUsed None mounts w in
  r = Fail (Wrapped "failed to rename (1)" (Plain "rename")) /\
  fs w' target = None /\ fs w' cd = Some cT.
Proof.
  intros cd Hff Hfl Hm Ht0 Hcd0 Hcdt Hcdtmp Httmp Hmk Htmp1 HT1 Hchild.
  rewrite (runCommandWithFlags_on dirOf mf clean join sha256hex cacheRoot tmp runChild
             env FlagsUsed mounts Hff Hfl), Hm.
  set (f1 := mkdirAll dirOf (fs w) cd).
  destruct (f1 cd) as [cc|] eqn:Hcc.
  2:{ exfalso. exact (mkdirAll_makes dirOf (fs w) cd Hcc). }
  set (w1 := mkWorld f1 (log w ++ [EvMkdirAll cd])).
  assert (Hens : ensureDir dirOf mf target w1 = (Done EmptyString, w1)).
  { unfold ensureDir. cbn [fs].
    rewrite (firstMissing_present dirOf _ f1 target) by (unfold f1; congruence).
    reflexivity. }
  destruct (swapDir_ok tmp cd target w1 cc cT Hcd0 Ht0 Hcdt Hcdtmp Httmp Hcc HT1 Htmp1)
    as (f2 & Hs1 & Hf2).
  destruct (runChild f2) as [c fs3] eqn:Hrun.
  destruct (Hchild _ _ _ Hrun) as (-> & Hc_t & Hc_cd).
  assert (H2cd : f2 cd = Some cT).
  { rewrite Hf2. cbn [fs w1]. rewrite swapped_at_a. exact HT1. }
  cbn [cacheMountLoop]. fold cd.
  unfold mbind at 1. unfold osMkdirAll at 1. rewrite Hmk. fold f1. fold w1.
  unfold mbind at 1. rewrite Hens. cbn [String.eqb].
  unfold mbind at 1. rewrite Hs1.
  unfold deferM. unfold runCommandInExec. cbn [fs log]. rewrite Hrun.
  unfold swapDir. rewrite (eqb_false _ _ Ht0), (eqb_false _ _ Hcd0). cbn [orb].
  unfold mbind, wrapErr, osRename at 1, rename. cbn [fs log]. rewrite Hc_t.
  split; [reflexivity|]. cbn [fs]. split; [exact Hc_t|rewrite Hc_cd; exact H2cd].
Qed.






Lemma SplitN2_key (k v : string) :
  (forall n, String.get n k <> Some equals) ->
  SplitN2 equals (k ++ String equals v) = [k; v].
Proof.
  induction k as [|c k IH]; intros Hk; cbn [append SplitN2].
  - rewrite Ascii.eqb_refl. reflexivity.
  - assert (Hc : Ascii.eqb c equals = false).
    { apply Ascii.eqb_neq. intros ->. exact (Hk 0 eq_refl). }
    rewrite Hc, IH; [reflexivity|]. intros n. exact (Hk (S n)).
Qed.

Lemma envKey_entry (k v : string) :
  (forall n, String.get n k <> Some equals) -> envKey (k ++ str1 equals ++ v) = k.
Proof. intros Hk. unfold envKey. cbn [str1 append]. rewrite SplitN2_key by exact Hk. reflexivity. Qed.

Lemma existsb_key (HOME : string) (envs : list string) :
  existsb (fun env => String.eqb (envKey env) HOME) envs = true <->
  exists e, In e envs /\ envKey e = HOME.
Proof.
  rewrite existsb_exists. split; intros (e & H1 & H2); exists e; split; auto;
    [apply String.eqb_eq; exact H2|apply String.eqb_eq; exact H2].
Qed.

Theorem addDefaultHOME_spec (HOME RootUser DefaultHOMEValue : string)
    (userLookup : string -> option string) (u : string) (envs : list string) :
  (forall n, String.get n HOME <> Some equals) ->
  ((exists e, In e envs /\ envKey e = HOME) ->
     addDefaultHOME HOME RootUser DefaultHOMEValue userLookup u envs = Ok envs) /\
  (forall out, addDefaultHOME HOME RootUser DefaultHOMEValue userLookup u envs = Ok out ->
     (exists extra, out = envs ++ extra /\ length extra <= 1) /\
     (exists e, In e out /\ envKey e = HOME) /\
     forall u', addDefaultHOME HOME RootUser DefaultHOMEValue userLookup u' out = Ok out) /\
  ((exists msg, addDefaultHOME HOME RootUser DefaultHOMEValue userLookup u envs = Err msg) <->
     (forall e, In e envs -> envKey e <> HOME) /\ u <> EmptyString /\ u <> RootUser /\
     userLookup u = None) /\
  (forall m, addDefaultHOME HOME RootUser DefaultHOMEValue userLookup u envs <> Panic m).
Proof.
  intros Hk.
  assert (Hadd : forall v, exists e, In e (envs ++ [(HOME ++ str1 equals ++ v)%string]) /\
                                     envKey e = HOME).
  { intros v. exists (HOME ++ str1 equals ++ v)%string.
    split; [apply in_or_app; right; left; reflexivity|apply envKey_entry; exact Hk]. }
  assert (Hidem : forall out u', (exists e, In e out /\ envKey e = HOME) ->
            addDefaultHOME HOME RootUser DefaultHOMEValue userLookup u' out = Ok out).
  { intros out u' He. unfold addDefaultHOME. apply existsb_key in He. rewrite He. reflexivity. }
  split; [apply Hidem|].
  unfold addDefaultHOME at 1 3 4.
  destruct (existsb (fun env => String.eqb (envKey env) HOME) envs) eqn:Ex.
  - apply existsb_key in Ex.
    split; [|split; [split; [intros [m E]; discriminate|intros (Hn & _); destruct Ex as (e & H1 & H2);
                             exact (False_ind _ (Hn e H1 H2))]|discriminate]].
    intros out E. injection E as <-. split; [exists []; rewrite app_nil_r; split; [reflexivity|cbn; lia]|].
    split; [exact Ex|]. intros u'. apply Hidem. exact Ex.
  - assert (Hno : forall e, In e envs -> envKey e <> HOME).
    { intros e Hin He. assert (H : exists e, In e envs /\ envKey e = HOME) by eauto.
      apply existsb_key in H. congruence. }
    destruct (String.eqb_spec u EmptyString) as [Hu|Hu];
      [|destruct (String.eqb_spec u RootUser) as [Hr|Hr]]; cbn [orb].
    1,2: split; [|split; [split; [intros [m E]; discriminate|intros (_ & H1 & H2 & _); tauto]|discriminate]];
      intros out E; injection E as <-;
      (split; [eexists; split; [reflexivity|cbn; lia]|]);
      split; [apply Hadd|intros u'; apply Hidem, Hadd].
    destruct (userLookup u) as [home|] eqn:El.
    + split; [|split; [split; [intros [m E]; discriminate|intros (_ & _ & _ & H); congruence]|discriminate]].
      intros out E; injection E as <-.
      split; [eexists; split; [reflexivity|cbn; lia]|].
      split; [apply Hadd|intros u'; apply Hidem, Hadd].
    + split; [discriminate|]. split; [|discriminate].
      split; [intros _; tauto|intros _; eexists; reflexivity].
Qed.

End RunMoreProofs.

Module RunMoreWitnesses.
Import GoStrings RunCmd RunExamples RunMore RunMoreExamples RunMoreProofs.

Lemma swapDir_failures_witness :
  exTarget <> EmptyString /\ "/data" <> EmptyString /\ exTarget <> "/data" /\
  exTarget <> exSwap /\ "/data" <> exSwap /\
  swapDir exSwap exTarget "/data" exWorldBusy =
    (Fail (Wrapped "failed to rename (1)" (Plain "rename")),
     mkWorld (fs exWorldBusy) (log exWorldBusy ++ [EvRename exTarget exSwap])).
Proof.
  assert (H1 : exTarget <> EmptyString) by discriminate.
  assert (H2 : "/data" <> EmptyString) by discriminate.
  assert (H3 : exTarget <> "/data") by discriminate.
  assert (H4 : exTarget <> exSwap) by discriminate.
  assert (H5 : "/data" <> exSwap) by discriminate.
  do 5 (split; [assumption|]).
  apply (proj1 (swapDir_failures exSwap exTarget "/data" exWorldBusy H1 H2 H3 H4 H5)).
  discriminate.
Defined.

Lemma occupied_swap_dir_blocks_run_witness :
  Config.EnvBoolDefault exEnv "FF_KANIKO_RUN_MOUNT_CACHE" true = true /\
  cacheTargets exMounts = [exTarget] /\
  fs exWorldBusy exSwap <> None /\
  let '(r, w') := runCommandWithFlags exDirOf exMkdirOk exClean exJoin exSha exCacheRoot exSwap
                    (exChild 0) exEnv ["mount"] None exMounts exWorldBusy in
  (exists e, r = Fail e /\ errorsAsExitError e = None) /\
  exists l, log w' = log exWorldBusy ++ l /\ ~ In EvSpawn l.
Proof.
  assert (H0 : Config.EnvBoolDefault exEnv "FF_KANIKO_RUN_MOUNT_CACHE" true = true)
    by reflexivity.
  assert (Hm : cacheTargets exMounts = [exTarget]) by reflexivity.
  assert (H : fs exWorldBusy exSwap <> None) by discriminate.
  split; [exact H0|]. split; [exact Hm|]. split; [exact H|].
  exact (occupied_swap_dir_blocks_run exDirOf exMkdirOk exClean exJoin exSha exCacheRoot exSwap
           (exChild 0) exEnv ["mount"] None exMounts exTarget [] exWorldBusy
           H0 ltac:(discriminate) Hm H).
Defined.

Lemma deleted_target_masks_exit_witness :
  let '(r, w') := runCommandWithFlags exDirOf exMkdirOk exClean exJoin exSha exCacheRoot exSwap
                    (exChildRm 3) exEnv ["mount"] None exMounts exWorld in
  r = Fail (Wrapped "failed to rename (1)" (Plain "rename")) /\
  fs w' exTarget = None /\ fs w' exCacheDir = Some ["old"].
Proof.
  apply (deleted_target_masks_exit exDirOf exMkdirOk exClean exJoin exSha exCacheRoot exSwap
           (exChildRm 3) exEnv ["mount"] exMounts exTarget exWorld ["old"] 3%Z);
    try discriminate; try reflexivity.
  intros f c f' E. injection E as <- <-. split; [reflexivity|].
  split; reflexivity.
Defined.

Lemma addDefaultHOME_spec_witness :
  (forall n, String.get n "HOME" <> Some equals) /\
  addDefaultHOME "HOME" "root" "/root" exUserLookup "app" ["PATH=/bin"] =
    Ok ["PATH=/bin"; "HOME=/home/app"] /\
  forall u', addDefaultHOME "HOME" "root" "/root" exUserLookup u' ["PATH=/bin"; "HOME=/home/app"] =
    Ok ["PATH=/bin"; "HOME=/home/app"].
Proof.
  assert (Hk : forall n, String.get n "HOME" <> Some equals).
  { intros [|[|[|[|n]]]]; cbn; discriminate. }
  assert (E : addDefaultHOME "HOME" "root" "/root" exUserLookup "app" ["PATH=/bin"] =
    Ok ["PATH=/bin"; "HOME=/home/app"]) by reflexivity.
  split; [exact Hk|]. split; [exact E|].
  destruct (addDefaultHOME_spec "HOME" "root" "/root" exUserLookup "app" ["PATH=/bin"] Hk)
    as (_ & Hok & _).
  exact (proj2 (proj2 (Hok _ E))).
Defined.

End RunMoreWitnesses.

(** ** pkg/warmer: OciWarmer.Warm, WarmCache and ParseDockerfile *)
Module WarmerMoreProofs.
Import GoStrings Config Dockerfile Warmer Sources WarmerMore.

Definition ociLookups (l : list OciStep) : list WEvent :=
  flat_map (fun s => match s with OciLookup e => [e] | _ => [] end) l.

Definition isLookup (e : WEvent) : bool :=
  match e with LocalLookup _ | RemoteLookup _ => true | _ => false end.

Ltac destruct_matches :=
  repeat (cbn [fst snd negb andb orb app ociLookups flat_map filter isLookup isCached] in *;
    match goal with
    | |- context [match ?x with _ => _ end] =>
        lazymatch x with
        | context [match _ with _ => _ end] => fail
        | _ => destruct x eqn:?
        end
    end).

(** OciWarmer.Warm makes the same cache lookups as Warmer.Warm, in the
    same order, and returns AlreadyCached exactly when Warmer.Warm does;
    when layout.Write and AppendImage succeed, it returns the digest that
    Warmer.Warm returns on success. *)
Theorem OciWarm_agrees (parseReference : string -> option Ref) (Local : string -> LocalResult)
    (Remote : string -> option RemoteImage)
    (tarWrite : Ref -> RemoteImage -> bool) (manifestWrite : string -> bool)
    (layoutWrite : bool) (appendImage : Ref -> RemoteImage -> bool)
    (image : string) (opts : WarmerOptions) :
  let t := Warm parseReference Local Remote tarWrite manifestWrite image opts in
  let o := OciWarm parseReference Local Remote layoutWrite appendImage image opts in
  ociLookups (snd o) = filter isLookup (snd t) /\
  (fst o = AlreadyCached <-> fst t = AlreadyCached) /\
  (layoutWrite = true -> (forall r i, appendImage r i = true) ->
   forall d, fst t = WarmOk d -> fst o = WarmOk d).
Proof.
  intros t o. subst t o. unfold Warm, OciWarm, writeImage, ociWriteImage.
  destruct_matches; cbn [fst snd ociLookups flat_map filter isLookup app isCached negb andb] in *;
    repeat match goal with
    | H : negb _ = true |- _ => apply negb_true_iff in H
    | H : negb _ = false |- _ => apply negb_false_iff in H
    end;
    try (split; [reflexivity|split; [split; intros; congruence|]];
    intros HL HA d' E; try discriminate; try congruence; fail).
Qed.

(** No element is dropped by a filter exactly when all pass it. *)
Lemma filter_all_length {A} (p : A -> bool) (l : list A) :
  length l = length (filter p l) <-> forall x, In x l -> p x = true.
Proof.
  induction l as [|a r IH]; cbn [length filter].
  - split; [intros _ x []|reflexivity].
  - pose proof (filter_length_le p r) as Hle.
    destruct (p a) eqn:Ea; cbn [length].
    + split.
      * intros E x [<-|Hx]; [exact Ea|]. apply IH; [lia|exact Hx].
      * intros H. f_equal. apply IH. intros x Hx. apply H. right. exact Hx.
    + split; [lia|]. intros H. rewrite (H a (or_introl eq_refl)) in Ea. discriminate.
Qed.

(** WarmCache succeeds exactly when the Dockerfile, if a path is given,
    parses, and at least one of the given images or of the Dockerfile's
    base images warms, with the OCI warmer when FF_KANIKO_OCI_WARMER is
    set and the tarball warmer otherwise. *)
Theorem WarmCache_spec (env : Environ) (DockerfilePath : string)
    (parseDockerfile : result (list string))
    (warmToFile ociWarmToFile : string -> bool) (Images : list string) :
  let warm := if EnvBool env "FF_KANIKO_OCI_WARMER" then ociWarmToFile else warmToFile in
  WarmCache env DockerfilePath parseDockerfile warmToFile ociWarmToFile Images = Ok tt <->
  exists dfImages,
    (if String.eqb DockerfilePath EmptyString then dfImages = []
     else parseDockerfile = Ok dfImages) /\
    exists img, In img (Images ++ dfImages) /\ warm img = true.
Proof.
  intros warm. unfold WarmCache. fold warm.
  assert (Hcore : forall images,
    (if length images =? length (filter (fun img => negb (warm img)) images)
     then @Err unit "failed to warm any of the given images" else Ok tt) = Ok tt <->
    exists img, In img images /\ warm img = true).
  { intros images.
    destruct (Nat.eqb_spec (length images) (length (filter (fun img => negb (warm img)) images)))
      as [E|E].
    - split; [discriminate|]. intros (img & Hin & Hw).
      pose proof (proj1 (filter_all_length _ images) E img Hin) as E'. cbv beta in E'. rewrite Hw in E'. discriminate.
    - split; [intros _|reflexivity].
      destruct (List.existsb warm images) eqn:Ex.
      + apply existsb_exists in Ex. exact Ex.
      + exfalso. apply E, (proj2 (filter_all_length _ _)). intros x Hx.
        destruct (warm x) eqn:Wx; [|reflexivity].
        assert (existsb warm images = true) by (apply existsb_exists; eauto). congruence. }
  destruct (String.eqb DockerfilePath EmptyString).
  - cbn [bind]. rewrite (Hcore (Images ++ [])). split.
    + intros H. exists []. split; [reflexivity|exact H].
    + intros (df & -> & H). exact H.
  - destruct parseDockerfile as [l|e|m]; cbn [bind].
    + rewrite Hcore. split.
      * intros H. exists l. split; [reflexivity|exact H].
      * intros (df & E & H). injection E as <-. exact H.
    + split; [discriminate|]. intros (df & E & _). discriminate.
    + split; [discriminate|]. intros (df & E & _). discriminate.
Qed.

Section BaseNames.
Variable resolveEnv : string -> list string -> result string.

(** The loop keeps its list duplicate-free and lists the resolved base
    names of the stages that no earlier stage names. *)
Lemma baseNamesLoop_inv (args : list string) (stages prev : list Stage) (acc out : list string) :
  baseNamesLoop resolveEnv args prev stages acc = Ok out ->
  (NoDup acc -> NoDup out) /\
  forall x, In x out <->
    In x acc \/
    exists i, i < length stages /\
      resolveEnv (BaseName (nth i stages zeroStage)) args = Ok x /\
      (forall t, In t prev -> Name t <> x) /\
      (forall j, j < i -> Name (nth j stages zeroStage) <> x).
Proof.
  revert prev acc. induction stages as [|s r IH]; intros prev acc; cbn [baseNamesLoop].
  - intros E. injection E as <-. split; [tauto|]. intros x. split; [tauto|].
    intros [H|(i & Hi & _)]; [exact H|cbn in Hi; lia].
  - destruct (resolveEnv (BaseName s) args) as [y|e|m] eqn:Ey; [|discriminate|discriminate].
    assert (Hshift : forall x, (exists i, i < length r /\
                 resolveEnv (BaseName (nth i r zeroStage)) args = Ok x /\
                 (forall t, In t (prev ++ [s]) -> Name t <> x) /\
                 (forall j, j < i -> Name (nth j r zeroStage) <> x)) <->
              (exists i, 0 < i /\ i < length (s :: r) /\
                 resolveEnv (BaseName (nth i (s :: r) zeroStage)) args = Ok x /\
                 (forall t, In t prev -> Name t <> x) /\
                 (forall j, j < i -> Name (nth j (s :: r) zeroStage) <> x))).
    { intros x. split.
      - intros (i & Hi & Hr & Hp & Hj). exists (S i). cbn [length nth].
        split; [lia|]. split; [lia|]. split; [exact Hr|].
        split; [intros t Ht; apply Hp, in_or_app; left; exact Ht|].
        intros [|j] Hj'; [apply Hp, in_or_app; right; left; reflexivity|]. apply Hj. lia.
      - intros ([|i] & H0 & Hi & Hr & Hp & Hj); [lia|]. exists i. cbn [length nth] in *.
        split; [lia|]. split; [exact Hr|].
        split; [intros t Ht; apply in_app_or in Ht as [Ht|[<-|[]]]; [exact (Hp t Ht)|exact (Hj 0 ltac:(lia))]|].
        intros j Hj'. exact (Hj (S j) ltac:(lia)). }
    assert (Hzero : forall x, (exists i, i < length (s :: r) /\
                 resolveEnv (BaseName (nth i (s :: r) zeroStage)) args = Ok x /\
                 (forall t, In t prev -> Name t <> x) /\
                 (forall j, j < i -> Name (nth j (s :: r) zeroStage) <> x)) <->
              (x = y /\ forall t, In t prev -> Name t <> x) \/
              (exists i, 0 < i /\ i < length (s :: r) /\
                 resolveEnv (BaseName (nth i (s :: r) zeroStage)) args = Ok x /\
                 (forall t, In t prev -> Name t <> x) /\
                 (forall j, j < i -> Name (nth j (s :: r) zeroStage) <> x))).
    { intros x. split.
      - intros ([|i] & Hi & Hr & Hp & Hj).
        + left. cbn [nth] in Hr. rewrite Ey in Hr. injection Hr as ->. split; [reflexivity|exact Hp].
        + right. exists (S i). split; [lia|]. tauto.
      - intros [[-> Hp]|(i & _ & H)]; [|exists i; exact H].
        exists 0. cbn [length nth]. split; [lia|]. split; [exact Ey|]. split; [exact Hp|]. lia. }
    destruct (existsb (fun t => String.eqb (Name t) y) prev) eqn:Ep.
    + intros E. destruct (IH _ _ E) as [Hnd Hin]. split; [exact Hnd|].
      intros x. specialize (Hin x). specialize (Hshift x). specialize (Hzero x).
      assert (Hz : ~ (x = y /\ forall t, In t prev -> Name t <> x)).
      { intros [-> Hp]. apply existsb_exists in Ep as (t & Ht & Hn).
        apply String.eqb_eq in Hn. exact (Hp t Ht Hn). }
      tauto.
    + destruct (existsb (fun x => String.eqb x y) acc) eqn:Ea.
      * intros E. destruct (IH _ _ E) as [Hnd Hin]. split; [exact Hnd|].
        intros x. specialize (Hin x). specialize (Hshift x). specialize (Hzero x).
        assert (Hz : (x = y /\ forall t, In t prev -> Name t <> x) -> In x acc).
        { intros [-> _]. apply existsb_exists in Ea as (x & Hx & Hxy).
          apply String.eqb_eq in Hxy. subst x. exact Hx. }
        tauto.
      * intros E. destruct (IH _ _ E) as [Hnd Hin]. split.
        -- intros Hacc. apply Hnd. apply NoDup_app; [exact Hacc|constructor; [intros []|constructor]|].
           intros x Hx [Hyx|[]]; subst x. assert (existsb (fun x => String.eqb x y) acc = true).
           { apply existsb_exists. exists y. split; [exact Hx|apply String.eqb_refl]. }
           congruence.
        -- intros x. specialize (Hin x). specialize (Hshift x). specialize (Hzero x).
           rewrite in_app_iff in Hin. cbn [In] in Hin.
           assert (Hz : (x = y /\ forall t, In t prev -> Name t <> x) <-> y = x).
           { split; [intros [-> _]; reflexivity|intros <-; split; [reflexivity|]].
             intros t Ht Hn. assert (existsb (fun t => String.eqb (Name t) y) prev = true).
             { apply existsb_exists. exists t. split; [exact Ht|apply String.eqb_eq; exact Hn]. }
             congruence. }
           tauto.
Qed.

End BaseNames.

(** A successful loop resolved every stage's base name. *)
Lemma baseNamesLoop_resolves (resolveEnv : string -> list string -> result string)
    (args : list string) (stages prev : list Stage) (acc out : list string) :
  baseNamesLoop resolveEnv args prev stages acc = Ok out ->
  forall s, In s stages -> exists v, resolveEnv (BaseName s) args = Ok v.
Proof.
  revert prev acc. induction stages as [|s0 r IH]; intros prev acc; cbn [baseNamesLoop].
  - intros _ s [].
  - destruct (resolveEnv (BaseName s0) args) as [y|e|m] eqn:Ey; [|discriminate|discriminate].
    intros E s [<-|Hs]; [exists y; exact Ey|].
    destruct (existsb _ prev); [|destruct (existsb _ acc)]; exact (IH _ _ E s Hs).
Qed.

(** ParseDockerfile: on success the Dockerfile was read and parsed, every
    stage's base name resolved against the build args and meta args, and
    the result lists without duplicates exactly the resolved base names
    of the stages that do not refer to an earlier stage by its name. *)
Theorem ParseDockerfile_base_names (resolveEnv : string -> list string -> result string)
    (parsed : result (list Stage * list ArgCommand)) (BuildArgs out : list string) :
  ParseDockerfile resolveEnv parsed BuildArgs = Ok out ->
  exists stages metaArgs, parsed = Ok (stages, metaArgs) /\
    let args := BuildArgs ++ metaBuildArgs metaArgs in
    NoDup out /\
    (forall s, In s stages -> exists v, resolveEnv (BaseName s) args = Ok v) /\
    forall x, In x out <->
      exists i, i < length stages /\
        resolveEnv (BaseName (nth i stages zeroStage)) args = Ok x /\
        forall j, j < i -> Name (nth j stages zeroStage) <> x.
Proof.
  unfold ParseDockerfile. destruct parsed as [[stages metaArgs]|e|m]; [|discriminate|discriminate].
  intros E. exists stages, metaArgs. split; [reflexivity|]. cbv zeta.
  destruct (baseNamesLoop_inv _ _ _ _ _ _ E) as [Hnd Hin].
  split; [apply Hnd; constructor|]. split; [exact (baseNamesLoop_resolves _ _ _ _ _ _ E)|].
  intros x. rewrite Hin. split.
  - intros [[]|(i & Hi & Hr & _ & Hj)]. exists i. tauto.
  - intros (i & Hi & Hr & Hj). right. exists i. split; [exact Hi|]. split; [exact Hr|].
    split; [intros t []|exact Hj].
Qed.

End WarmerMoreProofs.

Module WarmerMoreWitnesses.
Import GoStrings Config Dockerfile Warmer Sources WarmerMore WarmerMoreExamples WarmerMoreProofs.

Lemma ParseDockerfile_base_names_witness :
  ParseDockerfile (fun s _ => Ok s) exParsed [] = Ok ["golang"; "scratch"] /\
  exists stages metaArgs, exParsed = Ok (stages, metaArgs) /\
    let args := [] ++ metaBuildArgs metaArgs in
    NoDup ["golang"; "scratch"] /\
    (forall s, In s stages -> exists v, (fun s (_ : list string) => @Ok string s) (BaseName s) args = Ok v) /\
    forall x, In x ["golang"; "scratch"] <->
      exists i, i < length stages /\
        (fun s (_ : list string) => @Ok string s) (BaseName (nth i stages zeroStage)) args = Ok x /\
        forall j, j < i -> Name (nth j stages zeroStage) <> x.
Proof.
  split; [vm_compute; reflexivity|].
  apply (ParseDockerfile_base_names (fun s _ => Ok s) exParsed [] ["golang"; "scratch"]).
  vm_compute; reflexivity.
Defined.

End WarmerMoreWitnesses.

(** ** pkg/config: KanikoGitOptions *)
Module ConfigMoreProofs.
Import GoStrings DockerfileMore DockerfileMoreProofs ConfigMore.

(** strings.Split of a string without the separator gives the string. *)
Lemma Split_noChar (sep : ascii) (a : string) :
  noChar sep a = true -> Split sep a = [a].
Proof.
  induction a as [|c r IH]; [reflexivity|].
  unfold noChar. cbn [list_ascii_of_string forallb]. intros H.
  apply andb_true_iff in H as [Hc Hr]. apply negb_true_iff in Hc.
  cbn [Split]. rewrite Hc, (IH Hr). reflexivity.
Qed.

(** strings.Split splits at the first separator of [a ++ sep ++ b]. *)
Lemma Split_noChar_app (sep : ascii) (a b : string) :
  noChar sep a = true -> Split sep (a ++ String sep b)%string = a :: Split sep b.
Proof.
  induction a as [|c r IH].
  - intros _. cbn [append Split]. rewrite Ascii.eqb_refl. reflexivity.
  - unfold noChar. cbn [list_ascii_of_string forallb]. intros H.
    apply andb_true_iff in H as [Hc Hr]. apply negb_true_iff in Hc.
    cbn [append Split]. rewrite Hc. fold (append r (String sep b)). rewrite (IH Hr). reflexivity.
Qed.

(** A concatenation has no [c] when neither part has one. *)
Lemma noChar_app (c : ascii) (a b : string) :
  noChar c (a ++ b)%string = noChar c a && noChar c b.
Proof.
  induction a as [|d r IH]; [reflexivity|].
  unfold noChar in *. cbn [append list_ascii_of_string forallb]. rewrite IH.
  apply andb_assoc.
Qed.

(** String concatenation is associative. *)
Lemma append_assoc_str (a b c : string) : (a ++ (b ++ c) = (a ++ b) ++ c)%string.
Proof. induction a as [|d r IH]; cbn [append]; [reflexivity|rewrite IH; reflexivity]. Qed.

(** strconv.Itoa writes only digits, never a comma. *)
Lemma itoaAux_noComma (f n : nat) (acc : string) :
  noChar comma acc = true -> noChar comma (itoaAux f n acc) = true.
Proof.
  revert n acc. induction f as [|f IH]; intros n acc H; cbn [itoaAux]; [exact H|].
  assert (Hd : noChar comma (String (ascii_of_nat (48 + n mod 10)) acc) = true).
  { unfold noChar in *. cbn [list_ascii_of_string forallb]. rewrite H, andb_true_r.
    apply negb_true_iff, Ascii.eqb_neq. intros E.
    assert (n mod 10 < 10) by (apply Nat.mod_upper_bound; lia).
    apply (f_equal nat_of_ascii) in E. rewrite nat_ascii_embedding in E by lia.
    cbv in E. lia. }
  destruct (n <? 10); [exact Hd|]. apply IH, Hd.
Qed.

(** %d never writes a comma. *)
Lemma FormatInt_noComma (z : Z) : noChar comma (FormatInt z) = true.
Proof.
  unfold FormatInt, Itoa. destruct (z <? 0)%Z.
  - change ("-" ++ itoaAux (S (Z.to_nat (- z))) (Z.to_nat (- z)) EmptyString)%string
      with (String "-"%char (itoaAux (S (Z.to_nat (- z))) (Z.to_nat (- z)) EmptyString)).
    unfold noChar. cbn [list_ascii_of_string forallb]. apply itoaAux_noComma. reflexivity.

  - apply itoaAux_noComma. reflexivity.
Qed.

(** strconv.Atoi reads back every int written with %d. *)
Lemma Atoi_FormatInt (z : Z) :
  (- 2 ^ 63 <= z <= 2 ^ 63 - 1)%Z -> Atoi (FormatInt z) = Some z.
Proof.
  intros Hz. unfold FormatInt. destruct (Z.ltb_spec z 0) as [Hn|Hn].
  - set (n := Z.to_nat (- z)).
    assert (Hnz : Z.of_nat n = (- z)%Z) by (unfold n; lia).
    destruct (itoaAux_digits (S n) n EmptyString 0 ltac:(lia)) as [k [Hk _]].
    destruct (itoaAux_head (S n) n EmptyString ltac:(lia)) as [c [r [Hs _]]].
    unfold Atoi, Itoa. cbn [append].
    replace (Ascii.eqb "-"%char "+"%char) with false by reflexivity.
    replace (Ascii.eqb "-"%char "-"%char) with true by reflexivity.
    rewrite Hs. rewrite <- Hs, Hk. cbn [digitsVal].
    rewrite Z.mul_0_l, Z.add_0_l, Hnz, Z.opp_involutive.
    replace ((- 2 ^ 63 <=? z)%Z && (z <=? 2 ^ 63 - 1)%Z) with true; [reflexivity|].
    symmetry. apply andb_true_intro; split; apply Z.leb_le; lia.
  - rewrite Atoi_Itoa by lia. f_equal. lia.
Qed.

(** %t never writes a comma. *)
Lemma FormatBool_noComma (b : bool) : noChar comma (FormatBool b) = true.
Proof. destruct b; reflexivity. Qed.

(** strconv.ParseBool reads back %t. *)
Lemma ParseBool_FormatBool (b : bool) : ParseBool (FormatBool b) = Some b.
Proof. destruct b; reflexivity. Qed.

(** Setting, in turn, each comma-separated field of
    KanikoGitOptions.String() reproduces the options, from any starting
    value, when the branch has no comma; a branch may hold '='. *)
Theorem gitOptions_String_Set (k0 k : KanikoGitOptions) :
  (- 2 ^ 63 <= Depth k <= 2 ^ 63 - 1)%Z ->
  noChar comma (Branch k) = true ->
  gitOptionsSetAll k0 (Split comma (gitOptionsString k)) = (None, k).
Proof.
  intros Hd Hb. destruct k as [B sb d rs it]. cbn [Branch Depth] in *.
  unfold gitOptionsString. cbn [Branch SingleBranch Depth RecurseSubmodules InsecureSkipTLS].
  change ((",single-branch=" ++ ?x)%string) with (String comma ("single-branch=" ++ x)%string).
  change ((",depth=" ++ ?x)%string) with (String comma ("depth=" ++ x)%string).
  change ((",recurse-submodules=" ++ ?x)%string) with (String comma ("recurse-submodules=" ++ x)%string).
  change ((",insecure-skip-tls=" ++ ?x)%string) with (String comma ("insecure-skip-tls=" ++ x)%string).
  rewrite !append_assoc_str.
  rewrite Split_noChar_app by (rewrite !noChar_app, Hb; reflexivity).
  rewrite Split_noChar_app by (rewrite !noChar_app, FormatBool_noComma; reflexivity).
  rewrite Split_noChar_app by (rewrite !noChar_app, FormatInt_noComma; reflexivity).
  rewrite Split_noChar_app by (rewrite !noChar_app, FormatBool_noComma; reflexivity).
  rewrite Split_noChar by (rewrite !noChar_app, FormatBool_noComma; reflexivity).
  unfold gitOptionsSetAll. cbn [fold_left].
  destruct sb, rs, it; unfold gitOptionsSet, ParseInt10; cbn -[Atoi FormatInt];
    rewrite Atoi_FormatInt by exact Hd; reflexivity.
Qed.

(** strings.SplitN(s, sep, 2) of a string without [sep] gives the string. *)
Lemma SplitN2_noChar (sep : ascii) (a : string) :
  noChar sep a = true -> SplitN2 sep a = [a].
Proof.
  induction a as [|c r IH]; [reflexivity|].
  unfold noChar. cbn [list_ascii_of_string forallb]. intros H.
  apply andb_true_iff in H as [Hc Hr]. apply negb_true_iff in Hc.
  cbn [SplitN2]. rewrite Hc, (IH Hr). reflexivity.
Qed.

(** strings.SplitN(s, sep, 2) splits at the first [sep] only. *)
Lemma SplitN2_noChar_app (sep : ascii) (a b : string) :
  noChar sep a = true -> SplitN2 sep (a ++ String sep b)%string = [a; b].
Proof.
  induction a as [|c r IH].
  - intros _. cbn [append SplitN2]. rewrite Ascii.eqb_refl. reflexivity.
  - unfold noChar. cbn [list_ascii_of_string forallb]. intros H.
    apply andb_true_iff in H as [Hc Hr]. apply negb_true_iff in Hc.
    cbn [append SplitN2]. rewrite Hc. fold (append r (String sep b)). rewrite (IH Hr). reflexivity.
Qed.

(** A string with a [sep] is split at its first one. *)
Lemma noChar_first (sep : ascii) (s : string) :
  noChar sep s = false -> exists a b, noChar sep a = true /\ s = (a ++ String sep b)%string.
Proof.
  induction s as [|c r IH]; [discriminate|].
  unfold noChar. cbn [list_ascii_of_string forallb]. fold (noChar sep r).
  destruct (Ascii.eqb_spec c sep) as [->|Hc]; cbn [negb andb].
  - intros _. exists EmptyString, r. split; reflexivity.
  - intros Hr. destruct (IH Hr) as (a & b & Ha & ->). exists (String c a), b. split; [|reflexivity].
    unfold noChar in *. cbn [list_ascii_of_string forallb]. rewrite Ha, andb_true_r.
    apply negb_true_iff, Ascii.eqb_neq. exact Hc.
Qed.

(** KanikoGitOptions.Set returns ErrInvalidGitFlag exactly when the
    flag has no '=', and a flag key=value with an unknown key is accepted
    and changes nothing. *)
Theorem gitOptionsSet_invalid_and_unknown (k : KanikoGitOptions) (s : string) :
  (fst (gitOptionsSet k s) = Some (ErrInvalidGitFlag s) <-> noChar equals s = true) /\
  forall key v, noChar equals key = true ->
    ~ In key ["branch"; "single-branch"; "depth"; "recurse-submodules"; "insecure-skip-tls"] ->
    gitOptionsSet k (key ++ String equals v)%string = (None, k).
Proof.
  split.
  - destruct (noChar equals s) eqn:Hs.
    + unfold gitOptionsSet. rewrite (SplitN2_noChar _ _ Hs). split; reflexivity.
    + split; [|discriminate]. destruct (noChar_first _ _ Hs) as (a & b & Ha & ->).
      unfold gitOptionsSet. rewrite (SplitN2_noChar_app _ _ _ Ha).
      repeat match goal with
      | |- context [if ?c then _ else _] => destruct c
      | |- context [match ?o with Some _ => _ | None => _ end] => destruct o
      end; cbn [fst]; discriminate.
  - intros key v Hk Hn. unfold gitOptionsSet. rewrite (SplitN2_noChar_app _ _ _ Hk).
    repeat match goal with
    | |- context [String.eqb key ?l] =>
        let E := fresh in destruct (String.eqb_spec key l) as [E|E];
        [exfalso; apply Hn; rewrite E; cbn; tauto|]
    end.
    reflexivity.
Qed.

End ConfigMoreProofs.

Module ConfigMoreWitnesses.
Import GoStrings ConfigMore ConfigMoreProofs.

Lemma gitOptions_String_Set_witness :
  let k := mkGitOptions "release=1.2" true (-3)%Z false true in
  ((- 2 ^ 63 <= Depth k <= 2 ^ 63 - 1)%Z /\ noChar comma (Branch k) = true) /\
  gitOptionsSetAll (mkGitOptions EmptyString false 0%Z true false)
    (Split comma (gitOptionsString k)) = (None, k).
Proof.
  cbv zeta. split; [split; [cbn [Depth]; lia|reflexivity]|].
  apply gitOptions_String_Set; [cbn [Depth]; lia|reflexivity].
Defined.

End ConfigMoreWitnesses.

(** ** pkg/dockerfile: expandNestedArgs *)
Module NestedArgsProofs.
Import GoStrings Dockerfile NestedArgs.

(** The "key=value" entries of the pairs that have a value. *)
Definition setPairs (l : list KeyValuePairOptional) : list string :=
  flat_map (fun kv => match Value kv with
                      | Some v => [(Key kv ++ "=" ++ v)%string]
                      | None => []
                      end) l.

(** All the pairs of a list of ARG commands, in order. *)
Definition flatArgs (m : list ArgCommand) : list KeyValuePairOptional := flat_map Args m.

Section Expand.
Variable resolveEnv : string -> list string -> result string.
Variable buildArgs : list string.

(** The inner loop keeps the pairs' count, records the resolved pairs,
    and resolves each value against the earlier ones. *)
Lemma expandPairs_spec (args : list KeyValuePairOptional) (prev prev' : list string)
    (args' : list KeyValuePairOptional) :
  expandPairs resolveEnv buildArgs prev args = Ok (args', prev') ->
  length args' = length args /\ prev' = prev ++ setPairs args' /\
  forall n kv, nth_error args n = Some kv ->
    match Value kv with
    | None => nth_error args' n = Some kv
    | Some v => exists v', nth_error args' n = Some (mkKV (Key kv) (Some v')) /\
        resolveEnv v (prev ++ setPairs (firstn n args') ++ buildArgs) = Ok v'
    end.
Proof.
  revert prev prev' args'. induction args as [|arg r IH]; intros prev prev' args'; cbn [expandPairs].
  - intros E. injection E as <- <-. split; [reflexivity|]. split; [rewrite app_nil_r; reflexivity|].
    intros [|n] kv H; discriminate.
  - destruct (Value arg) as [v|] eqn:Ev.
    + destruct (resolveEnv v (prev ++ buildArgs)) as [val|e|m] eqn:Er; cbn [bind]; [|discriminate|discriminate].
      destruct (expandPairs resolveEnv buildArgs (prev ++ [(Key arg ++ "=" ++ val)%string]) r)
        as [[r' p]|e|m] eqn:Ep; cbn [bind]; [|discriminate|discriminate].
      intros E. injection E as <- <-.
      destruct (IH _ _ _ Ep) as (Hl & Hp & Hn). split; [cbn [length]; rewrite Hl; reflexivity|].
      split; [rewrite Hp, <- app_assoc; reflexivity|].
      intros [|n] kv H; cbn [nth_error] in H.
      * injection H as <-. rewrite Ev. exists val. split; [reflexivity|]. exact Er.
      * specialize (Hn n kv H). destruct (Value kv) as [w|]; [|exact Hn].
        destruct Hn as (w' & H1 & H2). exists w'. split; [exact H1|].
        cbn [firstn setPairs flat_map]. cbn [Value Key].
        fold (setPairs (firstn n r')). rewrite <- H2, <- !app_assoc. reflexivity.
    + destruct (expandPairs resolveEnv buildArgs prev r) as [[r' p]|e|m] eqn:Ep; cbn [bind];
        [|discriminate|discriminate].
      intros E. injection E as <- <-.
      destruct (IH _ _ _ Ep) as (Hl & Hp & Hn). split; [cbn [length]; rewrite Hl; reflexivity|].
      split; [cbn [setPairs flat_map]; rewrite Ev; exact Hp|].
      intros [|n] kv H; cbn [nth_error] in H.
      * injection H as <-. rewrite Ev. reflexivity.
      * specialize (Hn n kv H). destruct (Value kv) as [w|]; [|exact Hn].
        destruct Hn as (w' & H1 & H2). exists w'. split; [exact H1|].
        cbn [firstn setPairs flat_map]. rewrite Ev. exact H2.
Qed.

(** [setPairs] distributes over concatenation. *)
Lemma setPairs_app (a b : list KeyValuePairOptional) : setPairs (a ++ b) = setPairs a ++ setPairs b.
Proof. unfold setPairs. apply flat_map_app. Qed.

(** The outer loop, from the entries [prev] resolved before. *)
Lemma expandLoop_spec (metaArgs out : list ArgCommand) (prev : list string) :
  expandLoop resolveEnv buildArgs prev metaArgs = Ok out ->
  map (fun m => length (Args m)) out = map (fun m => length (Args m)) metaArgs /\
  forall n kv, nth_error (flatArgs metaArgs) n = Some kv ->
    match Value kv with
    | None => nth_error (flatArgs out) n = Some kv
    | Some v => exists v', nth_error (flatArgs out) n = Some (mkKV (Key kv) (Some v')) /\
        resolveEnv v (prev ++ setPairs (firstn n (flatArgs out)) ++ buildArgs) = Ok v'
    end.
Proof.
  revert prev out. induction metaArgs as [|marg r IH]; intros prev out; cbn [expandLoop].
  - intros E. injection E as <-. split; [reflexivity|]. intros [|n] kv H; discriminate.
  - destruct (expandPairs resolveEnv buildArgs prev (Args marg)) as [[a' p']|e|m] eqn:Ep;
      cbn [bind]; [|discriminate|discriminate].
    destruct (expandLoop resolveEnv buildArgs p' r) as [r'|e|m] eqn:El; cbn [bind];
      [|discriminate|discriminate].
    intros E. injection E as <-.
    destruct (expandPairs_spec _ _ _ _ Ep) as (Hl & Hp & Hn).
    destruct (IH _ _ El) as (Hl' & Hn').
    split; [cbn [map Args]; rewrite Hl, Hl'; reflexivity|].
    intros n kv H. unfold flatArgs in *. cbn [flat_map Args] in *.
    destruct (Nat.lt_ge_cases n (length (Args marg))) as [Hlt|Hge].
    + rewrite nth_error_app1 in H by exact Hlt.
      specialize (Hn n kv H). rewrite nth_error_app1 by lia.
      rewrite firstn_app, (proj2 (Nat.sub_0_le n (length a'))) by lia. cbn [firstn].
      rewrite app_nil_r. exact Hn.
    + rewrite nth_error_app2 in H by exact Hge.
      specialize (Hn' _ kv H). rewrite nth_error_app2 by lia. rewrite Hl.
      rewrite firstn_app, firstn_all2 by lia. rewrite Hl, setPairs_app.
      destruct (Value kv) as [v|]; [|exact Hn'].
      destruct Hn' as (v' & H1 & H2). exists v'. split; [exact H1|].
      rewrite Hp in H2. rewrite <- H2, <- !app_assoc. reflexivity.
Qed.

End Expand.

(** On success expandNestedArgs keeps the number of ARG lines and of
    pairs in each, leaves every pair without a value as it is, and keeps
    the key of every pair with a value; its value becomes the resolution
    of the old one against the resolved "key=value" entries of all the
    earlier pairs with a value, across ARG lines, followed by the build
    args. *)
Theorem expandNestedArgs_spec (resolveEnv : string -> list string -> result string)
    (buildArgs : list string) (metaArgs out : list ArgCommand) :
  expandNestedArgs resolveEnv buildArgs metaArgs = Ok out ->
  map (fun m => length (Args m)) out = map (fun m => length (Args m)) metaArgs /\
  forall n kv, nth_error (flatArgs metaArgs) n = Some kv ->
    match Value kv with
    | None => nth_error (flatArgs out) n = Some kv
    | Some v => exists v', nth_error (flatArgs out) n = Some (mkKV (Key kv) (Some v')) /\
        resolveEnv v (setPairs (firstn n (flatArgs out)) ++ buildArgs) = Ok v'
    end.
Proof. apply (expandLoop_spec resolveEnv buildArgs metaArgs out []). Qed.

End NestedArgsProofs.

Module NestedArgsWitnesses.
Import GoStrings Dockerfile NestedArgs NestedArgsExamples NestedArgsProofs.

Lemma expandNestedArgs_spec_witness :
  expandNestedArgs exResolveVar [] exMetaArgs = Ok exExpanded /\
  map (fun m => length (Args m)) exExpanded = map (fun m => length (Args m)) exMetaArgs /\
  forall n kv, nth_error (flatArgs exMetaArgs) n = Some kv ->
    match Value kv with
    | None => nth_error (flatArgs exExpanded) n = Some kv
    | Some v => exists v', nth_error (flatArgs exExpanded) n = Some (mkKV (Key kv) (Some v')) /\
        exResolveVar v (setPairs (firstn n (flatArgs exExpanded)) ++ []) = Ok v'
    end.
Proof.
  split; [vm_compute; reflexivity|].
  apply (expandNestedArgs_spec exResolveVar [] exMetaArgs exExpanded).
  vm_compute; reflexivity.
Defined.

End NestedArgsWitnesses.

(** ** cmd/runner: landlock_rootfs *)
Module RunnerProofs.
Import GoStrings Runner.

(** Prefixing "/" is injective. *)
Lemma append_slash_inj (a b : string) : ("/" ++ a = "/" ++ b)%string -> a = b.
Proof. cbn [append]. intros E. injection E as E. exact E. Qed.

(** landlock_rootfs grants access to exactly the top-level entries of "/"
    that are directories, as "/" ++ name, except /kaniko, /workspace and
    /busybox; since the entries' names are distinct, no path is listed
    twice. *)
Theorem landlockPaths_spec (entries : list DirEntry) :
  (forall p, In p (landlockPaths entries) <->
     exists x, In x entries /\ EntryIsDir x = true /\ p = ("/" ++ EntryName x)%string /\
       ~ In p ["/kaniko"; "/workspace"; "/busybox"]) /\
  (NoDup (map EntryName entries) -> NoDup (landlockPaths entries)).
Proof.
  assert (Hprot : forall p, (String.eqb p "/kaniko" || String.eqb p "/workspace"
                             || String.eqb p "/busybox") = true <->
                            In p ["/kaniko"; "/workspace"; "/busybox"]).
  { intros p. rewrite !orb_true_iff, !String.eqb_eq. cbn [In]. split; [intros [[H|H]|H]; subst; auto|].
    intros [H|[H|[H|[]]]]; subst; auto. }
  assert (Hin : forall p, In p (landlockPaths entries) <->
     exists x, In x entries /\ EntryIsDir x = true /\ p = ("/" ++ EntryName x)%string /\
       ~ In p ["/kaniko"; "/workspace"; "/busybox"]).
  { induction entries as [|x r IH]; intros p; cbn [landlockPaths].
    - split; [intros []|intros (x & [] & _)].
    - destruct (String.eqb ("/" ++ EntryName x) "/kaniko" || _ || _) eqn:Ep.
      + rewrite IH. split.
        * intros (y & Hy & H). exists y. split; [right; exact Hy|exact H].
        * intros (y & [<-|Hy] & Hd & -> & Hn); [apply Hprot in Ep; contradiction|].
          exists y. tauto.
      + destruct (EntryIsDir x) eqn:Ed;
          [change (In p (("/" ++ EntryName x)%string :: landlockPaths r))
             with (("/" ++ EntryName x)%string = p \/ In p (landlockPaths r))|];
          rewrite IH; split.
        * intros [<-|(y & Hy & H)]; [exists x; split; [left; reflexivity|]|exists y; split; [right; exact Hy|exact H]].
          split; [exact Ed|]. split; [reflexivity|]. intros Hp. apply Hprot in Hp. congruence.
        * intros (y & [<-|Hy] & H); [left; symmetry; tauto|right; exists y; tauto].
        * intros (y & Hy & H). exists y. split; [right; exact Hy|exact H].
        * intros (y & [<-|Hy] & Hd & H); [congruence|]. exists y. tauto. }
  split; [exact Hin|].
  clear Hin. induction entries as [|x r IH]; intros Hnd; cbn [landlockPaths]; [constructor|].
  cbn [map] in Hnd. apply NoDup_cons_iff in Hnd as [Hx Hr].
  destruct (_ || _ || _); [exact (IH Hr)|].
  destruct (EntryIsDir x); [|exact (IH Hr)].
  constructor; [|exact (IH Hr)].
  intros Hp. apply Hx.
  assert (Hsub : forall l p, In p (landlockPaths l) -> exists y, In y l /\ p = ("/" ++ EntryName y)%string).
  { clear. induction l as [|y l IH]; intros p; cbn [landlockPaths]; [intros []|].
    destruct (_ || _ || _); [intros H; destruct (IH p H) as (z & Hz & E); exists z; split; [right; exact Hz|exact E]|].
    destruct (EntryIsDir y); cbn [In].
    - intros [<-|H]; [exists y; split; [left|]; reflexivity|destruct (IH p H) as (z & Hz & E); exists z; split; [right; exact Hz|exact E]].
    - intros H; destruct (IH p H) as (z & Hz & E); exists z; split; [right; exact Hz|exact E]. }
  destruct (Hsub r _ Hp) as (y & Hy & E). apply append_slash_inj in E. rewrite E.
  apply in_map, Hy.
Qed.

End RunnerProofs.

(** ** RUN: runCommandInExec *)
Module RunExecProofs.
Import GoStrings RunExec ConfigMoreProofs.

(** strings.SplitN(v, sep, 2) gives one field only for a [v] without [sep], that field being [v]. *)
Lemma SplitN2_single (sep : ascii) (v k : string) : SplitN2 sep v = [k] -> v = k.
Proof.
  revert k. induction v as [|c r IH]; intros k; cbn [SplitN2].
  - intros E. injection E as <-. reflexivity.
  - destruct (Ascii.eqb c sep); [discriminate|].
    destruct (SplitN2 sep r) as [|p ps] eqn:E; [intros E'; injection E' as <-;
      destruct r; cbn in E; [discriminate|destruct (Ascii.eqb _ sep); [discriminate|destruct (SplitN2 sep r); discriminate]]|].
    destruct ps; [|discriminate]. intros E'. injection E' as <-. rewrite (IH p eq_refl). reflexivity.
Qed.

(** strings.SplitN(v, sep, 2) has at least one field. *)
Lemma SplitN2_nonempty (sep : ascii) (v : string) : SplitN2 sep v <> [].
Proof.
  destruct v as [|c r]; cbn [SplitN2]; [discriminate|].
  destruct (Ascii.eqb c sep); [discriminate|]. destruct (SplitN2 sep r); discriminate.
Qed.

Section PathLoop.
Variable lookPath : string -> string -> option string.

(** Without a bare PATH entry, the loop keeps the arguments and replaces the executable by a path looked up, if any. *)
Lemma pathLoop_ok (envs : list string) (c : string) (cs : list string) :
  ~ In "PATH" envs ->
  exists c', pathLoop lookPath envs (c :: cs) = Ok (c' :: cs) /\
    (c' = c \/ exists p x, lookPath p x = Some c').
Proof.
  revert c. induction envs as [|v r IH]; intros c Hn; cbn [pathLoop].
  - exists c. split; [reflexivity|left; reflexivity].
  - assert (Hr : ~ In "PATH" r) by (intros H; apply Hn; right; exact H).
    destruct (SplitN2 equals v) as [|key rest] eqn:Es; [exfalso; exact (SplitN2_nonempty _ _ Es)|].
    destruct (String.eqb_spec key "PATH") as [Ek|Ek]; cbn [negb]; [|exact (IH c Hr)].
    destruct rest as [|path rest].
    + exfalso. apply Hn. left. subst key. exact (SplitN2_single _ _ _ Es).
    + destruct (lookPath path c) as [p|] eqn:El; [|exact (IH c Hr)].
      destruct (IH p Hr) as (c' & E & H). exists c'. split; [exact E|].
      right. destruct H as [->|H]; [exists path, c; exact El|exact H].
Qed.

(** A bare PATH entry (no '=') makes the loop index entry[1] out of range. *)
Lemma pathLoop_panic (envs : list string) (c : string) (cs : list string) :
  In "PATH" envs -> exists m, pathLoop lookPath envs (c :: cs) = Panic m.
Proof.
  revert c. induction envs as [|v r IH]; intros c Hin; [destruct Hin|].
  cbn [pathLoop]. destruct Hin as [Hv|Hin]; [subst v|].
  - exists "index out of range [1] with length 1". reflexivity.
  - destruct (SplitN2 equals v) as [|key rest] eqn:Es; [exfalso; exact (SplitN2_nonempty _ _ Es)|].
    destruct (negb (String.eqb key "PATH")); [exact (IH c Hin)|].
    destruct rest as [|path rest]; [eexists; reflexivity|].
    destruct (lookPath path c); apply IH, Hin.
Qed.

(** On an empty command the loop returns it or panics. *)
Lemma pathLoop_empty (envs : list string) :
  exists r, pathLoop lookPath envs [] = r /\ (r = Ok [] \/ exists m, r = Panic m).
Proof.
  induction envs as [|v r IH]; cbn [pathLoop]; [eexists; split; [reflexivity|left; reflexivity]|].
  destruct (SplitN2 equals v) as [|key rest]; [eexists; split; [reflexivity|right; eexists; reflexivity]|].
  destruct (negb (String.eqb key "PATH")); [exact IH|].
  destruct rest; eexists; (split; [reflexivity|right; eexists; reflexivity]).
Qed.

End PathLoop.

(** Exec form: an empty command line panics (index out of range), as
    does a replacement env "PATH" without '='. Otherwise the arguments are
    run as written, the executable replaced by a path exec.LookPath
    found, if any, and the RUN instruction's CmdLine is overwritten with
    the argv run. *)
Theorem commandArgv_exec (lookPath : string -> string -> option string)
    (configShell envs : list string) (cmdRun : RunInstr) :
  PrependShell cmdRun = false ->
  match CmdLine cmdRun with
  | [] => exists m, commandArgv lookPath configShell envs cmdRun = Panic m
  | c :: cs =>
      (In "PATH" envs -> exists m, commandArgv lookPath configShell envs cmdRun = Panic m) /\
      (~ In "PATH" envs -> exists c',
         commandArgv lookPath configShell envs cmdRun = Ok (c' :: cs, withCmdLine cmdRun (c' :: cs)) /\
         (c' = c \/ exists p x, lookPath p x = Some c'))
  end.
Proof.
  intros Hp. unfold commandArgv. rewrite Hp.
  destruct (CmdLine cmdRun) as [|c cs].
  - destruct (pathLoop_empty lookPath envs) as (r & E & [->|(m & ->)]); rewrite E; cbn [bind].
    + eexists; reflexivity.
    + exists m. reflexivity.
  - split.
    + intros Hin. destruct (pathLoop_panic lookPath envs c cs Hin) as (m & E).
      rewrite E. exists m. reflexivity.
    + intros Hn. destruct (pathLoop_ok lookPath envs c cs Hn) as (c' & E & H).
      rewrite E. exists c'. split; [reflexivity|exact H].
Qed.

End RunExecProofs.

Module RunExecWitnesses.
Import GoStrings RunExec RunExecExamples RunExecProofs.

Lemma commandArgv_exec_witness :
  PrependShell exExecRun = false /\
  match CmdLine exExecRun with
  | [] => exists m, commandArgv exLookPath [] exEnvs exExecRun = Panic m
  | c :: cs =>
      (In "PATH" exEnvs -> exists m, commandArgv exLookPath [] exEnvs exExecRun = Panic m) /\
      (~ In "PATH" exEnvs -> exists c',
         commandArgv exLookPath [] exEnvs exExecRun = Ok (c' :: cs, withCmdLine exExecRun (c' :: cs)) /\
         (c' = c \/ exists p x, exLookPath p x = Some c'))
  end.
Proof.
  split; [reflexivity|].
  apply (commandArgv_exec exLookPath [] exEnvs exExecRun). reflexivity.
Defined.

End RunExecWitnesses.
